(** * ProximityInfoState: a shallow embedding of
      native/jni/src/proximity_info_state.cpp

    The C++ class is embedded as a record [State] and its member functions
    as functions on that record.  Every function that reads an array lives in
    the [option] monad: [None] stands for undefined behaviour of the C++
    program (a read or a write outside an array, a null pointer that is
    dereferenced, a float that does not fit the integer it is converted to).
    [int] values are [Z]: the difference of two stored values wraps around
    as a 32-bit [int] does, the arithmetic that computes an array index is
    exact, since an index outside the array is undefined anyway.  [float]
    values are IEEE-754 binary32 numbers ([spec_float] at precision 24 and
    maximal exponent 128), bit sets are [Z] read with [Z.testbit], a
    [hash_map_compat] is the list of its entries in iteration order. *)

From Stdlib Require Import ZArith Bool Lia.
From Stdlib Require Import Floats.SpecFloat.
From stdpp Require Import base option list.

Open Scope Z_scope.

(** ** Machine numbers *)

(** Two's complement wrap-around of a 32-bit [int]. *)
Definition int32 (z : Z) : Z := (z + 2 ^ 31) mod 2 ^ 32 - 2 ^ 31.

Definition float : Type := spec_float.

Definition fadd : float -> float -> float := SFadd 24 128.
Definition fsub : float -> float -> float := SFsub 24 128.
Definition fmul : float -> float -> float := SFmul 24 128.
Definition fdiv : float -> float -> float := SFdiv 24 128.
Definition flt : float -> float -> bool := SFltb.
Definition fle : float -> float -> bool := SFleb.

(** [static_cast<float>(z)] and the implicit conversion of an [int]. *)
Definition static_cast_float (z : Z) : float := binary_normalize 24 128 z 0 false.

(** [(int) f]: truncation toward zero; undefined when the value does not fit. *)
Definition static_cast_int (f : float) : option Z :=
  match f with
  | S754_zero _ => Some 0
  | S754_finite s m e =>
      let mag := if 0 <=? e then Zpos m * 2 ^ e else Zpos m / 2 ^ (- e) in
      let v := if s then - mag else mag in
      if (- 2 ^ 31 <=? v) && (v <? 2 ^ 31) then Some v else None
  | _ => None
  end.

(** The float literals of the source file. *)
Definition F_0_0 : float := S754_zero false.                      (* 0.0f  *)
Definition F_1_0 : float := S754_finite false 8388608 (-23).      (* 1.0f  *)
Definition F_4_0 : float := S754_finite false 8388608 (-21).      (* 4.0f  *)
Definition F_0_3 : float := S754_finite false 10066330 (-25).     (* 0.3f  *)
Definition F_0_95 : float := S754_finite false 15938355 (-24).    (* 0.95f *)

Definition NORMALIZED_SQUARED_DISTANCE_SCALING_FACTOR_LOG_2 : Z := 10.
Definition NORMALIZED_SQUARED_DISTANCE_SCALING_FACTOR : Z :=
  Z.shiftl 1 NORMALIZED_SQUARED_DISTANCE_SCALING_FACTOR_LOG_2.
Definition NOT_A_DISTANCE_FLOAT : float := S754_finite true 8388608 (-23). (* -1.0f *)
Definition NOT_A_CODE : Z := -1.
Definition NEAR_KEY_NORMALIZED_SQUARED_THRESHOLD : float := F_4_0.
Definition READ_FORWORD_LENGTH_SCALE : float := F_0_95.
Definition DEMOTION_LOG_PROBABILITY : float := F_0_3.

(** [square] of geometry_utils.h. *)
Definition square (x : float) : float := fmul x x.

(** Modelled from the spec: the [min] macro of defines.h, which is not part of
    the sources at hand; the accessors are "clamped to [0, maxPointToKeyLength]",
    written here as the usual conditional expression. *)
Definition fmin (a b : float) : float := if flt a b then a else b.

(** ** Arrays *)

(** [a[i]] for a [std::vector] or a C array: undefined outside the array. *)
Definition rd {A} (a : list A) (i : Z) : option A :=
  if 0 <=? i then a !! Z.to_nat i else None.

(** [a[i] = v]. *)
Definition wr {A} (a : list A) (i : Z) (v : A) : option (list A) :=
  if (0 <=? i) && (i <? Z.of_nat (length a)) then Some (<[Z.to_nat i := v]> a)
  else None.

(** A pointer argument ([const int *]) that may be null. *)
Definition rdp (p : option (list Z)) (i : Z) : option Z := a ← p; rd a i.

(** [v.size()] as an [int]. *)
Definition vsize {A} (v : list A) : Z := Z.of_nat (length v).

(** [for (i = lo; i < hi; ++i) body], the body threading the loop state. *)
Fixpoint forM {S} (body : Z -> S -> option S) (idxs : list Z) (s : S) : option S :=
  match idxs with
  | [] => Some s
  | i :: rest => s' ← body i s; forM body rest s'
  end.

Definition for_range {S} (lo hi : Z) (body : Z -> S -> option S) (s : S) : option S :=
  forM body (seqZ lo (hi - lo)) s.

(** [memset(a, v, sizeof(a))] on an array of [int]: every byte becomes the low
    byte of [v]. *)
Definition memset_int (v : Z) : Z := int32 ((v mod 256) * 16843009).
Definition memset (a : list Z) (v : Z) : list Z := replicate (length a) (memset_int v).

(** ** What the file takes from elsewhere *)

(** The constants of defines.h that the file uses. *)
Record Defines := {
  MAX_WORD_LENGTH : Z;
  MAX_PROXIMITY_CHARS_SIZE : Z;
  MAX_KEY_COUNT_IN_A_KEYBOARD : Z;
  MAX_POINT_TO_KEY_LENGTH : Z;
  NOT_AN_INDEX : Z;
  NOT_A_COORDINATE : Z;
  NOT_A_DISTANCE : Z;
  ADDITIONAL_PROXIMITY_CHAR_DELIMITER_CODE : Z;
  EQUIVALENT_CHAR_WITHOUT_DISTANCE_INFO : Z;
  PROXIMITY_CHAR_WITHOUT_DISTANCE_INFO : Z;
  KEYCODE_SPACE : Z
}.

Inductive ProximityType :=
  | EQUIVALENT_CHAR
  | NEAR_PROXIMITY_CHAR
  | UNRELATED_CHAR
  | ADDITIONAL_PROXIMITY_CHAR.

(** The geometry provider ([ProximityInfo]), through the member functions the
    file calls. *)
Record ProximityInfo := {
  hasTouchPositionCorrectionData : bool;
  getMostCommonKeyWidthSquare : Z;
  getMostCommonKeyWidth : Z;
  getKeyCount : Z;
  getCellHeight : Z;
  getCellWidth : Z;
  getGridWidth : Z;
  getGridHeight : Z;
  getKeyboardWidth : Z;
  getKeyboardHeight : Z;
  initializeProximities :
    option (list Z) -> option (list Z) -> option (list Z) -> Z -> list Z ->
    option (list Z);
  getNormalizedSquaredDistanceFromCenterFloatG : Z -> Z -> Z -> float;
  getKeyIndexOf : Z -> Z;
  getCodePointOf : Z -> Z;
  hasSweetSpotData : Z -> bool;
  getSweetSpotRadiiAt : Z -> float;
  getSweetSpotCenterXAt : Z -> float;
  getSweetSpotCenterYAt : Z -> float;
  getKeyCenterXOfKeyIdG : Z -> Z;
  getKeyCenterYOfKeyIdG : Z -> Z;
  hasSpaceProximity : Z -> Z -> bool
}.

(** The five parallel vectors of the sampled points, which the sampler and
    [popInputData] receive by pointer. *)
Record SampledVectors := {
  svXs : list Z;
  svYs : list Z;
  svTimes : list Z;
  svLengthCache : list Z;
  svIndice : list Z
}.

(** One entry per key of a [hash_map_compat<int, float>], in iteration order. *)
Definition CharProbability : Type := list (Z * float).

(** The static helpers of [ProximityInfoStateUtils], [ProximityInfoUtils] and
    char_utils.h, and [hypotf]. *)
Record Utils := {
  updateTouchPoints :
    Z -> ProximityInfo -> float -> list Z -> list Z -> list Z ->
    option (list Z) -> option (list Z) -> Z -> bool -> Z -> Z ->
    SampledVectors -> option (Z * SampledVectors);
  refreshSpeedRates :
    Z -> option (list Z) -> option (list Z) -> option (list Z) -> Z -> Z ->
    SampledVectors -> list float -> list float ->
    option (float * list float * list float);
  refreshBeelineSpeedRates :
    Z -> float -> Z -> option (list Z) -> option (list Z) -> option (list Z) ->
    Z -> list Z -> list Z -> list Z -> list Z -> option (list Z);
  updateAlignPointProbabilities :
    float -> Z -> Z -> Z -> Z -> list Z -> list Z -> list float -> list Z ->
    list float -> list Z -> list CharProbability ->
    option (list Z * list CharProbability);
  pointToLineSegSquaredDistanceFloat :
    Z -> Z -> Z -> Z -> Z -> Z -> bool -> float;
  toBaseLowerCase : Z -> Z;
  isSkippableCodePoint : Z -> bool;
  hypotf : float -> float -> float
}.

(** ** The state of a session *)

Record State := {
  mProximityInfo : option ProximityInfo;
  mMaxPointToKeyLength : float;
  mAverageSpeed : float;
  mHasTouchPositionCorrectionData : bool;
  mMostCommonKeyWidthSquare : Z;
  mKeyCount : Z;
  mCellHeight : Z;
  mCellWidth : Z;
  mGridHeight : Z;
  mGridWidth : Z;
  mIsContinuationPossible : bool;
  mSampledInputXs : list Z;
  mSampledInputYs : list Z;
  mTimes : list Z;
  mInputIndice : list Z;
  mLengthCache : list Z;
  mDistanceCache_G : list float;
  mNearKeysVector : list Z;
  mSearchKeysVector : list Z;
  mSpeedRates : list float;
  mBeelineSpeedPercentiles : list Z;
  mCharProbabilities : list CharProbability;
  mDirections : list float;
  mInputProximities : list Z;
  mNormalizedSquaredDistances : list Z;
  mPrimaryInputWord : list Z;
  mTouchPositionCorrectionEnabled : bool;
  mSampledInputSize : Z
}.

Definition set_mNormalizedSquaredDistances (st : State) (v : list Z) : State :=
  {| mProximityInfo := mProximityInfo st;
     mMaxPointToKeyLength := mMaxPointToKeyLength st;
     mAverageSpeed := mAverageSpeed st;
     mHasTouchPositionCorrectionData := mHasTouchPositionCorrectionData st;
     mMostCommonKeyWidthSquare := mMostCommonKeyWidthSquare st;
     mKeyCount := mKeyCount st;
     mCellHeight := mCellHeight st;
     mCellWidth := mCellWidth st;
     mGridHeight := mGridHeight st;
     mGridWidth := mGridWidth st;
     mIsContinuationPossible := mIsContinuationPossible st;
     mSampledInputXs := mSampledInputXs st;
     mSampledInputYs := mSampledInputYs st;
     mTimes := mTimes st;
     mInputIndice := mInputIndice st;
     mLengthCache := mLengthCache st;
     mDistanceCache_G := mDistanceCache_G st;
     mNearKeysVector := mNearKeysVector st;
     mSearchKeysVector := mSearchKeysVector st;
     mSpeedRates := mSpeedRates st;
     mBeelineSpeedPercentiles := mBeelineSpeedPercentiles st;
     mCharProbabilities := mCharProbabilities st;
     mDirections := mDirections st;
     mInputProximities := mInputProximities st;
     mNormalizedSquaredDistances := v;
     mPrimaryInputWord := mPrimaryInputWord st;
     mTouchPositionCorrectionEnabled := mTouchPositionCorrectionEnabled st;
     mSampledInputSize := mSampledInputSize st |}.

Definition set_mPrimaryInputWord (st : State) (v : list Z) : State :=
  {| mProximityInfo := mProximityInfo st;
     mMaxPointToKeyLength := mMaxPointToKeyLength st;
     mAverageSpeed := mAverageSpeed st;
     mHasTouchPositionCorrectionData := mHasTouchPositionCorrectionData st;
     mMostCommonKeyWidthSquare := mMostCommonKeyWidthSquare st;
     mKeyCount := mKeyCount st;
     mCellHeight := mCellHeight st;
     mCellWidth := mCellWidth st;
     mGridHeight := mGridHeight st;
     mGridWidth := mGridWidth st;
     mIsContinuationPossible := mIsContinuationPossible st;
     mSampledInputXs := mSampledInputXs st;
     mSampledInputYs := mSampledInputYs st;
     mTimes := mTimes st;
     mInputIndice := mInputIndice st;
     mLengthCache := mLengthCache st;
     mDistanceCache_G := mDistanceCache_G st;
     mNearKeysVector := mNearKeysVector st;
     mSearchKeysVector := mSearchKeysVector st;
     mSpeedRates := mSpeedRates st;
     mBeelineSpeedPercentiles := mBeelineSpeedPercentiles st;
     mCharProbabilities := mCharProbabilities st;
     mDirections := mDirections st;
     mInputProximities := mInputProximities st;
     mNormalizedSquaredDistances := mNormalizedSquaredDistances st;
     mPrimaryInputWord := v;
     mTouchPositionCorrectionEnabled := mTouchPositionCorrectionEnabled st;
     mSampledInputSize := mSampledInputSize st |}.

(** The sampled vectors of a state, as they are handed to the helpers. *)
Definition sampled (st : State) : SampledVectors :=
  {| svXs := mSampledInputXs st;
     svYs := mSampledInputYs st;
     svTimes := mTimes st;
     svLengthCache := mLengthCache st;
     svIndice := mInputIndice st |}.

Definition noSamples : SampledVectors :=
  {| svXs := []; svYs := []; svTimes := []; svLengthCache := []; svIndice := [] |}.

(** [v.pop_back()]: undefined on an empty vector. *)
Definition pop_back {A} (v : list A) : option (list A) :=
  match v with
  | [] => None
  | _ => Some (removelast v)
  end.

(** Modelled from the spec: [ProximityInfoStateUtils::popInputData], which is
    not part of the sources at hand.  "The two most recently sampled points are
    discarded (popped)": one call drops the last entry of each of the five
    parallel vectors. *)
Definition popInputData (sv : SampledVectors) : option SampledVectors :=
  xs ← pop_back (svXs sv);
  ys ← pop_back (svYs sv);
  ts ← pop_back (svTimes sv);
  ls ← pop_back (svLengthCache sv);
  ids ← pop_back (svIndice sv);
  Some {| svXs := xs; svYs := ys; svTimes := ts; svLengthCache := ls; svIndice := ids |}.

Section Model.

Variable D : Defines.
Variable U : Utils.

(** ** Inline members of the class declaration *)

(** Modelled from the spec: [getProximityCodePointsAt], an inline member of
    proximity_info_state.h, which is not part of the sources at hand.  The
    "per-point proximity code-point list (fixed-capacity, primary character
    first ...)" of point [index] is the slice of [mInputProximities] that starts
    at [index * MAX_PROXIMITY_CHARS_SIZE]; [j] is the position inside it. *)
Definition getProximityCodePointsAt (st : State) (index j : Z) : option Z :=
  rd (mInputProximities st) (index * MAX_PROXIMITY_CHARS_SIZE D + j).

(** Modelled from the spec: [getPrimaryCodePointAt], inline in the absent
    header; "the point's primary (first-listed) proximity character". *)
Definition getPrimaryCodePointAt (st : State) (index : Z) : option Z :=
  getProximityCodePointsAt st index 0.

(** Modelled from the spec: [hasInputCoordinates], inline in the absent header;
    the session has sampled coordinates. *)
Definition hasInputCoordinates (st : State) : bool :=
  (0 <? vsize (mSampledInputXs st)) && (0 <? vsize (mSampledInputYs st)).

(** ** checkAndReturnIsContinuationPossible *)

Fixpoint continuationLoop_G (st : State) (inputSize : Z)
    (xCoordinates yCoordinates times : option (list Z)) (idxs : list Z) : option bool :=
  match idxs with
  | [] => Some true
  | i :: rest =>
      index ← rd (mInputIndice st) i;
      if inputSize <? index then Some false else
      x ← rdp xCoordinates index;
      sx ← rd (mSampledInputXs st) i;
      if negb (x =? sx) then Some false else
      y ← rdp yCoordinates index;
      sy ← rd (mSampledInputYs st) i;
      if negb (y =? sy) then Some false else
      t ← rdp times index;
      st_t ← rd (mTimes st) i;
      if negb (t =? st_t) then Some false else
      continuationLoop_G st inputSize xCoordinates yCoordinates times rest
  end.

Fixpoint continuationLoop_T (st : State)
    (xCoordinates yCoordinates : option (list Z)) (idxs : list Z) : option bool :=
  match idxs with
  | [] => Some true
  | i :: rest =>
      x ← rdp xCoordinates i;
      sx ← rd (mSampledInputXs st) i;
      if negb (x =? sx) then Some false else
      y ← rdp yCoordinates i;
      sy ← rd (mSampledInputYs st) i;
      if negb (y =? sy) then Some false else
      continuationLoop_T st xCoordinates yCoordinates rest
  end.

Definition checkAndReturnIsContinuationPossible (st : State) (inputSize : Z)
    (xCoordinates yCoordinates times : option (list Z)) (isGeometric : bool)
    : option bool :=
  if isGeometric then
    continuationLoop_G st inputSize xCoordinates yCoordinates times
      (seqZ 0 (mSampledInputSize st))
  else
    if inputSize <? mSampledInputSize st then Some false
    else
      (* i < mSampledInputSize && i < MAX_WORD_LENGTH *)
      continuationLoop_T st xCoordinates yCoordinates
        (seqZ 0 (Z.min (mSampledInputSize st) (MAX_WORD_LENGTH D))).

(** ** calculateNormalizedSquaredDistance *)

Definition calculateSquaredDistanceFromSweetSpotCenter (st : State)
    (keyIndex inputIndex : Z) : option float :=
  pinfo ← mProximityInfo st;
  let sweetSpotCenterX := getSweetSpotCenterXAt pinfo keyIndex in
  let sweetSpotCenterY := getSweetSpotCenterYAt pinfo keyIndex in
  x ← rd (mSampledInputXs st) inputIndex;
  y ← rd (mSampledInputYs st) inputIndex;
  let inputX := static_cast_float x in
  let inputY := static_cast_float y in
  Some (fadd (square (fsub inputX sweetSpotCenterX))
             (square (fsub inputY sweetSpotCenterY))).

Definition calculateNormalizedSquaredDistance (st : State)
    (keyIndex inputIndex : Z) : option float :=
  if keyIndex =? NOT_AN_INDEX D then Some NOT_A_DISTANCE_FLOAT else
  pinfo ← mProximityInfo st;
  if negb (hasSweetSpotData pinfo keyIndex) then Some NOT_A_DISTANCE_FLOAT else
  x ← rd (mSampledInputXs st) inputIndex;
  if NOT_A_COORDINATE D =? x then Some NOT_A_DISTANCE_FLOAT else
  squaredDistance ← calculateSquaredDistanceFromSweetSpotCenter st keyIndex inputIndex;
  let squaredRadius := square (getSweetSpotRadiiAt pinfo keyIndex) in
  Some (fdiv squaredDistance squaredRadius).

(** ** getDuration *)

Definition getDuration (st : State) (index : Z) : option Z :=
  if (0 <=? index) && (index <? mSampledInputSize st - 1) then
    t1 ← rd (mTimes st) (index + 1);
    t0 ← rd (mTimes st) index;
    Some (int32 (t1 - t0))
  else Some 0.

(** ** getPointToKeyLength *)

Definition getPointToKeyLength (st : State) (inputIndex codePoint : Z)
    (scale : float) : option float :=
  pinfo ← mProximityInfo st;
  let keyId := getKeyIndexOf pinfo codePoint in
  if negb (keyId =? NOT_AN_INDEX D) then
    let index := inputIndex * getKeyCount pinfo + keyId in
    d ← rd (mDistanceCache_G st) index;
    Some (fmin (fmul d scale) (mMaxPointToKeyLength st))
  else if isSkippableCodePoint U codePoint then Some F_0_0
  else
    (* If the char is not a key on the keyboard then return the max length. *)
    Some (static_cast_float (MAX_POINT_TO_KEY_LENGTH D)).

Definition getPointToKeyLength_G (st : State) (inputIndex codePoint : Z) : option float :=
  getPointToKeyLength st inputIndex codePoint F_1_0.

(** ** getMatchedProximityId *)

(** The two [while] loops that search the list of close keys.  [idxs] holds the
    values that [j] can still take below [MAX_PROXIMITY_CHARS_SIZE]; the result
    is the position of the match ([inl]) or the value of [j] at which the loop
    was left ([inr]). *)
Fixpoint searchCloseKeys (st : State) (index c baseLowerC : Z) (j : Z) (idxs : list Z)
    : option (Z + Z) :=
  match idxs with
  | [] => Some (inr j)
  | j' :: rest =>
      cp ← getProximityCodePointsAt st index j';
      if ADDITIONAL_PROXIMITY_CHAR_DELIMITER_CODE D <? cp then
        if (cp =? baseLowerC) || (cp =? c) then Some (inl j')
        else searchCloseKeys st index c baseLowerC (j' + 1) rest
      else Some (inr j')
  end.

(** [proximityIndex] is the content of the variable the last argument points
    to, [None] for a null pointer; the result carries its content on return. *)
Definition getMatchedProximityId (st : State) (index c : Z)
    (checkProximityChars : bool) (proximityIndex : option Z)
    : option (ProximityType * option Z) :=
  firstCodePoint ← getProximityCodePointsAt st index 0;
  let baseLowerC := toBaseLowerCase U c in
  if (firstCodePoint =? baseLowerC) || (firstCodePoint =? c) then
    Some (EQUIVALENT_CHAR, proximityIndex)
  else if negb checkProximityChars then Some (UNRELATED_CHAR, proximityIndex)
  else if toBaseLowerCase U firstCodePoint =? baseLowerC then
    Some (NEAR_PROXIMITY_CHAR, proximityIndex)
  else
    let N := MAX_PROXIMITY_CHARS_SIZE D in
    r ← searchCloseKeys st index c baseLowerC 1 (seqZ 1 (N - 1));
    match r with
    | inl j => Some (NEAR_PROXIMITY_CHAR, (fun _ => j) <$> proximityIndex)
    | inr j =>
        if j <? N then
          cp ← getProximityCodePointsAt st index j;
          if cp =? ADDITIONAL_PROXIMITY_CHAR_DELIMITER_CODE D then
            r2 ← searchCloseKeys st index c baseLowerC (j + 1) (seqZ (j + 1) (N - (j + 1)));
            match r2 with
            | inl j2 => Some (ADDITIONAL_PROXIMITY_CHAR, (fun _ => j2) <$> proximityIndex)
            | inr _ => Some (UNRELATED_CHAR, proximityIndex)
            end
          else Some (UNRELATED_CHAR, proximityIndex)
        else Some (UNRELATED_CHAR, proximityIndex)
    end.

(** ** getAllPossibleChars *)

(** [bitset::test(j)]: throws outside the capacity of the set. *)
Definition test (bits j : Z) : option bool :=
  if (0 <=? j) && (j <? MAX_KEY_COUNT_IN_A_KEYBOARD D) then Some (Z.testbit bits j)
  else None.

(** The linear search through the first [filterSize] entries; [true] when the
    code point is not among them. *)
Fixpoint notInFilter (filter : list Z) (keyCodePoint : Z) (idxs : list Z) : option bool :=
  match idxs with
  | [] => Some true
  | k :: rest =>
      v ← rd filter k;
      if v =? keyCodePoint then Some false
      else notInFilter filter keyCodePoint rest
  end.

(** [index] is a [size_t], hence not negative; [filter] is the array the
    caller passes, with its capacity as length.  The result is the array on
    return and the new filter size. *)
Definition getAllPossibleChars (st : State) (index : Z) (filter : list Z)
    (filterSize : Z) : option (list Z * Z) :=
  if vsize (mSampledInputXs st) <=? index then Some (filter, filterSize) else
  pinfo ← mProximityInfo st;
  let keyCount := getKeyCount pinfo in
  for_range 0 keyCount
    (fun j (acc : list Z * Z) =>
       let '(filter, newFilterSize) := acc in
       bits ← rd (mSearchKeysVector st) index;
       b ← test bits j;
       if (b : bool) then
         let keyCodePoint := getCodePointOf pinfo j in
         insert ← notInFilter filter keyCodePoint (seqZ 0 filterSize);
         if (insert : bool) then
           filter' ← wr filter newFilterSize keyCodePoint;
           Some (filter', newFilterSize + 1)
         else Some (filter, newFilterSize)
       else Some (filter, newFilterSize))
    (filter, filterSize).

(** ** getLineToKeyDistance *)

Definition getLineToKeyDistance (st : State) (from to keyId : Z) (extend : bool)
    : option float :=
  if (from <? 0) || (mSampledInputSize st - 1 <? from) then Some F_0_0 else
  if (to <? 0) || (mSampledInputSize st - 1 <? to) then Some F_0_0 else
  x0 ← rd (mSampledInputXs st) from;
  y0 ← rd (mSampledInputYs st) from;
  x1 ← rd (mSampledInputXs st) to;
  y1 ← rd (mSampledInputYs st) to;
  pinfo ← mProximityInfo st;
  let keyX := getKeyCenterXOfKeyIdG pinfo keyId in
  let keyY := getKeyCenterYOfKeyIdG pinfo keyId in
  Some (pointToLineSegSquaredDistanceFloat U keyX keyY x0 y0 x1 y1 extend).

(** ** getMostProbableString *)

(** The inner loop over one point's distribution: the running minimum and the
    key that holds it. *)
Fixpoint mostProbableKey (entries : CharProbability) (minLogProbability : float)
    (character : Z) : float * Z :=
  match entries with
  | [] => (minLogProbability, character)
  | (first, second) :: rest =>
      let logProbability :=
        if negb (first =? NOT_AN_INDEX D) then fadd second DEMOTION_LOG_PROBABILITY
        else second in
      if flt logProbability minLogProbability
      then mostProbableKey rest logProbability first
      else mostProbableKey rest minLogProbability character
  end.

(** The outer loop; [codePointBuf] is the list of the code points written so
    far, in order, and [index] its length. *)
Fixpoint mostProbableStringLoop (st : State) (idxs : list Z) (codePointBuf : list Z)
    (index : Z) (sumLogProbability : float) : option (list Z * float) :=
  match idxs with
  | [] => Some (codePointBuf, sumLogProbability)
  | i :: rest =>
      if index <? MAX_WORD_LENGTH D - 1 then
        entries ← rd (mCharProbabilities st) i;
        let '(minLogProbability, character) :=
          mostProbableKey entries (static_cast_float (MAX_POINT_TO_KEY_LENGTH D))
            (NOT_AN_INDEX D) in
        if negb (character =? NOT_AN_INDEX D) then
          pinfo ← mProximityInfo st;
          mostProbableStringLoop st rest
            (codePointBuf ++ [getCodePointOf pinfo character]) (index + 1)
            (fadd sumLogProbability minLogProbability)
        else
          mostProbableStringLoop st rest codePointBuf index
            (fadd sumLogProbability minLogProbability)
      else Some (codePointBuf, sumLogProbability)
  end.

(** The result is the content of [codePointBuf] up to and including the
    terminating 0, and the returned sum. *)
Definition getMostProbableString (st : State) : option (list Z * float) :=
  '(codePointBuf, sumLogProbability) ←
    mostProbableStringLoop st (seqZ 0 (mSampledInputSize st)) [] 0 F_0_0;
  Some (codePointBuf ++ [0], sumLogProbability).

(** ** getProbability, isKeyInSerchKeysAfterIndex, hasSpaceProximity, getSpaceY *)

Fixpoint findEntry (entries : CharProbability) (keyIndex : Z) : option float :=
  match entries with
  | [] => None
  | (first, second) :: rest => if first =? keyIndex then Some second else findEntry rest keyIndex
  end.

Definition getProbability (st : State) (index keyIndex : Z) : option float :=
  entries ← rd (mCharProbabilities st) index;
  match findEntry entries keyIndex with
  | Some p => Some p
  | None => Some (static_cast_float (MAX_POINT_TO_KEY_LENGTH D))
  end.

Definition isKeyInSerchKeysAfterIndex (st : State) (index keyId : Z) : option bool :=
  bits ← rd (mSearchKeysVector st) index;
  test bits keyId.

(** [hasSpaceProximity]; the inline members [getInputX] and [getInputY] of the
    class declaration read the sampled coordinates of the point. *)
Definition hasSpaceProximity_at (st : State) (index : Z) : option bool :=
  pinfo ← mProximityInfo st;
  x ← rd (mSampledInputXs st) index;
  y ← rd (mSampledInputYs st) index;
  Some (hasSpaceProximity pinfo x y).

Definition getSpaceY (st : State) : option Z :=
  pinfo ← mProximityInfo st;
  Some (getKeyCenterYOfKeyIdG pinfo (getKeyIndexOf pinfo (KEYCODE_SPACE D))).

(** ** initInputParams *)

(** A vector after the choice between "Just update difference" and "Clear all
    data": kept on the first branch, [clear()]ed on the second. *)
Definition keepIf {A} (b : bool) (v : list A) : list A := if b then v else [].

(** [updateAlignPointProbabilities] is handed [&mNearKeysVector] and
    [&mCharProbabilities], and the search keys are computed from what it
    leaves.  Modelled from the spec: the helper is not part of the sources at
    hand.  "This model is append-only: recomputation for point
    i < lastSavedInputSize never occurs; only the newly appended suffix is
    computed": of the sets [written] that the helper leaves, the vector takes
    those of the points from [start] on; the sets of the points before
    [start] and the number of sets stay as the threshold loop left them. *)
Definition writeNearKeys (start : Z) (nearKeys written : list Z) : list Z :=
  imap (fun i s => if start <=? Z.of_nat i then default s (written !! i) else s) nearKeys.

(** The body of the loop over the keys [k] for the sampled point [i]. *)
Definition nearKeysStep (proximityInfo : ProximityInfo) (sv : SampledVectors)
    (keyCount i k : Z) (acc : list float * list Z) : option (list float * list Z) :=
  let '(distanceCache, nearKeys) := acc in
  let index := i * keyCount + k in
  x ← rd (svXs sv) i;
  y ← rd (svYs sv) i;
  let normalizedSquaredDistance :=
    getNormalizedSquaredDistanceFromCenterFloatG proximityInfo k x y in
  distanceCache' ← wr distanceCache index normalizedSquaredDistance;
  if flt normalizedSquaredDistance NEAR_KEY_NORMALIZED_SQUARED_THRESHOLD then
    bits ← rd nearKeys i;
    if (0 <=? k) && (k <? MAX_KEY_COUNT_IN_A_KEYBOARD D) then
      nearKeys' ← wr nearKeys i (Z.setbit bits k);
      Some (distanceCache', nearKeys')
    else None
  else Some (distanceCache', nearKeys).

(** The body of the loop over the new points [i]. *)
Definition nearKeysOfPoint (proximityInfo : ProximityInfo) (sv : SampledVectors)
    (keyCount i : Z) (acc : list float * list Z * list Z)
    : option (list float * list Z * list Z) :=
  let '(distanceCache, nearKeys, searchKeys) := acc in
  nearKeys0 ← wr nearKeys i 0;
  searchKeys0 ← wr searchKeys i 0;
  '(distanceCache', nearKeys') ←
    for_range 0 keyCount (nearKeysStep proximityInfo sv keyCount i)
      (distanceCache, nearKeys0);
  Some (distanceCache', nearKeys', searchKeys0).

(** The loop over [j] that collects the near keys ahead of point [i], left by
    [break] once the path is longer than [readForwordLength]. *)
Fixpoint searchKeysStep (lengthCache nearKeys : list Z) (readForwordLength i : Z)
    (idxs : list Z) (searchKeys : list Z) : option (list Z) :=
  match idxs with
  | [] => Some searchKeys
  | j :: rest =>
      lj ← rd lengthCache j;
      li ← rd lengthCache i;
      if readForwordLength <=? int32 (lj - li) then Some searchKeys
      else
        s ← rd searchKeys i;
        n ← rd nearKeys j;
        searchKeys' ← wr searchKeys i (Z.lor s n);
        searchKeysStep lengthCache nearKeys readForwordLength i rest searchKeys'
  end.

Definition searchKeysOfPoint (lengthCache nearKeys : list Z)
    (readForwordLength lastSavedInputSize sampledInputSize i : Z)
    (searchKeys : list Z) : option (list Z) :=
  searchKeys0 ← (if lastSavedInputSize <=? i then wr searchKeys i 0 else Some searchKeys);
  let j0 := Z.max i lastSavedInputSize in
  searchKeysStep lengthCache nearKeys readForwordLength i
    (seqZ j0 (sampledInputSize - j0)) searchKeys0.

(** [mPrimaryInputWord[i] = getPrimaryCodePointAt(i)]. *)
Definition primaryInputWordStep (i : Z) (st : State) : option State :=
  c ← getPrimaryCodePointAt st i;
  w ← wr (mPrimaryInputWord st) i c;
  Some (set_mPrimaryInputWord st w).

(** The loop over the proximity characters [j] of the point [i], which ends at
    the first code point that is not positive. *)
Fixpoint normalizedSquaredDistancesStep (st : State) (i : Z) (idxs : list Z)
    : option State :=
  match idxs with
  | [] => Some st
  | j :: rest =>
      currentCodePoint ← getProximityCodePointsAt st i j;
      if 0 <? currentCodePoint then
        pinfo ← mProximityInfo st;
        squaredDistance ←
          (if hasInputCoordinates st
           then calculateNormalizedSquaredDistance st (getKeyIndexOf pinfo currentCodePoint) i
           else Some NOT_A_DISTANCE_FLOAT);
        v ← (if fle F_0_0 squaredDistance
             then static_cast_int
                    (fmul squaredDistance
                       (static_cast_float NORMALIZED_SQUARED_DISTANCE_SCALING_FACTOR))
             else Some (if j =? 0 then EQUIVALENT_CHAR_WITHOUT_DISTANCE_INFO D
                        else PROXIMITY_CHAR_WITHOUT_DISTANCE_INFO D));
        a ← wr (mNormalizedSquaredDistances st) (i * MAX_PROXIMITY_CHARS_SIZE D + j) v;
        normalizedSquaredDistancesStep (set_mNormalizedSquaredDistances st a) i rest
      else Some st
  end.

Definition normalizedSquaredDistancesOfPoint (xCoordinates yCoordinates : option (list Z))
    (i : Z) (st : State) : option State :=
  primaryKey ← getProximityCodePointsAt st i 0;
  x ← rdp xCoordinates i;
  y ← rdp yCoordinates i;
  normalizedSquaredDistancesStep st i (seqZ 0 (MAX_PROXIMITY_CHARS_SIZE D)).

(** The last part of [initInputParams], after the two [memset]s: the primary
    input word and the distances of the proximity characters, in tap mode. *)
Definition primaryInputWordAndDistances (st : State) (pointerId inputSize : Z)
    (xCoordinates yCoordinates : option (list Z)) (isGeometric : bool) : option State :=
  if negb isGeometric && (pointerId =? 0) then
    st' ← for_range 0 inputSize primaryInputWordStep st;
    (* i < mSampledInputSize && mTouchPositionCorrectionEnabled *)
    if mTouchPositionCorrectionEnabled st' then
      for_range 0 (mSampledInputSize st')
        (normalizedSquaredDistancesOfPoint xCoordinates yCoordinates) st'
    else Some st'
  else Some st.

Definition initInputParams (st : State) (pointerId : Z) (maxPointToKeyLength : float)
    (proximityInfo : ProximityInfo) (inputCodes : option (list Z)) (inputSize : Z)
    (xCoordinates yCoordinates times pointerIds : option (list Z))
    (isGeometric : bool) : option State :=
  isContinuationPossible ←
    checkAndReturnIsContinuationPossible st inputSize xCoordinates yCoordinates times
      isGeometric;
  let zeroed := memset (mInputProximities st) 0 in
  inputProximities ←
    (if negb isGeometric && (pointerId =? 0)
     then initializeProximities proximityInfo inputCodes xCoordinates yCoordinates
            inputSize zeroed
     else Some zeroed);
  (* Setup touch points *)
  let update := isContinuationPossible && (1 <? vsize (mInputIndice st)) in
  pushTouchPointStartIndex ←
    (if update then rd (mInputIndice st) (vsize (mInputIndice st) - 2) else Some 0);
  sv0 ← (if update then sv ← popInputData (sampled st); popInputData sv
         else Some noSamples);
  let lastSavedInputSize := if update then vsize (svXs sv0) else 0 in
  '(sampledInputSize, sv) ←
    match xCoordinates, yCoordinates with
    | Some xs, Some ys =>
        updateTouchPoints U (getMostCommonKeyWidth proximityInfo) proximityInfo
          maxPointToKeyLength inputProximities xs ys times pointerIds inputSize
          isGeometric pointerId pushTouchPointStartIndex sv0
    | _, _ => Some (0, sv0)
    end;
  '(averageSpeed, speedRates, directions, beelineSpeedPercentiles) ←
    (if (0 <? sampledInputSize) && isGeometric then
       '(averageSpeed, speedRates, directions) ←
         refreshSpeedRates U inputSize xCoordinates yCoordinates times
           lastSavedInputSize sampledInputSize sv
           (keepIf update (mSpeedRates st)) (keepIf update (mDirections st));
       beelineSpeedPercentiles ←
         refreshBeelineSpeedRates U (getMostCommonKeyWidth proximityInfo) averageSpeed
           inputSize xCoordinates yCoordinates times sampledInputSize
           (svXs sv) (svYs sv) (svIndice sv)
           (keepIf update (mBeelineSpeedPercentiles st));
       Some (averageSpeed, speedRates, directions, beelineSpeedPercentiles)
     else
       Some (mAverageSpeed st, keepIf update (mSpeedRates st),
             keepIf update (mDirections st),
             keepIf update (mBeelineSpeedPercentiles st)));
  '(distanceCache, nearKeys, searchKeys, charProbabilities) ←
    (if 0 <? sampledInputSize then
       let keyCount := getKeyCount proximityInfo in
       (* resize() to a negative size *)
       if sampledInputSize * keyCount <? 0 then None else
       let nearKeys0 :=
         resize (Z.to_nat sampledInputSize) 0 (keepIf update (mNearKeysVector st)) in
       let searchKeys0 :=
         resize (Z.to_nat sampledInputSize) 0 (keepIf update (mSearchKeysVector st)) in
       let distanceCache0 :=
         resize (Z.to_nat (sampledInputSize * keyCount)) F_0_0
           (keepIf update (mDistanceCache_G st)) in
       '(distanceCache, nearKeys, searchKeys) ←
         for_range lastSavedInputSize sampledInputSize
           (nearKeysOfPoint proximityInfo sv keyCount)
           (distanceCache0, nearKeys0, searchKeys0);
       if isGeometric then
         '(written, charProbabilities) ←
           updateAlignPointProbabilities U maxPointToKeyLength
             (getMostCommonKeyWidth proximityInfo) keyCount lastSavedInputSize
             sampledInputSize (svXs sv) (svYs sv) speedRates (svLengthCache sv)
             distanceCache nearKeys (keepIf update (mCharProbabilities st));
         let nearKeys := writeNearKeys lastSavedInputSize nearKeys written in
         readForwordLength ←
           static_cast_int
             (fmul (hypotf U (static_cast_float (getKeyboardWidth proximityInfo))
                             (static_cast_float (getKeyboardHeight proximityInfo)))
                   READ_FORWORD_LENGTH_SCALE);
         searchKeys' ←
           for_range 0 sampledInputSize
             (searchKeysOfPoint (svLengthCache sv) nearKeys readForwordLength
                lastSavedInputSize sampledInputSize)
             searchKeys;
         Some (distanceCache, nearKeys, searchKeys', charProbabilities)
       else
         Some (distanceCache, nearKeys, searchKeys,
               keepIf update (mCharProbabilities st))
     else
       Some (keepIf update (mDistanceCache_G st), keepIf update (mNearKeysVector st),
             keepIf update (mSearchKeysVector st),
             keepIf update (mCharProbabilities st)));
  let hasCoordinates :=
    match xCoordinates, yCoordinates with Some _, Some _ => true | _, _ => false end in
  let st1 :=
    {| mProximityInfo := Some proximityInfo;
       mMaxPointToKeyLength := maxPointToKeyLength;
       mAverageSpeed := averageSpeed;
       mHasTouchPositionCorrectionData := hasTouchPositionCorrectionData proximityInfo;
       mMostCommonKeyWidthSquare := getMostCommonKeyWidthSquare proximityInfo;
       mKeyCount := getKeyCount proximityInfo;
       mCellHeight := getCellHeight proximityInfo;
       mCellWidth := getCellWidth proximityInfo;
       mGridHeight := getGridWidth proximityInfo;
       mGridWidth := getGridHeight proximityInfo;
       mIsContinuationPossible := isContinuationPossible;
       mSampledInputXs := svXs sv;
       mSampledInputYs := svYs sv;
       mTimes := svTimes sv;
       mInputIndice := svIndice sv;
       mLengthCache := svLengthCache sv;
       mDistanceCache_G := distanceCache;
       mNearKeysVector := nearKeys;
       mSearchKeysVector := searchKeys;
       mSpeedRates := speedRates;
       mBeelineSpeedPercentiles := beelineSpeedPercentiles;
       mCharProbabilities := charProbabilities;
       mDirections := directions;
       mInputProximities := inputProximities;
       mNormalizedSquaredDistances :=
         memset (mNormalizedSquaredDistances st) (NOT_A_DISTANCE D);
       mPrimaryInputWord := memset (mPrimaryInputWord st) 0;
       mTouchPositionCorrectionEnabled :=
         (0 <? sampledInputSize) && hasTouchPositionCorrectionData proximityInfo
         && hasCoordinates;
       mSampledInputSize := sampledInputSize |} in
  primaryInputWordAndDistances st1 pointerId inputSize xCoordinates yCoordinates
    isGeometric.

(** Modelled from the spec: the constructor of the class, in the absent
    header.  "A session is created on first touch-down": no geometry provider
    yet, no sampled point, every buffer empty and the fixed arrays zeroed. *)
Definition fresh : State :=
  {| mProximityInfo := None;
     mMaxPointToKeyLength := F_0_0;
     mAverageSpeed := F_0_0;
     mHasTouchPositionCorrectionData := false;
     mMostCommonKeyWidthSquare := 0;
     mKeyCount := 0;
     mCellHeight := 0;
     mCellWidth := 0;
     mGridHeight := 0;
     mGridWidth := 0;
     mIsContinuationPossible := false;
     mSampledInputXs := [];
     mSampledInputYs := [];
     mTimes := [];
     mInputIndice := [];
     mLengthCache := [];
     mDistanceCache_G := [];
     mNearKeysVector := [];
     mSearchKeysVector := [];
     mSpeedRates := [];
     mBeelineSpeedPercentiles := [];
     mCharProbabilities := [];
     mDirections := [];
     mInputProximities :=
       replicate (Z.to_nat (MAX_PROXIMITY_CHARS_SIZE D * MAX_WORD_LENGTH D)) 0;
     mNormalizedSquaredDistances :=
       replicate (Z.to_nat (MAX_PROXIMITY_CHARS_SIZE D * MAX_WORD_LENGTH D)) 0;
     mPrimaryInputWord := replicate (Z.to_nat (MAX_WORD_LENGTH D)) 0;
     mTouchPositionCorrectionEnabled := false;
     mSampledInputSize := 0 |}.

End Model.

(** ** One session, several calls *)

(** The arguments of one call of [initInputParams], the geometry provider
    apart. *)
Record InitArgs := {
  argPointerId : Z;
  argMaxPointToKeyLength : float;
  argInputCodes : option (list Z);
  argInputSize : Z;
  argXCoordinates : option (list Z);
  argYCoordinates : option (list Z);
  argTimes : option (list Z);
  argPointerIds : option (list Z);
  argIsGeometric : bool
}.

Definition init (D : Defines) (U : Utils) (proximityInfo : ProximityInfo)
    (st : State) (a : InitArgs) : option State :=
  initInputParams D U st (argPointerId a) (argMaxPointToKeyLength a) proximityInfo
    (argInputCodes a) (argInputSize a) (argXCoordinates a) (argYCoordinates a)
    (argTimes a) (argPointerIds a) (argIsGeometric a).

(** The calls that a session sees, each with the geometry provider it is
    given. *)
Fixpoint session (D : Defines) (U : Utils) (calls : list (ProximityInfo * InitArgs))
    (st : State) : option State :=
  match calls with
  | [] => Some st
  | (proximityInfo, a) :: rest =>
      st' ← init D U proximityInfo st a; session D U rest st'
  end.

(** Calls that all come with the geometry provider [proximityInfo]. *)
Definition onKeyboard (proximityInfo : ProximityInfo) (calls : list InitArgs)
    : list (ProximityInfo * InitArgs) :=
  (fun a => (proximityInfo, a)) <$> calls.

(** ** A small keyboard for the worked examples

    The examples below run the functions on a keyboard with one row of three
    keys, with the values the constants have in defines.h of the Android Open
    Source Project, and with simple stand-ins for the helpers. *)
Module Example.

Definition defines : Defines :=
  {| MAX_WORD_LENGTH := 48;
     MAX_PROXIMITY_CHARS_SIZE := 16;
     MAX_KEY_COUNT_IN_A_KEYBOARD := 64;
     MAX_POINT_TO_KEY_LENGTH := 10000000;
     NOT_AN_INDEX := -1;
     NOT_A_COORDINATE := -1;
     NOT_A_DISTANCE := -1;
     ADDITIONAL_PROXIMITY_CHAR_DELIMITER_CODE := 2;
     EQUIVALENT_CHAR_WITHOUT_DISTANCE_INFO := -2;
     PROXIMITY_CHAR_WITHOUT_DISTANCE_INFO := -3;
     KEYCODE_SPACE := 32 |}.

(** Keys 'a', 's', 'd' (97, 115, 100), 20 wide, centred at x = 10, 30, 50 and
    y = 10. *)
Definition keyCenterX (k : Z) : Z := 10 + 20 * k.
Definition keyCenterY (k : Z) : Z := 10.

Definition keyIndexOf (codePoint : Z) : Z :=
  if codePoint =? 97 then 0
  else if codePoint =? 115 then 1
  else if codePoint =? 100 then 2
  else -1.

Definition codePointOf (k : Z) : Z :=
  if k =? 0 then 97 else if k =? 1 then 115 else if k =? 2 then 100 else NOT_A_CODE.

(** Squared distance to the centre of the key over the squared key width. *)
Definition normalizedSquaredDistance (k x y : Z) : float :=
  fdiv (static_cast_float ((x - keyCenterX k) * (x - keyCenterX k)
                           + (y - keyCenterY k) * (y - keyCenterY k)))
       (static_cast_float 400).

(** The primary code point of each typed character goes to the head of its
    slot. *)
Definition writePrimaryCodes (inputCodes : option (list Z)) (inputSize : Z)
    (proximities : list Z) : option (list Z) :=
  for_range 0 inputSize
    (fun i a => c ← rdp inputCodes i; wr a (i * 16) c) proximities.

Definition keyboard (keyCount : Z) (codePoint : Z -> Z) : ProximityInfo :=
  {| hasTouchPositionCorrectionData := false;
     getMostCommonKeyWidthSquare := 400;
     getMostCommonKeyWidth := 20;
     getKeyCount := keyCount;
     getCellHeight := 20;
     getCellWidth := 20;
     getGridWidth := 3;
     getGridHeight := 1;
     getKeyboardWidth := 60;
     getKeyboardHeight := 20;
     initializeProximities := fun inputCodes _ _ inputSize proximities =>
       writePrimaryCodes inputCodes inputSize proximities;
     getNormalizedSquaredDistanceFromCenterFloatG := normalizedSquaredDistance;
     getKeyIndexOf := keyIndexOf;
     getCodePointOf := codePoint;
     hasSweetSpotData := fun _ => false;
     getSweetSpotRadiiAt := fun _ => F_1_0;
     getSweetSpotCenterXAt := fun k => static_cast_float (keyCenterX k);
     getSweetSpotCenterYAt := fun k => static_cast_float (keyCenterY k);
     getKeyCenterXOfKeyIdG := keyCenterX;
     getKeyCenterYOfKeyIdG := keyCenterY;
     hasSpaceProximity := fun _ _ => false |}.

Definition asd : ProximityInfo := keyboard 3 codePointOf.

(** A sampler that takes every point of the stream from
    [pushTouchPointStartIndex] on, with the path length measured along the
    axes. *)
Definition pushTouchPoint (xs ys : list Z) (times : option (list Z)) (i : Z)
    (sv : SampledVectors) : option SampledVectors :=
  x ← rd xs i;
  y ← rd ys i;
  let t := default (-1) (rdp times i) in
  let len :=
    match rd (svXs sv) (vsize (svXs sv) - 1), rd (svYs sv) (vsize (svYs sv) - 1),
          rd (svLengthCache sv) (vsize (svLengthCache sv) - 1) with
    | Some px, Some py, Some pl => pl + Z.abs (x - px) + Z.abs (y - py)
    | _, _, _ => 0
    end in
  Some {| svXs := svXs sv ++ [x];
          svYs := svYs sv ++ [y];
          svTimes := svTimes sv ++ [t];
          svLengthCache := svLengthCache sv ++ [len];
          svIndice := svIndice sv ++ [i] |}.

Definition everyPoint (xs ys : list Z) (times : option (list Z)) (inputSize start : Z)
    (sv : SampledVectors) : option (Z * SampledVectors) :=
  sv' ← for_range start inputSize (pushTouchPoint xs ys times) sv;
  Some (vsize (svXs sv'), sv').

(** Every near key of a new point with its distance, and the skip entry. *)
Definition nearKeyEntries (keyCount : Z) (distanceCache : list float) (bits i : Z)
    : CharProbability :=
  (NOT_AN_INDEX defines, F_1_0) ::
  omap (fun k => if Z.testbit bits k
                 then d ← rd distanceCache (i * keyCount + k); Some (k, d)
                 else None)
       (seqZ 0 keyCount).

Definition alignPoints (keyCount start sampledInputSize : Z) (distanceCache : list float)
    (nearKeys : list Z) (charProbabilities : list CharProbability)
    : option (list CharProbability) :=
  for_range start sampledInputSize
    (fun i cp => bits ← rd nearKeys i;
                 wr cp i (nearKeyEntries keyCount distanceCache bits i))
    (resize (Z.to_nat sampledInputSize) [] charProbabilities).

(** Modelled from the spec: [toBaseLowerCase] of char_utils.h, which is not
    part of the sources at hand, on the ASCII letters: "the case/accent-
    normalized form of c" of an upper-case letter is the lower-case letter. *)
Definition baseLowerCase (c : Z) : Z :=
  if (65 <=? c) && (c <=? 90) then c + 32 else c.

(** The apostrophe and the hyphen. *)
Definition skippable (c : Z) : bool := (c =? 39) || (c =? 45).

Definition utils : Utils :=
  {| updateTouchPoints := fun _ _ _ _ xs ys times _ inputSize _ _ start sv =>
       everyPoint xs ys times inputSize start sv;
     refreshSpeedRates := fun _ _ _ _ _ n _ speedRates directions =>
       Some (F_1_0, resize (Z.to_nat n) F_1_0 speedRates,
             resize (Z.to_nat n) F_0_0 directions);
     refreshBeelineSpeedRates := fun _ _ _ _ _ _ n _ _ _ percentiles =>
       Some (resize (Z.to_nat n) 0 percentiles);
     updateAlignPointProbabilities :=
       fun _ _ keyCount start n _ _ _ _ distanceCache nearKeys charProbabilities =>
         charProbabilities' ←
           alignPoints keyCount start n distanceCache nearKeys charProbabilities;
         Some (nearKeys, charProbabilities');
     pointToLineSegSquaredDistanceFloat := fun _ _ _ _ _ _ _ => F_1_0;
     toBaseLowerCase := baseLowerCase;
     isSkippableCodePoint := skippable;
     hypotf := fun x y => SFsqrt 24 128 (fadd (square x) (square y)) |}.

(** The helpers [utils] with an alignment helper that empties the near-key
    sets it is handed. *)
Definition pruning : Utils :=
  {| updateTouchPoints := updateTouchPoints utils;
     refreshSpeedRates := refreshSpeedRates utils;
     refreshBeelineSpeedRates := refreshBeelineSpeedRates utils;
     updateAlignPointProbabilities :=
       fun _ _ keyCount start n _ _ _ _ distanceCache nearKeys charProbabilities =>
         charProbabilities' ←
           alignPoints keyCount start n distanceCache nearKeys charProbabilities;
         Some ((fun _ => 0) <$> nearKeys, charProbabilities');
     pointToLineSegSquaredDistanceFloat := pointToLineSegSquaredDistanceFloat utils;
     toBaseLowerCase := toBaseLowerCase utils;
     isSkippableCodePoint := isSkippableCodePoint utils;
     hypotf := hypotf utils |}.

(** A gesture over 's' and 'd', and the same gesture continued to 'a'. *)
Definition gesture (xs ys ts : list Z) : InitArgs :=
  {| argPointerId := 0;
     argMaxPointToKeyLength := static_cast_float 10;
     argInputCodes := None;
     argInputSize := vsize xs;
     argXCoordinates := Some xs;
     argYCoordinates := Some ys;
     argTimes := Some ts;
     argPointerIds := None;
     argIsGeometric := true |}.

Definition strokeA : InitArgs := gesture [30; 40; 50] [10; 10; 10] [0; 15; 40].
Definition strokeA' : InitArgs :=
  gesture [30; 40; 50; 30; 10] [10; 10; 10; 12; 10] [0; 15; 40; 60; 80].
Definition strokeB : InitArgs := gesture [10; 30] [10; 10] [0; 20].

(** Three taps, on 'd', 'a' and 's'. *)
Definition taps (codes xs ys : list Z) : InitArgs :=
  {| argPointerId := 0;
     argMaxPointToKeyLength := static_cast_float 10;
     argInputCodes := Some codes;
     argInputSize := vsize xs;
     argXCoordinates := Some xs;
     argYCoordinates := Some ys;
     argTimes := None;
     argPointerIds := None;
     argIsGeometric := false |}.

Definition tapsDas : InitArgs := taps [100; 97; 115] [50; 10; 30] [10; 10; 10].

(** A state given field by field: the geometry provider, the sampled points,
    the caches and the proximity lists. *)
Definition mkState (proximityInfo : ProximityInfo) (maxPointToKeyLength : float)
    (sv : SampledVectors) (distanceCache : list float) (nearKeys searchKeys : list Z)
    (charProbabilities : list CharProbability) (proximities : list Z) : State :=
  {| mProximityInfo := Some proximityInfo;
     mMaxPointToKeyLength := maxPointToKeyLength;
     mAverageSpeed := F_1_0;
     mHasTouchPositionCorrectionData := hasTouchPositionCorrectionData proximityInfo;
     mMostCommonKeyWidthSquare := getMostCommonKeyWidthSquare proximityInfo;
     mKeyCount := getKeyCount proximityInfo;
     mCellHeight := getCellHeight proximityInfo;
     mCellWidth := getCellWidth proximityInfo;
     mGridHeight := getGridWidth proximityInfo;
     mGridWidth := getGridHeight proximityInfo;
     mIsContinuationPossible := true;
     mSampledInputXs := svXs sv;
     mSampledInputYs := svYs sv;
     mTimes := svTimes sv;
     mInputIndice := svIndice sv;
     mLengthCache := svLengthCache sv;
     mDistanceCache_G := distanceCache;
     mNearKeysVector := nearKeys;
     mSearchKeysVector := searchKeys;
     mSpeedRates := [];
     mBeelineSpeedPercentiles := [];
     mCharProbabilities := charProbabilities;
     mDirections := [];
     mInputProximities := resize 768 0 proximities;
     mNormalizedSquaredDistances := replicate 768 (-1);
     mPrimaryInputWord := replicate 48 0;
     mTouchPositionCorrectionEnabled := false;
     mSampledInputSize := vsize (svXs sv) |}.

(** The state a list of calls leaves a new session in. *)
Definition after (calls : list InitArgs) : State :=
  default (fresh defines) (session defines utils (onKeyboard asd calls) (fresh defines)).

(** One tap on 'a', with 's' and 'd' as close keys and 'q' (113) as additional
    proximity character. *)
Definition tapOnA : State :=
  mkState asd (static_cast_float 10)
    {| svXs := [10]; svYs := [10]; svTimes := [0]; svLengthCache := [0];
       svIndice := [0] |}
    [F_0_0; F_1_0; F_4_0] [3] [0] [] [97; 115; 100; 2; 113].





(** A keyboard with a shift key (code point -1) at each end of the row. *)
Definition shiftCodePointOf (k : Z) : Z := if k =? 1 then 97 else -1.
Definition twoShifts : ProximityInfo := keyboard 3 shiftCodePointOf.

(** One sampled point in the middle of the row of [twoShifts], with the three
    keys as near keys and search keys. *)
Definition betweenShifts : State :=
  mkState twoShifts (static_cast_float 10)
    {| svXs := [30]; svYs := [10]; svTimes := [0]; svLengthCache := [0];
       svIndice := [0] |}
    [F_1_0; F_0_0; F_1_0] [7] [7] [] [].

(** The same point on the keyboard [asd]. *)
Definition onS : State :=
  mkState asd (static_cast_float 10)
    {| svXs := [30]; svYs := [10]; svTimes := [0]; svLengthCache := [0];
       svIndice := [0] |}
    [F_1_0; F_0_0; F_1_0] [7] [7] [] [].


(** The keyboard [asd] with touch position correction data: each key has a
    sweet spot of radius 10 at its centre. *)
Definition asdCorrected : ProximityInfo :=
  {| hasTouchPositionCorrectionData := true;
     getMostCommonKeyWidthSquare := 400;
     getMostCommonKeyWidth := 20;
     getKeyCount := 3;
     getCellHeight := 20;
     getCellWidth := 20;
     getGridWidth := 3;
     getGridHeight := 1;
     getKeyboardWidth := 60;
     getKeyboardHeight := 20;
     initializeProximities := fun inputCodes _ _ inputSize proximities =>
       writePrimaryCodes inputCodes inputSize proximities;
     getNormalizedSquaredDistanceFromCenterFloatG := normalizedSquaredDistance;
     getKeyIndexOf := keyIndexOf;
     getCodePointOf := codePointOf;
     hasSweetSpotData := fun k => (0 <=? k) && (k <? 3);
     getSweetSpotRadiiAt := fun _ => static_cast_float 10;
     getSweetSpotCenterXAt := fun k => static_cast_float (keyCenterX k);
     getSweetSpotCenterYAt := fun k => static_cast_float (keyCenterY k);
     getKeyCenterXOfKeyIdG := keyCenterX;
     getKeyCenterYOfKeyIdG := keyCenterY;
     hasSpaceProximity := fun _ _ => false |}.

(** Three taps a little off the centres of 'd', 'a' and 's'. *)
Definition tapsOff : InitArgs := taps [100; 97; 115] [52; 10; 30] [10; 13; 10].

(** A gesture call of two points that comes without coordinates. *)
Definition noCoordinates : InitArgs :=
  {| argPointerId := 0;
     argMaxPointToKeyLength := static_cast_float 10;
     argInputCodes := None;
     argInputSize := 2;
     argXCoordinates := None;
     argYCoordinates := None;
     argTimes := Some [0; 20];
     argPointerIds := None;
     argIsGeometric := true |}.

(** The state a list of calls leaves a new session in, on the keyboard
    [proximityInfo]. *)
Definition afterOn (proximityInfo : ProximityInfo) (calls : list InitArgs) : State :=
  default (fresh defines)
    (session defines utils (onKeyboard proximityInfo calls) (fresh defines)).


(** The keyboard [asd] without its last key. *)
Definition asOnly : ProximityInfo := keyboard 2 codePointOf.

(** Four taps, on 'a', 'a', 's' and 'd', and the same taps followed by one
    on 's'. *)
Definition tapsAasd : InitArgs :=
  taps [97; 97; 115; 100] [10; 10; 30; 50] [10; 10; 10; 10].
Definition tapsAasds : InitArgs :=
  taps [97; 97; 115; 100; 115] [10; 10; 30; 50; 30] [10; 10; 10; 10; 10].

(** The state that calls leave a new session in, each call with its own
    keyboard. *)
Definition afterCalls (calls : list (ProximityInfo * InitArgs)) : State :=
  default (fresh defines) (session defines utils calls (fresh defines)).

End Example.
(** * Statements *)

Section Statements.

Variable D : Defines.
Variable U : Utils.

(** The test [matched] of [getMatchedProximityId]: the listed code point is
    the target or its case/accent-normalized form. *)
Definition matched (codePoint target : Z) : Prop :=
  codePoint = toBaseLowerCase U target \/ codePoint = target.

(** The proximity list of the point [index] is [l], followed up to the
    capacity of the slot by entries that are not code points (the zeroes that
    [memset] left). *)
Definition proximityListIs (st : State) (index : Z) (l : list Z) : Prop :=
  (forall j x, l !! j = Some x ->
     getProximityCodePointsAt D st index (Z.of_nat j) = Some x) /\
  (forall j, Z.of_nat (length l) <= j < MAX_PROXIMITY_CHARS_SIZE D ->
     exists v, getProximityCodePointsAt D st index j = Some v /\
               v <= ADDITIONAL_PROXIMITY_CHAR_DELIMITER_CODE D).

(** The search keys of a point, given as the bit set [bits], carry pairwise
    different code points. *)
Definition distinctCodePoints (pinfo : ProximityInfo) (bits : Z) : Prop :=
  forall j1 j2, 0 <= j1 < getKeyCount pinfo -> 0 <= j2 < getKeyCount pinfo ->
    Z.testbit bits j1 = true -> Z.testbit bits j2 = true ->
    getCodePointOf pinfo j1 = getCodePointOf pinfo j2 -> j1 = j2.





(** A state without the two members that no query of the class reads: the
    verdict [mIsContinuationPossible] of the call itself, and [mAverageSpeed],
    which only the refresh of the speed rates in [initInputParams] reads,
    right after it has written it. *)
Definition forget (st : State) : State :=
  {| mProximityInfo := mProximityInfo st;
     mMaxPointToKeyLength := mMaxPointToKeyLength st;
     mAverageSpeed := F_0_0;
     mHasTouchPositionCorrectionData := mHasTouchPositionCorrectionData st;
     mMostCommonKeyWidthSquare := mMostCommonKeyWidthSquare st;
     mKeyCount := mKeyCount st;
     mCellHeight := mCellHeight st;
     mCellWidth := mCellWidth st;
     mGridHeight := mGridHeight st;
     mGridWidth := mGridWidth st;
     mIsContinuationPossible := false;
     mSampledInputXs := mSampledInputXs st;
     mSampledInputYs := mSampledInputYs st;
     mTimes := mTimes st;
     mInputIndice := mInputIndice st;
     mLengthCache := mLengthCache st;
     mDistanceCache_G := mDistanceCache_G st;
     mNearKeysVector := mNearKeysVector st;
     mSearchKeysVector := mSearchKeysVector st;
     mSpeedRates := mSpeedRates st;
     mBeelineSpeedPercentiles := mBeelineSpeedPercentiles st;
     mCharProbabilities := mCharProbabilities st;
     mDirections := mDirections st;
     mInputProximities := mInputProximities st;
     mNormalizedSquaredDistances := mNormalizedSquaredDistances st;
     mPrimaryInputWord := mPrimaryInputWord st;
     mTouchPositionCorrectionEnabled := mTouchPositionCorrectionEnabled st;
     mSampledInputSize := mSampledInputSize st |}.

(** Two states with the same buffers and the same members, the verdict
    [mIsContinuationPossible] and [mAverageSpeed] apart. *)
Definition sameButVerdictAndSpeed (st1 st2 : State) : Prop := forget st1 = forget st2.

(** Two states that no observation tells apart: every buffer and every
    member of the one is that of the other. *)
Definition observablyIdentical (st1 st2 : State) : Prop := st1 = st2.

(** Both calls end in undefined behaviour, or both return, with results that
    [R] relates. *)
Definition bothOrNeither {A} (R : A -> A -> Prop) (o1 o2 : option A) : Prop :=
  match o1, o2 with
  | Some a1, Some a2 => R a1 a2
  | None, None => True
  | _, _ => False
  end.

(** The three arrays of fixed size have the size of their declaration. *)
Definition arraysAsDeclared (st : State) : Prop :=
  length (mInputProximities st) = length (mInputProximities (fresh D)) /\
  length (mNormalizedSquaredDistances st) = length (mNormalizedSquaredDistances (fresh D)) /\
  length (mPrimaryInputWord st) = length (mPrimaryInputWord (fresh D)).


(** What the specification asks of the sampler, which it treats as a black
    box "returning the updated sample count": the count it returns is the
    number of points in the vectors it leaves. *)
Definition returnsSampleCount : Prop :=
  forall mostCommonKeyWidth proximityInfo maxPointToKeyLength inputProximities
         xs ys times pointerIds inputSize isGeometric pointerId start sv n sv',
    updateTouchPoints U mostCommonKeyWidth proximityInfo maxPointToKeyLength
      inputProximities xs ys times pointerIds inputSize isGeometric pointerId start sv
      = Some (n, sv') ->
    n = vsize (svXs sv').

(** The alignment helper leaves the near-key sets as it received them. *)
Definition keepsNearKeys : Prop :=
  forall maxPointToKeyLength mostCommonKeyWidth keyCount start sampledInputSize xs ys
         speedRates lengthCache distanceCache nearKeys charProbabilities written
         charProbabilities',
    updateAlignPointProbabilities U maxPointToKeyLength mostCommonKeyWidth keyCount start
      sampledInputSize xs ys speedRates lengthCache distanceCache nearKeys
      charProbabilities
      = Some (written, charProbabilities') ->
    written = nearKeys.

(** For each of the first [n] sampled points and each of the [keyCount] keys,
    the key is in the near-key set of the point exactly when the cached
    distance from the point to the key is below the threshold 4.0. *)
Definition nearKeysAgree (keyCount n : Z) (st : State) : Prop :=
  forall i k, 0 <= i < n -> 0 <= k < keyCount ->
    exists bits d,
      rd (mNearKeysVector st) i = Some bits /\
      rd (mDistanceCache_G st) (i * keyCount + k) = Some d /\
      Z.testbit bits k = flt d NEAR_KEY_NORMALIZED_SQUARED_THRESHOLD.


(** The invariant of a session for the near keys: they agree with the
    distance cache on every point the sampled vectors hold, and
    [mSampledInputSize] counts no more points than the vectors hold. *)
Definition nearKeysInvariant (keyCount : Z) (st : State) : Prop :=
  nearKeysAgree keyCount (vsize (mSampledInputXs st)) st /\
  mSampledInputSize st <= vsize (mSampledInputXs st).


(** The members that the near-key invariant reads. *)
Definition nearKeysView (st : State) : list Z * list float * list Z * Z :=
  (mNearKeysVector st, mDistanceCache_G st, mSampledInputXs st, mSampledInputSize st).

(** A state without the two arrays that the last part of [initInputParams]
    fills: what that part leaves alone. *)
Definition exceptWordAndDistances (st : State) : State :=
  set_mNormalizedSquaredDistances (set_mPrimaryInputWord st []) [].

(** The call with the arguments [a] does not continue the session: the
    verdict of [checkAndReturnIsContinuationPossible] is [false], or fewer
    than two points were sampled, and [initInputParams] clears all data. *)
Definition startsAfresh (st : State) (a : InitArgs) : Prop :=
  exists c,
    checkAndReturnIsContinuationPossible D st (argInputSize a) (argXCoordinates a)
      (argYCoordinates a) (argTimes a) (argIsGeometric a) = Some c /\
    c && (1 <? vsize (mInputIndice st)) = false.

(** [readForwordLength] of [initInputParams]. *)
Definition readForwordLengthOf (proximityInfo : ProximityInfo) : option Z :=
  static_cast_int
    (fmul (hypotf U (static_cast_float (getKeyboardWidth proximityInfo))
                    (static_cast_float (getKeyboardHeight proximityInfo)))
          READ_FORWORD_LENGTH_SCALE).


(** The path from the sampled point [i] to the sampled point [j] is shorter
    than [readForwordLength]: the test that keeps the loop over [j] going. *)
Definition withinReach (lengthCache : list Z) (readForwordLength i j : Z) : Prop :=
  exists lj li, rd lengthCache j = Some lj /\ rd lengthCache i = Some li /\
                int32 (lj - li) < readForwordLength.


(** The sampled point [i] replays in the new stream: its stored original
    index is not above [inputSize], and the stream holds its coordinates and
    its time there. *)
Definition replaysAt (st : State) (inputSize : Z) (lx ly lt : list Z) (i : Z) : Prop :=
  exists index,
    rd (mInputIndice st) i = Some index /\ index <= inputSize /\
    rd lx index = rd (mSampledInputXs st) i /\
    rd ly index = rd (mSampledInputYs st) i /\
    rd lt index = rd (mTimes st) i.


(** The first [j + 1] proximity characters of the point [i] are all
    positive: the loop over the proximity characters reaches [j]. *)
Definition proximityCharsReach (st : State) (i j : Z) : Prop :=
  forall j', 0 <= j' <= j ->
    exists c, getProximityCodePointsAt D st i j' = Some c /\ 0 < c.

(** The proximity character [j'] of the point [i] is not positive: the loop
    over the proximity characters ends there. *)
Definition proximityCharsEndAt (st : State) (i j' : Z) : Prop :=
  exists c, getProximityCodePointsAt D st i j' = Some c /\ c <= 0.

(** What the last loop of [initInputParams] stores for the proximity
    character [j] of the point [i], whose code point is [currentCodePoint]. *)
Definition scaledDistanceOf (st : State) (i j currentCodePoint : Z) : option Z :=
  pinfo ← mProximityInfo st;
  squaredDistance ←
    (if hasInputCoordinates st
     then calculateNormalizedSquaredDistance D st (getKeyIndexOf pinfo currentCodePoint) i
     else Some NOT_A_DISTANCE_FLOAT);
  if fle F_0_0 squaredDistance
  then static_cast_int
         (fmul squaredDistance (static_cast_float NORMALIZED_SQUARED_DISTANCE_SCALING_FACTOR))
  else Some (if j =? 0 then EQUIVALENT_CHAR_WITHOUT_DISTANCE_INFO D
             else PROXIMITY_CHAR_WITHOUT_DISTANCE_INFO D).


End Statements.


(** * Properties *)

(** ** Comparison of floats *)

Lemma compare_cont_Eq (p q : positive) : Pos.compare_cont Eq p q = (p ?= q)%positive.
Proof. reflexivity. Qed.

Ltac float_cases :=
  repeat match goal with
    | f : float |- _ => destruct f as [[]|[]| |[] ? ?]
    | f : spec_float |- _ => destruct f as [[]|[]| |[] ? ?]
    end;
  cbn; try discriminate; try reflexivity.

Ltac compare_cases :=
  rewrite ?compare_cont_Eq in *;
  repeat match goal with
    | H : context [(?a ?= ?b)%Z] |- _ => destruct (Z.compare_spec a b); subst
    | |- context [(?a ?= ?b)%Z] => destruct (Z.compare_spec a b); subst
    | H : context [(?a ?= ?b)%positive] |- _ => destruct (Pos.compare_spec a b); subst
    | |- context [(?a ?= ?b)%positive] => destruct (Pos.compare_spec a b); subst
    end;
  cbn in *; try discriminate; try reflexivity; try lia.

Lemma flt_irrefl (x : float) : flt x x = false.
Proof.
  unfold flt, SFltb. float_cases; compare_cases.
Qed.

Lemma flt_asym (a b : float) : flt a b = true -> flt b a = false.
Proof.
  unfold flt, SFltb. float_cases; intros H; compare_cases.
Qed.


(** [fmin a b] is never above [b]. *)
Lemma fmin_not_above (a b : float) : flt b (fmin a b) = false.
Proof.
  unfold fmin. destruct (flt a b) eqn:E.
  - by apply flt_asym.
  - apply flt_irrefl.
Qed.

(** ** Reading and writing arrays *)

(** Turns the boolean tests of the code into propositions for [lia]. *)
Ltac zb :=
  repeat match goal with
    | H : negb _ = true |- _ => apply negb_true_iff in H
    | H : negb _ = false |- _ => apply negb_false_iff in H
    | H : _ && _ = true |- _ => apply andb_true_iff in H; destruct H
    | H : _ || _ = false |- _ => apply orb_false_iff in H; destruct H
    | H : _ && _ = false |- _ => apply andb_false_iff in H
    | H : _ || _ = true |- _ => apply orb_true_iff in H
    | H : (_ <=? _) = true |- _ => apply Z.leb_le in H
    | H : (_ <=? _) = false |- _ => apply Z.leb_gt in H
    | H : (_ <? _) = true |- _ => apply Z.ltb_lt in H
    | H : (_ <? _) = false |- _ => apply Z.ltb_ge in H
    | H : (_ =? _) = true |- _ => apply Z.eqb_eq in H
    | H : (_ =? _) = false |- _ => apply Z.eqb_neq in H
    end.

Lemma rd_is_Some {A} (a : list A) (i : Z) : 0 <= i < vsize a -> is_Some (rd a i).
Proof.
  intros [H0 H1]. unfold rd, vsize in *.
  destruct (0 <=? i) eqn:E; zb; [|lia].
  apply lookup_lt_is_Some. lia.
Qed.

Lemma rd_Some_range {A} (a : list A) (i : Z) (x : A) :
  rd a i = Some x -> 0 <= i < vsize a.
Proof.
  unfold rd, vsize. destruct (0 <=? i) eqn:E; [|discriminate].
  intros H. apply lookup_lt_Some in H. zb. lia.
Qed.

Lemma wr_Some {A} (a : list A) (i : Z) (v : A) (a' : list A) :
  wr a i v = Some a' -> 0 <= i < vsize a /\ a' = <[Z.to_nat i := v]> a.
Proof.
  unfold wr, vsize.
  destruct ((0 <=? i) && (i <? Z.of_nat (length a))) eqn:E; [|discriminate].
  intros [= <-]. zb. split; [lia|done].
Qed.

Lemma wr_length {A} (a : list A) (i : Z) (v : A) (a' : list A) :
  wr a i v = Some a' -> length a' = length a.
Proof. intros H. apply wr_Some in H as [_ ->]. apply length_insert. Qed.

Lemma rd_wr_eq {A} (a : list A) (i : Z) (v : A) (a' : list A) :
  wr a i v = Some a' -> rd a' i = Some v.
Proof.
  intros H. apply wr_Some in H as [Hi ->]. unfold rd, vsize in *.
  destruct (0 <=? i) eqn:E; zb; [|lia]. apply list_lookup_insert_eq. lia.
Qed.

Lemma rd_wr_ne {A} (a : list A) (i j : Z) (v : A) (a' : list A) :
  wr a i v = Some a' -> i <> j -> rd a' j = rd a j.
Proof.
  intros H Hne. apply wr_Some in H as [Hi ->]. unfold rd.
  destruct (0 <=? j) eqn:E; zb; [|done]. apply list_lookup_insert_ne. lia.
Qed.

Lemma writeNearKeys_length (start : Z) (nearKeys written : list Z) :
  length (writeNearKeys start nearKeys written) = length nearKeys.
Proof. apply length_imap. Qed.

Lemma writeNearKeys_same (start : Z) (nearKeys : list Z) :
  writeNearKeys start nearKeys nearKeys = nearKeys.
Proof.
  apply list_eq. intros i. unfold writeNearKeys. rewrite list_lookup_imap.
  destruct (nearKeys !! i) as [s|]; [|done]. cbn.
  by destruct (start <=? Z.of_nat i).
Qed.

Lemma rd_writeNearKeys_below (start : Z) (nearKeys written : list Z) (i : Z) :
  i < start -> rd (writeNearKeys start nearKeys written) i = rd nearKeys i.
Proof.
  intros Hi. unfold rd, writeNearKeys. destruct (0 <=? i) eqn:E; [|done]. zb.
  rewrite list_lookup_imap. destruct (nearKeys !! Z.to_nat i) as [s|]; [|done]. cbn.
  replace (start <=? Z.of_nat (Z.to_nat i)) with false; [done|].
  symmetry. apply Z.leb_gt. lia.
Qed.

Lemma wr_is_Some {A} (a : list A) (i : Z) (v : A) :
  0 <= i < vsize a -> is_Some (wr a i v).
Proof.
  intros Hi. unfold wr, vsize in *.
  destruct ((0 <=? i) && (i <? Z.of_nat (length a))) eqn:E; [by eexists|].
  zb. destruct E; zb; lia.
Qed.

(** ** Loops *)

Lemma forM_invariant {T} (P : Z -> T -> Prop) (body : Z -> T -> option T)
    (k : nat) (lo : Z) (s s' : T) :
  P lo s ->
  (forall i t t', lo <= i < lo + Z.of_nat k -> P i t -> body i t = Some t' -> P (i + 1) t') ->
  forM body (seqZ lo (Z.of_nat k)) s = Some s' ->
  P (lo + Z.of_nat k) s'.
Proof.
  revert lo s. induction k as [|k IH]; intros lo s H0 Hstep Hrun.
  - cbn in Hrun. injection Hrun as <-. by replace (lo + Z.of_nat 0) with lo by lia.
  - rewrite seqZ_cons in Hrun by lia. cbn in Hrun.
    destruct (body lo s) as [t|] eqn:Eb; [|done]. cbn in Hrun.
    replace (Z.succ lo) with (lo + 1) in Hrun by lia.
    replace (Z.pred (Z.of_nat (S k))) with (Z.of_nat k) in Hrun by lia.
    replace (lo + Z.of_nat (S k)) with (lo + 1 + Z.of_nat k) by lia.
    apply (IH (lo + 1) t); [| |done].
    + apply (Hstep lo s t); [lia|done|done].
    + intros i u u' Hi. apply Hstep. lia.
Qed.

Lemma for_range_invariant {T} (P : Z -> T -> Prop) (body : Z -> T -> option T)
    (lo hi : Z) (s s' : T) :
  lo <= hi ->
  P lo s ->
  (forall i t t', lo <= i < hi -> P i t -> body i t = Some t' -> P (i + 1) t') ->
  for_range lo hi body s = Some s' ->
  P hi s'.
Proof.
  intros Hle H0 Hstep Hrun. unfold for_range in Hrun.
  replace (hi - lo) with (Z.of_nat (Z.to_nat (hi - lo))) in Hrun by lia.
  replace hi with (lo + Z.of_nat (Z.to_nat (hi - lo))) by lia.
  eapply forM_invariant; [done| |done].
  intros i t t' Hi. apply Hstep. lia.
Qed.

Lemma for_range_empty {T} (body : Z -> T -> option T) (lo hi : Z) (s : T) :
  hi <= lo -> for_range lo hi body s = Some s.
Proof. intros H. unfold for_range. by rewrite seqZ_nil by lia. Qed.


Section Queries.

Variable D : Defines.
Variable U : Utils.

(** ** getDuration and getLineToKeyDistance outside the sampled points *)

(** C8. Out-of-range neutrality: for every index outside
    [0, mSampledInputSize) [getDuration] returns 0, and
    [getLineToKeyDistance] returns 0.0 as soon as [from] or [to] is outside
    [0, mSampledInputSize).  Both are functions of the state that return a
    value and nothing else: they do not fail ([Some]) and leave the state as
    it is. *)
Theorem out_of_range_neutrality (st : State) :
  (forall index, ~ (0 <= index < mSampledInputSize st) ->
     getDuration st index = Some 0) /\
  (forall from to keyId extend,
     ~ (0 <= from < mSampledInputSize st) \/ ~ (0 <= to < mSampledInputSize st) ->
     getLineToKeyDistance U st from to keyId extend = Some F_0_0).
Proof.
  split.
  - intros index Hout. unfold getDuration.
    destruct ((0 <=? index) && (index <? mSampledInputSize st - 1)) eqn:E; [|done].
    zb. lia.
  - intros from to keyId extend Hout. unfold getLineToKeyDistance.
    destruct ((from <? 0) || (mSampledInputSize st - 1 <? from)) eqn:Ef; [done|].
    destruct ((to <? 0) || (mSampledInputSize st - 1 <? to)) eqn:Et; [done|].
    zb. lia.
Qed.

(** C10. The last sampled point has no duration: [getDuration] returns 0 at
    index [mSampledInputSize - 1] although it is a sampled point, and a result
    other than 0 comes only from an index in [0, mSampledInputSize - 1), where
    it is the difference of the time of the following point and the time of
    the point itself. *)
Theorem last_point_duration (st : State) (index : Z) :
  (index = mSampledInputSize st - 1 -> getDuration st index = Some 0) /\
  (forall d, getDuration st index = Some d -> d <> 0 ->
     0 <= index < mSampledInputSize st - 1 /\
     exists t0 t1, rd (mTimes st) index = Some t0 /\
                   rd (mTimes st) (index + 1) = Some t1 /\
                   d = int32 (t1 - t0)).
Proof.
  split.
  - intros ->. unfold getDuration.
    destruct ((0 <=? mSampledInputSize st - 1)
              && (mSampledInputSize st - 1 <? mSampledInputSize st - 1)) eqn:E; [|done].
    zb. lia.
  - intros d Hd Hnz. unfold getDuration in Hd.
    destruct ((0 <=? index) && (index <? mSampledInputSize st - 1)) eqn:E.
    + zb. split; [lia|].
      destruct (rd (mTimes st) (index + 1)) as [t1|] eqn:E1; [|done].
      destruct (rd (mTimes st) index) as [t0|] eqn:E0; [|done].
      cbn in Hd. injection Hd as <-. by exists t0, t1.
    + congruence.
Qed.

(** ** checkAndReturnIsContinuationPossible in tap mode *)

Lemma continuationLoop_T_spec (st : State) (lx ly : list Z) (idxs : list Z) :
  (forall i, i ∈ idxs ->
     0 <= i /\ i < vsize lx /\ i < vsize ly /\
     i < vsize (mSampledInputXs st) /\ i < vsize (mSampledInputYs st)) ->
  exists b, continuationLoop_T st (Some lx) (Some ly) idxs = Some b /\
    (b = true <->
     forall i, i ∈ idxs ->
       rd lx i = rd (mSampledInputXs st) i /\ rd ly i = rd (mSampledInputYs st) i).
Proof.
  induction idxs as [|i rest IH]; intros Hin.
  - exists true. split; [done|]. split; [|done]. intros _ i Hi. by apply elem_of_nil in Hi.
  - destruct IH as (b & Hb & Hiff).
    { intros j Hj. apply Hin. by right. }
    destruct (Hin i) as (H0 & H1 & H2 & H3 & H4); [by left|].
    destruct (rd_is_Some lx i) as [x Ex]; [lia|].
    destruct (rd_is_Some ly i) as [y Ey]; [lia|].
    destruct (rd_is_Some (mSampledInputXs st) i) as [sx Esx]; [lia|].
    destruct (rd_is_Some (mSampledInputYs st) i) as [sy Esy]; [lia|].
    cbn [continuationLoop_T rdp mbind option_bind]. rewrite Ex, Esx. cbn.
    destruct (x =? sx) eqn:Exs; cbn.
    + rewrite Ey, Esy. cbn. destruct (y =? sy) eqn:Eys; cbn; zb; subst.
      * exists b. split; [done|]. rewrite Hiff. split.
        -- intros Hall j Hj. apply elem_of_cons in Hj as [->|Hj]; [|by apply Hall].
           by rewrite Ex, Esx, Ey, Esy.
        -- intros Hall j Hj. apply Hall. by right.
      * exists false. split; [done|]. split; [done|]. intros Hall.
        destruct (Hall i) as [_ Hy]; [by left|]. congruence.
    + zb. exists false. split; [done|]. split; [done|]. intros Hall.
      destruct (Hall i) as [Hx _]; [by left|]. congruence.
Qed.

(** C5. Tap-mode continuation validity: without [isGeometric], on streams
    that hold [inputSize] points and a state that holds its
    [mSampledInputSize] sampled points, [checkAndReturnIsContinuationPossible]
    returns [true] exactly when the new input size is at least the previously
    sampled size and the first [min(mSampledInputSize, MAX_WORD_LENGTH)]
    coordinate pairs of the new stream are the stored sampled x and y. *)
Theorem tap_mode_continuation (st : State) (inputSize : Z) (lx ly : list Z)
    (times : option (list Z)) :
  inputSize <= vsize lx -> inputSize <= vsize ly ->
  mSampledInputSize st <= vsize (mSampledInputXs st) ->
  mSampledInputSize st <= vsize (mSampledInputYs st) ->
  exists b,
    checkAndReturnIsContinuationPossible D st inputSize (Some lx) (Some ly) times false
      = Some b /\
    (b = true <->
     mSampledInputSize st <= inputSize /\
     forall i, 0 <= i < Z.min (mSampledInputSize st) (MAX_WORD_LENGTH D) ->
       rd lx i = rd (mSampledInputXs st) i /\ rd ly i = rd (mSampledInputYs st) i).
Proof.
  intros Hlx Hly Hsx Hsy. unfold checkAndReturnIsContinuationPossible.
  destruct (inputSize <? mSampledInputSize st) eqn:E; zb.
  - exists false. split; [done|]. split; [done|]. lia.
  - destruct (continuationLoop_T_spec st lx ly
                (seqZ 0 (Z.min (mSampledInputSize st) (MAX_WORD_LENGTH D))))
      as (b & Hb & Hiff).
    { intros i Hi. apply elem_of_seqZ in Hi. lia. }
    exists b. split; [done|]. rewrite Hiff. split.
    + intros Hall. split; [lia|]. intros i Hi. apply Hall, elem_of_seqZ. lia.
    + intros [_ Hall] i Hi. apply Hall. apply elem_of_seqZ in Hi. lia.
Qed.

(** ** getPointToKeyLength *)

(** C4, as the code has it. Length clamp: for a sampled point in range and a
    code point that has a key on the keyboard, the value returned by
    [getPointToKeyLength] never exceeds [mMaxPointToKeyLength]; for a code
    point without a key it is exactly 0 when the code point is skippable, and
    the constant [MAX_POINT_TO_KEY_LENGTH], whatever the maximum the caller
    supplied, when it is not. *)
Theorem length_clamp (st : State) (pinfo : ProximityInfo)
    (inputIndex codePoint : Z) (scale : float) :
  mProximityInfo st = Some pinfo ->
  (getKeyIndexOf pinfo codePoint <> NOT_AN_INDEX D ->
   0 <= inputIndex < mSampledInputSize st ->
   0 <= getKeyIndexOf pinfo codePoint < getKeyCount pinfo ->
   vsize (mDistanceCache_G st) = mSampledInputSize st * getKeyCount pinfo ->
   exists v, getPointToKeyLength D U st inputIndex codePoint scale = Some v /\
             flt (mMaxPointToKeyLength st) v = false) /\
  (getKeyIndexOf pinfo codePoint = NOT_AN_INDEX D ->
   getPointToKeyLength D U st inputIndex codePoint scale =
     Some (if isSkippableCodePoint U codePoint then F_0_0
           else static_cast_float (MAX_POINT_TO_KEY_LENGTH D))).
Proof.
  intros Hp. unfold getPointToKeyLength. rewrite Hp. cbn. split.
  - intros Hkey Hi Hk Hlen.
    destruct (getKeyIndexOf pinfo codePoint =? NOT_AN_INDEX D) eqn:E; zb; [done|]. cbn.
    destruct (rd_is_Some (mDistanceCache_G st)
                (inputIndex * getKeyCount pinfo + getKeyIndexOf pinfo codePoint))
      as [d Ed]; [rewrite Hlen; nia|].
    rewrite Ed. cbn. eexists. split; [done|]. apply fmin_not_above.
  - intros ->. rewrite Z.eqb_refl. cbn. by destruct (isSkippableCodePoint U codePoint).
Qed.

(** ** getMatchedProximityId *)

Ltac znorm :=
  repeat match goal with
    | |- context [Z.add (Zpos ?p) (Zpos ?q)] =>
        let v := eval vm_compute in (Z.add (Zpos p) (Zpos q)) in
        change (Z.add (Zpos p) (Zpos q)) with v
    end.

Lemma searchCloseKeys_step (st : State) (index c baseLowerC j n : Z) :
  0 < n ->
  searchCloseKeys D st index c baseLowerC j (seqZ j n) =
    (cp ← getProximityCodePointsAt D st index j;
     if ADDITIONAL_PROXIMITY_CHAR_DELIMITER_CODE D <? cp then
       if (cp =? baseLowerC) || (cp =? c) then Some (inl j)
       else searchCloseKeys D st index c baseLowerC (j + 1) (seqZ (j + 1) (n - 1))
     else Some (inr j)).
Proof.
  intros Hn. rewrite seqZ_cons by done.
  replace (Z.succ j) with (j + 1) by lia. replace (Z.pred n) with (n - 1) by lia.
  reflexivity.
Qed.

Lemma searchCloseKeys_end (st : State) (index c baseLowerC j n : Z) :
  n <= 0 -> searchCloseKeys D st index c baseLowerC j (seqZ j n) = Some (inr j).
Proof. intros Hn. by rewrite seqZ_nil. Qed.

Lemma matched_eqb (cp target : Z) :
  (cp =? toBaseLowerCase U target) || (cp =? target) = true <-> matched U cp target.
Proof.
  unfold matched. rewrite orb_true_iff, !Z.eqb_eq. tauto.
Qed.

Lemma not_matched_eqb (cp target : Z) :
  ~ matched U cp target ->
  (cp =? toBaseLowerCase U target) || (cp =? target) = false.
Proof.
  intros H. destruct ((cp =? toBaseLowerCase U target) || (cp =? target)) eqn:E; [|done].
  by apply matched_eqb in E.
Qed.

(** C3, as the code has it. Classifier priority: let the proximity list of a
    sampled point be [primary, a, b, DELIM, c], with [a], [b] and [c] code
    points above the delimiter code, and let proximity checking be enabled.
    A target that the first-listed character matches (exactly, or as its
    normalized form) is an [EQUIVALENT_CHAR].  The target [a], when [primary]
    neither matches it nor has the same normalized form, is a
    [NEAR_PROXIMITY_CHAR] with [proximityIndex] 1.  The target [c], when in
    addition neither [a] nor [b] matches it, is an
    [ADDITIONAL_PROXIMITY_CHAR] with [proximityIndex] 4.  A target is an
    [UNRELATED_CHAR] when no listed character matches it or its normalized
    form and the normalized [primary] differs from its normalized form. *)
Theorem classifier_priority (st : State) (index primary a b c : Z)
    (proximityIndex : option Z) :
  let delim := ADDITIONAL_PROXIMITY_CHAR_DELIMITER_CODE D in
  let related x t :=
    matched U x t \/ toBaseLowerCase U x = toBaseLowerCase U t in
  proximityListIs D st index [primary; a; b; delim; c] ->
  5 <= MAX_PROXIMITY_CHARS_SIZE D ->
  delim < a -> delim < b -> delim < c ->
  (forall t, matched U primary t ->
     getMatchedProximityId D U st index t true proximityIndex
       = Some (EQUIVALENT_CHAR, proximityIndex)) /\
  (~ related primary a ->
     getMatchedProximityId D U st index a true proximityIndex
       = Some (NEAR_PROXIMITY_CHAR, (fun _ => 1) <$> proximityIndex)) /\
  (~ related primary c -> ~ matched U a c -> ~ matched U b c ->
     getMatchedProximityId D U st index c true proximityIndex
       = Some (ADDITIONAL_PROXIMITY_CHAR, (fun _ => 4) <$> proximityIndex)) /\
  (forall t, ~ related primary t -> ~ matched U a t -> ~ matched U b t ->
     ~ matched U c t ->
     getMatchedProximityId D U st index t true proximityIndex
       = Some (UNRELATED_CHAR, proximityIndex)).
Proof.
  intros delim related [Hlist Hpad] HN Ha Hb Hc.
  pose proof (Hlist 0%nat primary eq_refl) as H0.
  pose proof (Hlist 1%nat a eq_refl) as H1.
  pose proof (Hlist 2%nat b eq_refl) as H2.
  pose proof (Hlist 3%nat delim eq_refl) as H3.
  pose proof (Hlist 4%nat c eq_refl) as H4.
  change (Z.of_nat 0) with 0 in H0. change (Z.of_nat 1) with 1 in H1.
  change (Z.of_nat 2) with 2 in H2. change (Z.of_nat 3) with 3 in H3.
  change (Z.of_nat 4) with 4 in H4.
  assert (Hhead : forall t, ~ related primary t ->
            getMatchedProximityId D U st index t true proximityIndex =
            (r ← searchCloseKeys D st index t (toBaseLowerCase U t) 1
                   (seqZ 1 (MAX_PROXIMITY_CHARS_SIZE D - 1));
             match r with
             | inl j => Some (NEAR_PROXIMITY_CHAR, (fun _ => j) <$> proximityIndex)
             | inr j =>
                 if j <? MAX_PROXIMITY_CHARS_SIZE D then
                   cp ← getProximityCodePointsAt D st index j;
                   if cp =? delim then
                     r2 ← searchCloseKeys D st index t (toBaseLowerCase U t) (j + 1)
                            (seqZ (j + 1) (MAX_PROXIMITY_CHARS_SIZE D - (j + 1)));
                     match r2 with
                     | inl j2 =>
                         Some (ADDITIONAL_PROXIMITY_CHAR, (fun _ => j2) <$> proximityIndex)
                     | inr _ => Some (UNRELATED_CHAR, proximityIndex)
                     end
                   else Some (UNRELATED_CHAR, proximityIndex)
                 else Some (UNRELATED_CHAR, proximityIndex)
             end)).
  { intros t Hrel. unfold getMatchedProximityId. rewrite H0. cbn.
    rewrite not_matched_eqb by (intros Hm; apply Hrel; by left).
    destruct (toBaseLowerCase U primary =? toBaseLowerCase U t) eqn:E; zb; [|done].
    exfalso. apply Hrel. by right. }
  assert (Hd : (delim <? delim) = false) by (apply Z.ltb_ge; lia).
  repeat split.
  - intros t Hm. unfold getMatchedProximityId. rewrite H0. cbn.
    apply matched_eqb in Hm. by rewrite Hm.
  - intros Hrel. rewrite (Hhead a Hrel).
    rewrite searchCloseKeys_step by lia. rewrite H1. cbn.
    fold delim. replace (delim <? a) with true by (symmetry; apply Z.ltb_lt; lia).
    replace ((a =? toBaseLowerCase U a) || (a =? a)) with true; [done|].
    symmetry. apply matched_eqb. by right.
  - intros Hrel Hac Hbc. rewrite (Hhead c Hrel).
    rewrite searchCloseKeys_step by lia. rewrite H1. cbn. fold delim.
    replace (delim <? a) with true by (symmetry; apply Z.ltb_lt; lia).
    rewrite (not_matched_eqb _ _ Hac).
    rewrite searchCloseKeys_step by lia. cbn. znorm. rewrite H2. cbn. fold delim.
    replace (delim <? b) with true by (symmetry; apply Z.ltb_lt; lia).
    rewrite (not_matched_eqb _ _ Hbc).
    rewrite searchCloseKeys_step by lia. cbn. znorm. rewrite H3. cbn. fold delim.
    rewrite Hd. cbn.
    replace (3 <? MAX_PROXIMITY_CHARS_SIZE D) with true by (symmetry; apply Z.ltb_lt; lia).
    rewrite H3. cbn. rewrite Z.eqb_refl.
    rewrite searchCloseKeys_step by lia. cbn. znorm. rewrite H4. cbn. fold delim.
    replace (delim <? c) with true by (symmetry; apply Z.ltb_lt; lia).
    replace ((c =? toBaseLowerCase U c) || (c =? c)) with true; [done|].
    symmetry. apply matched_eqb. by right.
  - intros t Hrel Hat Hbt Hct. rewrite (Hhead t Hrel).
    rewrite searchCloseKeys_step by lia. rewrite H1. cbn. fold delim.
    replace (delim <? a) with true by (symmetry; apply Z.ltb_lt; lia).
    rewrite (not_matched_eqb _ _ Hat).
    rewrite searchCloseKeys_step by lia. cbn. znorm. rewrite H2. cbn. fold delim.
    replace (delim <? b) with true by (symmetry; apply Z.ltb_lt; lia).
    rewrite (not_matched_eqb _ _ Hbt).
    rewrite searchCloseKeys_step by lia. cbn. znorm. rewrite H3. cbn. fold delim.
    rewrite Hd. cbn.
    replace (3 <? MAX_PROXIMITY_CHARS_SIZE D) with true by (symmetry; apply Z.ltb_lt; lia).
    rewrite H3. cbn. rewrite Z.eqb_refl.
    rewrite searchCloseKeys_step by lia. cbn. znorm. rewrite H4. cbn. fold delim.
    replace (delim <? c) with true by (symmetry; apply Z.ltb_lt; lia).
    rewrite (not_matched_eqb _ _ Hct).
    destruct (Z.eq_dec (MAX_PROXIMITY_CHARS_SIZE D) 5) as [E5|N5].
    + znorm. rewrite searchCloseKeys_end by lia. done.
    + rewrite searchCloseKeys_step by lia. cbn. znorm.
      destruct (Hpad 5) as (v & Hv & Hle); [cbn; lia|].
      rewrite Hv. cbn. fold delim.
      replace (delim <? v) with false by (symmetry; apply Z.ltb_ge; lia). done.
Qed.

(** ** getAllPossibleChars *)

Lemma notInFilter_true (filter : list Z) (keyCodePoint : Z) (idxs : list Z) :
  notInFilter filter keyCodePoint idxs = Some true ->
  forall k v, k ∈ idxs -> rd filter k = Some v -> v <> keyCodePoint.
Proof.
  induction idxs as [|k0 rest IH]; intros Hrun k v Hk Hv.
  - by apply elem_of_nil in Hk.
  - cbn in Hrun. destruct (rd filter k0) as [v0|] eqn:E0; [|done]. cbn in Hrun.
    destruct (v0 =? keyCodePoint) eqn:Ev; [done|]. zb.
    apply elem_of_cons in Hk as [->|Hk]; [congruence|]. by eapply IH.
Qed.

Lemma notInFilter_take (filter : list Z) (keyCodePoint filterSize : Z) :
  notInFilter filter keyCodePoint (seqZ 0 filterSize) = Some true ->
  keyCodePoint ∉ take (Z.to_nat filterSize) filter.
Proof.
  intros Hrun Hin. apply list_elem_of_lookup in Hin as [k Hk].
  pose proof (lookup_lt_Some _ _ _ Hk) as Hlt. rewrite length_take in Hlt.
  rewrite lookup_take_lt in Hk by lia.
  apply (notInFilter_true _ _ _ Hrun (Z.of_nat k) keyCodePoint); [|  |done].
  - apply elem_of_seqZ. lia.
  - unfold rd. destruct (0 <=? Z.of_nat k) eqn:E; zb; [|lia]. by rewrite Nat2Z.id.
Qed.

(** C9, as the code has it. Deduplicated enumeration: when the search keys of
    the point carry pairwise different code points, and the first
    [filterSize] entries of the input filter hold no code point twice, the
    first [newFilterSize] entries of the filter that [getAllPossibleChars]
    returns hold no code point twice. *)
Theorem deduplicated_enumeration (st : State) (pinfo : ProximityInfo) (index bits : Z)
    (filter : list Z) (filterSize : Z) (filter' : list Z) (newFilterSize : Z) :
  mProximityInfo st = Some pinfo ->
  rd (mSearchKeysVector st) index = Some bits ->
  distinctCodePoints pinfo bits ->
  NoDup (take (Z.to_nat filterSize) filter) ->
  getAllPossibleChars D st index filter filterSize = Some (filter', newFilterSize) ->
  NoDup (take (Z.to_nat newFilterSize) filter').
Proof.
  intros Hp Hbits Hdistinct Hnodup Hrun. unfold getAllPossibleChars in Hrun.
  destruct (vsize (mSampledInputXs st) <=? index); [by injection Hrun as <- <-|].
  rewrite Hp in Hrun. cbn in Hrun.
  destruct (Z.le_gt_cases 0 (getKeyCount pinfo)) as [Hk|Hk];
    [|rewrite for_range_empty in Hrun by lia; by injection Hrun as <- <-].
  set (P := fun (j : Z) (acc : list Z * Z) =>
    filterSize <= acc.2 /\
    NoDup (take (Z.to_nat acc.2) acc.1) /\
    forall x, x ∈ drop (Z.to_nat filterSize) (take (Z.to_nat acc.2) acc.1) ->
      exists j', 0 <= j' < j /\ Z.testbit bits j' = true /\ x = getCodePointOf pinfo j').
  enough (HP : P (getKeyCount pinfo) (filter', newFilterSize)) by apply HP.
  eapply (for_range_invariant P); [exact Hk| | |exact Hrun].
  - unfold P. cbn. split; [lia|]. split; [done|].
    intros x Hx. rewrite drop_ge in Hx by (rewrite length_take; lia).
    by apply elem_of_nil in Hx.
  - intros j [f n] [f1 n1] Hj (Hle & Hnd & Hadded) Hbody. cbn in Hle, Hnd, Hadded.
    assert (Hweak : forall x,
              x ∈ drop (Z.to_nat filterSize) (take (Z.to_nat n) f) ->
              exists j', 0 <= j' < j + 1 /\ Z.testbit bits j' = true
                         /\ x = getCodePointOf pinfo j').
    { intros x Hx. destruct (Hadded x Hx) as (j' & ? & ? & ?). exists j'.
      split; [lia|done]. }
    rewrite Hbits in Hbody. cbn in Hbody.
    destruct (test D bits j) as [b|] eqn:Et; [|done]. cbn in Hbody.
    assert (Hb : b = Z.testbit bits j).
    { unfold test in Et. destruct ((0 <=? j) && (j <? MAX_KEY_COUNT_IN_A_KEYBOARD D));
        congruence. }
    destruct b; [|injection Hbody as <- <-; by unfold P].
    destruct (notInFilter f (getCodePointOf pinfo j) (seqZ 0 filterSize))
      as [insert|] eqn:En; [|done]. cbn in Hbody.
    destruct insert; [|injection Hbody as <- <-; by unfold P].
    destruct (wr f n (getCodePointOf pinfo j)) as [f2|] eqn:Ew; [|done].
    cbn in Hbody. injection Hbody as <- <-.
    apply wr_Some in Ew as [Hn ->]. unfold vsize in Hn.
    assert (Htake : take (Z.to_nat (n + 1)) (<[Z.to_nat n := getCodePointOf pinfo j]> f)
                    = take (Z.to_nat n) f ++ [getCodePointOf pinfo j]).
    { replace (Z.to_nat (n + 1)) with (Datatypes.S (Z.to_nat n)) by lia.
      rewrite (take_S_r _ _ (getCodePointOf pinfo j))
        by (apply list_lookup_insert_eq; lia).
      by rewrite take_insert_ge by lia. }
    unfold P. cbn. rewrite Htake. split; [lia|]. split.
    + apply NoDup_app. split; [done|]. split; [|apply NoDup_singleton].
      intros x Hx Hx'. apply list_elem_of_singleton in Hx' as ->.
      rewrite <- (take_drop (Z.to_nat filterSize) (take (Z.to_nat n) f)) in Hx.
      apply elem_of_app in Hx as [Hx|Hx].
      * rewrite take_take in Hx. rewrite Nat.min_l in Hx by lia.
        by apply notInFilter_take in En.
      * destruct (Hadded _ Hx) as (j' & Hj' & Hbit & Hcode).
        assert (j = j'); [|lia].
        apply Hdistinct; [lia|lia|done|done|done].
    + intros x Hx. rewrite drop_app_le in Hx by (rewrite length_take; lia).
      apply elem_of_app in Hx as [Hx|Hx]; [by apply Hweak|].
      apply list_elem_of_singleton in Hx as ->. exists j. split; [lia|done].
Qed.

(** ** getMostProbableString *)


(** Once [MAX_WORD_LENGTH - 1] characters are written the decoder stops. *)
Lemma mostProbableStringLoop_full (st : State) (idxs codePointBuf : list Z) (index : Z)
    (sumLogProbability : float) :
  MAX_WORD_LENGTH D - 1 <= index ->
  mostProbableStringLoop D st idxs codePointBuf index sumLogProbability
  = Some (codePointBuf, sumLogProbability).
Proof.
  intros Hfull. destruct idxs as [|i rest]; [done|]. cbn.
  by replace (index <? MAX_WORD_LENGTH D - 1) with false by (symmetry; apply Z.ltb_ge; lia).
Qed.


End Queries.

Section Sessions.

Variable D : Defines.
Variable U : Utils.

(** ** Clearing the session *)

Lemma forM_fmap {T} (f : T -> T) (body : Z -> T -> option T) (idxs : list Z) (s : T) :
  (forall i t, body i (f t) = f <$> body i t) ->
  forM body idxs (f s) = f <$> forM body idxs s.
Proof.
  intros Hbody. revert s. induction idxs as [|i rest IH]; intros s; [done|].
  cbn. rewrite Hbody. destruct (body i s) as [t|]; cbn; [apply IH|done].
Qed.

Lemma primaryInputWordStep_forget (i : Z) (st : State) :
  primaryInputWordStep D i (forget st) = forget <$> primaryInputWordStep D i st.
Proof.
  unfold primaryInputWordStep, getPrimaryCodePointAt, getProximityCodePointsAt. cbn.
  destruct (rd (mInputProximities st) (i * MAX_PROXIMITY_CHARS_SIZE D + 0)); [|done].
  cbn. by destruct (wr (mPrimaryInputWord st) i z).
Qed.

Lemma normalizedSquaredDistancesStep_forget (i : Z) (idxs : list Z) (st : State) :
  normalizedSquaredDistancesStep D (forget st) i idxs
  = forget <$> normalizedSquaredDistancesStep D st i idxs.
Proof.
  revert st. induction idxs as [|j rest IH]; intros st; [done|].
  cbn [normalizedSquaredDistancesStep].
  change (getProximityCodePointsAt D (forget st) i j)
    with (getProximityCodePointsAt D st i j).
  destruct (getProximityCodePointsAt D st i j) as [cp|]; [|done]. cbn [mbind option_bind].
  destruct (0 <? cp); [|done].
  change (mProximityInfo (forget st)) with (mProximityInfo st).
  destruct (mProximityInfo st) as [pinfo|]; [|done]. cbn [mbind option_bind].
  change (hasInputCoordinates (forget st)) with (hasInputCoordinates st).
  change (calculateNormalizedSquaredDistance D (forget st) (getKeyIndexOf pinfo cp) i)
    with (calculateNormalizedSquaredDistance D st (getKeyIndexOf pinfo cp) i).
  destruct (if hasInputCoordinates st
            then calculateNormalizedSquaredDistance D st (getKeyIndexOf pinfo cp) i
            else Some NOT_A_DISTANCE_FLOAT) as [sd|]; [|done].
  cbn [mbind option_bind].
  match goal with |- context [mbind _ ?o] => destruct o as [v|]; [|done] end.
  cbn [mbind option_bind].
  change (mNormalizedSquaredDistances (forget st)) with (mNormalizedSquaredDistances st).
  destruct (wr (mNormalizedSquaredDistances st) (i * MAX_PROXIMITY_CHARS_SIZE D + j) v)
    as [a|]; [|done].
  cbn [mbind option_bind]. apply (IH (set_mNormalizedSquaredDistances st a)).
Qed.

Lemma primaryInputWordAndDistances_forget (st : State) (pointerId inputSize : Z)
    (xCoordinates yCoordinates : option (list Z)) (isGeometric : bool) :
  primaryInputWordAndDistances D (forget st) pointerId inputSize xCoordinates
    yCoordinates isGeometric
  = forget <$> primaryInputWordAndDistances D st pointerId inputSize xCoordinates
                 yCoordinates isGeometric.
Proof.
  unfold primaryInputWordAndDistances.
  destruct (negb isGeometric && (pointerId =? 0)); [|done].
  unfold for_range. rewrite forM_fmap by apply primaryInputWordStep_forget.
  destruct (forM (primaryInputWordStep D) (seqZ 0 (inputSize - 0)) st) as [st'|]; [|done].
  cbn. destruct (mTouchPositionCorrectionEnabled st'); [|done].
  apply forM_fmap. intros i t. unfold normalizedSquaredDistancesOfPoint.
  change (getProximityCodePointsAt D (forget t) i 0)
    with (getProximityCodePointsAt D t i 0).
  destruct (getProximityCodePointsAt D t i 0); [|done]. cbn.
  destruct (rdp xCoordinates i); [|done]. cbn.
  destruct (rdp yCoordinates i); [|done]. cbn.
  apply normalizedSquaredDistancesStep_forget.
Qed.

Lemma primaryInputWordAndDistances_observably (st1 st2 : State) (pointerId inputSize : Z)
    (xCoordinates yCoordinates : option (list Z)) (isGeometric : bool) :
  forget st1 = forget st2 ->
  bothOrNeither sameButVerdictAndSpeed
    (primaryInputWordAndDistances D st1 pointerId inputSize xCoordinates yCoordinates
       isGeometric)
    (primaryInputWordAndDistances D st2 pointerId inputSize xCoordinates yCoordinates
       isGeometric).
Proof.
  intros Heq.
  pose proof (primaryInputWordAndDistances_forget st1 pointerId inputSize xCoordinates
                yCoordinates isGeometric) as H1.
  pose proof (primaryInputWordAndDistances_forget st2 pointerId inputSize xCoordinates
                yCoordinates isGeometric) as H2.
  rewrite Heq, H2 in H1. unfold bothOrNeither, sameButVerdictAndSpeed. revert H1.
  destruct (primaryInputWordAndDistances D st1 _ _ _ _ _),
           (primaryInputWordAndDistances D st2 _ _ _ _ _);
    cbv [fmap option_fmap option_map]; intros H1; try done.
  apply (inj Some) in H1. by symmetry.
Qed.

(** A session without sampled points accepts every stream as a continuation
    or refuses it, and never reads a coordinate. *)
Lemma continuation_without_samples (st : State) (inputSize : Z)
    (xCoordinates yCoordinates times : option (list Z)) (isGeometric : bool) :
  mSampledInputSize st = 0 ->
  is_Some (checkAndReturnIsContinuationPossible D st inputSize xCoordinates yCoordinates
             times isGeometric).
Proof.
  intros H0. unfold checkAndReturnIsContinuationPossible. rewrite H0.
  destruct isGeometric; [by eexists|].
  destruct (inputSize <? 0); [by eexists|].
  rewrite seqZ_nil by lia. by eexists.
Qed.

(** Whenever the continuation is judged impossible, the call ends as the same
    call on a fresh session does, the verdict and the average speed apart. *)
Lemma round_trip_buffers (proximityInfo : ProximityInfo) (stA : State)
    (b : InitArgs) :
  arraysAsDeclared D stA ->
  checkAndReturnIsContinuationPossible D stA (argInputSize b) (argXCoordinates b)
    (argYCoordinates b) (argTimes b) (argIsGeometric b) = Some false ->
  bothOrNeither sameButVerdictAndSpeed
    (init D U proximityInfo stA b) (init D U proximityInfo (fresh D) b).
Proof.
  intros (Hl1 & Hl2 & Hl3) Hcheck.
  destruct (continuation_without_samples (fresh D) (argInputSize b) (argXCoordinates b)
              (argYCoordinates b) (argTimes b) (argIsGeometric b) eq_refl) as [c Hc].
  unfold init, initInputParams. rewrite Hcheck, Hc.
  cbn [mbind option_bind]. unfold memset. rewrite Hl1, Hl2, Hl3.
  replace (c && (1 <? vsize (mInputIndice (fresh D)))) with false
    by (by destruct c).
  cbn [andb keepIf mbind option_bind].
  set (zeroed := replicate (length (mInputProximities (fresh D))) (memset_int 0)).
  destruct (if negb (argIsGeometric b) && (argPointerId b =? 0)
            then initializeProximities proximityInfo (argInputCodes b)
                   (argXCoordinates b) (argYCoordinates b) (argInputSize b) zeroed
            else Some zeroed) as [inputProximities|]; [|done].
  cbn [mbind option_bind].
  match goal with
  | |- context [mbind _ ?s] => destruct s as [[n sv]|] eqn:Es; [|done]
  end.
  cbn [mbind option_bind].
  destruct ((0 <? n) && argIsGeometric b) eqn:Ekin.
  - (* the speed rates are refreshed: the average speed is written *)
    destruct (refreshSpeedRates U (argInputSize b) (argXCoordinates b) (argYCoordinates b)
                (argTimes b) 0 n sv [] []) as [[[avg sr] dirs]|]; [|done].
    cbn [mbind option_bind].
    match goal with
    | |- context [refreshBeelineSpeedRates ?a1 ?a2 ?a3 ?a4 ?a5 ?a6 ?a7 ?a8 ?a9 ?a10 ?a11 ?a12] =>
        destruct (refreshBeelineSpeedRates a1 a2 a3 a4 a5 a6 a7 a8 a9 a10 a11 a12)
          as [bl|]; [|done]
    end.
    cbn [mbind option_bind].
    match goal with
    | |- context [mbind _ ?s] => destruct s as [[[[dc nk] sk] cp]|]; [|done]
    end.
    cbn [mbind option_bind].
    by apply primaryInputWordAndDistances_observably.
  - cbn [mbind option_bind].
    match goal with
    | |- context [mbind _ ?s] => destruct s as [[[[dc nk] sk] cp]|]; [|done]
    end.
    cbn [mbind option_bind].
    by apply primaryInputWordAndDistances_observably.
Qed.

(** ** What the queries read *)

Lemma searchCloseKeys_forget (st : State) (index c baseLowerC j : Z) (idxs : list Z) :
  searchCloseKeys D (forget st) index c baseLowerC j idxs
  = searchCloseKeys D st index c baseLowerC j idxs.
Proof.
  revert j. induction idxs as [|j' rest IH]; intros j; [done|].
  cbn [searchCloseKeys].
  change (getProximityCodePointsAt D (forget st) index j')
    with (getProximityCodePointsAt D st index j').
  destruct (getProximityCodePointsAt D st index j') as [cp|]; [|done]. cbn.
  by rewrite IH.
Qed.

Lemma mostProbableStringLoop_forget (st : State) (idxs codePointBuf : list Z)
    (index : Z) (sumLogProbability : float) :
  mostProbableStringLoop D (forget st) idxs codePointBuf index sumLogProbability
  = mostProbableStringLoop D st idxs codePointBuf index sumLogProbability.
Proof.
  revert codePointBuf index sumLogProbability.
  induction idxs as [|i rest IH]; intros codePointBuf index sumLogProbability; [done|].
  cbn [mostProbableStringLoop]. destruct (index <? MAX_WORD_LENGTH D - 1); [|done].
  change (mCharProbabilities (forget st)) with (mCharProbabilities st).
  destruct (rd (mCharProbabilities st) i) as [entries|]; [|done]. cbn.
  destruct (mostProbableKey D entries (static_cast_float (MAX_POINT_TO_KEY_LENGTH D))
              (NOT_AN_INDEX D)) as [m ch].
  destruct (negb (ch =? NOT_AN_INDEX D)); [|apply IH].
  change (mProximityInfo (forget st)) with (mProximityInfo st).
  destruct (mProximityInfo st); [|done]. cbn. apply IH.
Qed.

(** No query of the file reads [mIsContinuationPossible] or [mAverageSpeed]. *)
Lemma queries_forget (st : State) :
  (forall index, getDuration (forget st) index = getDuration st index) /\
  (forall inputIndex codePoint scale,
     getPointToKeyLength D U (forget st) inputIndex codePoint scale
     = getPointToKeyLength D U st inputIndex codePoint scale) /\
  (forall index c check proximityIndex,
     getMatchedProximityId D U (forget st) index c check proximityIndex
     = getMatchedProximityId D U st index c check proximityIndex) /\
  (forall index filter filterSize,
     getAllPossibleChars D (forget st) index filter filterSize
     = getAllPossibleChars D st index filter filterSize) /\
  (forall from to keyId extend,
     getLineToKeyDistance U (forget st) from to keyId extend
     = getLineToKeyDistance U st from to keyId extend) /\
  getMostProbableString D (forget st) = getMostProbableString D st /\
  (forall index keyIndex,
     getProbability D (forget st) index keyIndex = getProbability D st index keyIndex) /\
  (forall index keyId,
     isKeyInSerchKeysAfterIndex D (forget st) index keyId
     = isKeyInSerchKeysAfterIndex D st index keyId) /\
  (forall index, hasSpaceProximity_at (forget st) index = hasSpaceProximity_at st index) /\
  getSpaceY D (forget st) = getSpaceY D st /\
  (forall keyIndex inputIndex,
     calculateNormalizedSquaredDistance D (forget st) keyIndex inputIndex
     = calculateNormalizedSquaredDistance D st keyIndex inputIndex).
Proof.
  repeat split; try reflexivity.
  - intros index c check proximityIndex. unfold getMatchedProximityId.
    change (getProximityCodePointsAt D (forget st) index 0)
      with (getProximityCodePointsAt D st index 0).
    destruct (getProximityCodePointsAt D st index 0) as [first|]; [|done]. cbn.
    repeat match goal with |- context [if ?b then _ else _] => destruct b; [done|] end.
    rewrite searchCloseKeys_forget.
    destruct (searchCloseKeys D st index c (toBaseLowerCase U c) 1
                (seqZ 1 (MAX_PROXIMITY_CHARS_SIZE D - 1))) as [[j|j]|]; [done| |done].
    cbn. destruct (j <? MAX_PROXIMITY_CHARS_SIZE D); [|done].
    change (getProximityCodePointsAt D (forget st) index j)
      with (getProximityCodePointsAt D st index j).
    destruct (getProximityCodePointsAt D st index j) as [cp|]; [|done]. cbn.
    destruct (cp =? ADDITIONAL_PROXIMITY_CHAR_DELIMITER_CODE D); [|done].
    by rewrite searchCloseKeys_forget.
  - unfold getMostProbableString.
    change (mSampledInputSize (forget st)) with (mSampledInputSize st).
    by rewrite mostProbableStringLoop_forget.
Qed.


(** ** The distance cache and the near keys *)

Lemma nearKeys_row (pinfo : ProximityInfo) (sv : SampledVectors) (keyCount i : Z)
    (dc0 : list float) (nk0 : list Z) (dc : list float) (nk : list Z) :
  rd nk0 i = Some 0 ->
  for_range 0 keyCount (nearKeysStep D pinfo sv keyCount i) (dc0, nk0) = Some (dc, nk) ->
  (forall k, 0 <= k < keyCount ->
     exists bits d, rd nk i = Some bits /\ rd dc (i * keyCount + k) = Some d /\
                    Z.testbit bits k = flt d NEAR_KEY_NORMALIZED_SQUARED_THRESHOLD) /\
  (forall i', i' <> i -> rd nk i' = rd nk0 i') /\
  (forall idx, ~ (i * keyCount <= idx < i * keyCount + keyCount) -> rd dc idx = rd dc0 idx).
Proof.
  intros Hreset Hrun.
  destruct (Z.le_gt_cases 0 keyCount) as [Hk|Hk];
    [|rewrite for_range_empty in Hrun by lia; injection Hrun as <- <-;
      split; [intros; lia|done]].
  set (P := fun (k' : Z) (acc : list float * list Z) =>
    exists bits, rd acc.2 i = Some bits /\
      (forall k, 0 <= k < k' ->
         exists d, rd acc.1 (i * keyCount + k) = Some d /\
                   Z.testbit bits k = flt d NEAR_KEY_NORMALIZED_SQUARED_THRESHOLD) /\
      (forall k, k' <= k -> Z.testbit bits k = false) /\
      (forall i', i' <> i -> rd acc.2 i' = rd nk0 i') /\
      (forall idx, ~ (i * keyCount <= idx < i * keyCount + k') ->
         rd acc.1 idx = rd dc0 idx)).
  assert (HP : P keyCount (dc, nk)).
  { eapply (for_range_invariant P); [exact Hk| | |exact Hrun].
    - exists 0. cbn. split; [done|]. split; [intros; lia|]. split; [|done].
      intros k _. apply Z.testbit_0_l.
    - intros k [dc1 nk1] [dc2 nk2] Hkr (bits & Hb & Hdone & Htodo & Hrows & Hrest) Hbody.
      cbn in Hb, Hdone, Htodo, Hrows, Hrest. unfold nearKeysStep in Hbody.
      destruct (rd (svXs sv) i) as [x|]; [|done]. cbn [mbind option_bind] in Hbody.
      destruct (rd (svYs sv) i) as [y|]; [|done]. cbn [mbind option_bind] in Hbody.
      set (d := getNormalizedSquaredDistanceFromCenterFloatG pinfo k x y) in *.
      destruct (wr dc1 (i * keyCount + k) d) as [dc3|] eqn:Ew; [|done].
      cbn [mbind option_bind] in Hbody.
      assert (Hdc : forall k2, 0 <= k2 < k + 1 ->
                exists d2, rd dc3 (i * keyCount + k2) = Some d2 /\
                  (k2 <> k -> Z.testbit bits k2 = flt d2 NEAR_KEY_NORMALIZED_SQUARED_THRESHOLD)
                  /\ (k2 = k -> d2 = d)).
      { intros k2 Hk2. destruct (Z.eq_dec k2 k) as [->|Hne].
        - exists d. split; [by eapply rd_wr_eq|done].
        - destruct (Hdone k2) as (d2 & Hd2 & Ht); [lia|]. exists d2.
          rewrite (rd_wr_ne _ _ _ _ _ Ew) by lia. done. }
      assert (Hrest' : forall idx, ~ (i * keyCount <= idx < i * keyCount + (k + 1)) ->
                rd dc3 idx = rd dc0 idx).
      { intros idx Hidx. rewrite (rd_wr_ne _ _ _ _ _ Ew) by lia. apply Hrest. lia. }
      destruct (flt d NEAR_KEY_NORMALIZED_SQUARED_THRESHOLD) eqn:Enear.
      + rewrite Hb in Hbody. cbn [mbind option_bind] in Hbody.
        destruct ((0 <=? k) && (k <? MAX_KEY_COUNT_IN_A_KEYBOARD D)); [|done].
        destruct (wr nk1 i (Z.setbit bits k)) as [nk3|] eqn:Ewn; [|done].
        cbn [mbind option_bind] in Hbody. injection Hbody as <- <-.
        exists (Z.setbit bits k). cbn. split; [by eapply rd_wr_eq|].
        split; [|split; [|split; [|done]]].
        * intros k2 Hk2. destruct (Hdc k2 Hk2) as (d2 & Hd2 & Hne & Heq).
          exists d2. split; [done|]. destruct (Z.eq_dec k2 k) as [->|Hk2k].
          -- rewrite Z.setbit_eq by lia. by rewrite (Heq eq_refl).
          -- rewrite Z.setbit_neq by lia. by apply Hne.
        * intros k2 Hk2. rewrite Z.setbit_neq by lia. apply Htodo. lia.
        * intros i' Hi'. rewrite (rd_wr_ne _ _ _ _ _ Ewn) by lia. by apply Hrows.
      + injection Hbody as <- <-. exists bits. cbn. split; [done|].
        split; [|split; [|split; [done|done]]].
        * intros k2 Hk2. destruct (Hdc k2 Hk2) as (d2 & Hd2 & Hne & Heq).
          exists d2. split; [done|]. destruct (Z.eq_dec k2 k) as [->|Hk2k].
          -- rewrite (Heq eq_refl), Enear. apply Htodo. lia.
          -- by apply Hne.
        * intros k2 Hk2. apply Htodo. lia. }
  destruct HP as (bits & Hb & Hdone & _ & Hrows & Hrest). cbn in *.
  split; [|done].
  intros k Hk'. destruct (Hdone k Hk') as (d & Hd & Ht). by exists bits, d.
Qed.

Lemma nearKeys_rows (pinfo : ProximityInfo) (sv : SampledVectors) (keyCount lo hi : Z)
    (dc0 : list float) (nk0 sk0 : list Z) (dc : list float) (nk sk : list Z) :
  0 <= lo -> lo <= hi ->
  for_range lo hi (nearKeysOfPoint D pinfo sv keyCount) (dc0, nk0, sk0)
    = Some (dc, nk, sk) ->
  (forall i k, lo <= i < hi -> 0 <= k < keyCount ->
     exists bits d, rd nk i = Some bits /\ rd dc (i * keyCount + k) = Some d /\
                    Z.testbit bits k = flt d NEAR_KEY_NORMALIZED_SQUARED_THRESHOLD) /\
  (forall i, 0 <= i < lo -> rd nk i = rd nk0 i) /\
  (forall i k, 0 <= i < lo -> 0 <= k < keyCount ->
     rd dc (i * keyCount + k) = rd dc0 (i * keyCount + k)).
Proof.
  intros Hlo Hle Hrun.
  set (Q := fun (i' : Z) (acc : list float * list Z * list Z) =>
    (forall i k, lo <= i < i' -> 0 <= k < keyCount ->
       exists bits d, rd acc.1.2 i = Some bits /\ rd acc.1.1 (i * keyCount + k) = Some d /\
                      Z.testbit bits k = flt d NEAR_KEY_NORMALIZED_SQUARED_THRESHOLD) /\
    (forall i, 0 <= i < lo -> rd acc.1.2 i = rd nk0 i) /\
    (forall i k, 0 <= i < lo -> 0 <= k < keyCount ->
       rd acc.1.1 (i * keyCount + k) = rd dc0 (i * keyCount + k))).
  enough (HQ : Q hi (dc, nk, sk)) by apply HQ.
  eapply (for_range_invariant Q); [exact Hle| | |exact Hrun].
  - unfold Q. cbn. split; [intros; lia|done].
  - intros i [[dc1 nk1] sk1] [[dc2 nk2] sk2] Hi (Hrows & Hnk & Hdc) Hbody.
    cbn in Hrows, Hnk, Hdc. unfold nearKeysOfPoint in Hbody.
    destruct (wr nk1 i 0) as [nk3|] eqn:Ewn; [|done]. cbn [mbind option_bind] in Hbody.
    destruct (wr sk1 i 0) as [sk3|]; [|done]. cbn [mbind option_bind] in Hbody.
    destruct (for_range 0 keyCount (nearKeysStep D pinfo sv keyCount i) (dc1, nk3))
      as [[dc4 nk4]|] eqn:Erow; [|done].
    cbn [mbind option_bind] in Hbody. injection Hbody as <- <- <-.
    destruct (nearKeys_row pinfo sv keyCount i dc1 nk3 dc4 nk4) as (Hrow & Hother & Hrest);
      [by eapply rd_wr_eq|done|].
    unfold Q. cbn. split; [|split].
    + intros i2 k Hi2 Hk. destruct (Z.eq_dec i2 i) as [->|Hne]; [by apply Hrow|].
      destruct (Hrows i2 k) as (bits & d & Hb & Hd & Ht); [lia|done|].
      exists bits, d. rewrite (Hother i2 Hne), (rd_wr_ne _ _ _ _ _ Ewn) by lia.
      rewrite Hrest by nia. done.
    + intros i2 Hi2. rewrite Hother by lia. rewrite (rd_wr_ne _ _ _ _ _ Ewn) by lia.
      by apply Hnk.
    + intros i2 k Hi2 Hk. rewrite Hrest by nia. by apply Hdc.
Qed.

Lemma removelast_length_le {A} (l : list A) : (length (removelast l) <= length l)%nat.
Proof.
  induction l as [|y l IH]; [done|].
  destruct l as [|z l]; [cbn; lia|].
  change (removelast (y :: z :: l)) with (y :: removelast (z :: l)).
  cbn [length] in *. lia.
Qed.

Lemma pop_back_length {A} (v v' : list A) :
  pop_back v = Some v' -> vsize v' <= vsize v.
Proof.
  unfold pop_back, vsize. destruct v as [|x v]; [done|]. intros [= <-].
  pose proof (removelast_length_le (x :: v)) as H.
  change (removelast (x :: v))
    with (match v with [] => [] | _ :: _ => x :: removelast v end) in H. lia.
Qed.

Lemma popInputData_Xs (sv sv' : SampledVectors) :
  popInputData sv = Some sv' -> vsize (svXs sv') <= vsize (svXs sv).
Proof.
  unfold popInputData. intros H.
  destruct (pop_back (svXs sv)) as [xs|] eqn:Ex; [|done]. cbn [mbind option_bind] in H.
  destruct (pop_back (svYs sv)); [|done]. cbn [mbind option_bind] in H.
  destruct (pop_back (svTimes sv)); [|done]. cbn [mbind option_bind] in H.
  destruct (pop_back (svLengthCache sv)); [|done]. cbn [mbind option_bind] in H.
  destruct (pop_back (svIndice sv)); [|done]. cbn [mbind option_bind] in H.
  injection H as <-. cbn. by apply pop_back_length.
Qed.

Lemma rd_resize {A} (n : nat) (x0 : A) (l : list A) (i : Z) (x : A) :
  i < Z.of_nat n -> rd l i = Some x -> rd (resize n x0 l) i = Some x.
Proof.
  intros Hi Hrd. pose proof (rd_Some_range _ _ _ Hrd) as Hr. unfold rd, vsize in *.
  destruct (0 <=? i); [|done]. rewrite lookup_resize by lia. done.
Qed.

Lemma forM_preserves {T B} (f : T -> B) (body : Z -> T -> option T) (idxs : list Z)
    (s s' : T) :
  (forall i t t', body i t = Some t' -> f t' = f t) ->
  forM body idxs s = Some s' -> f s' = f s.
Proof.
  intros Hbody. revert s. induction idxs as [|i rest IH]; intros s Hrun.
  - by injection Hrun as <-.
  - cbn in Hrun. destruct (body i s) as [t|] eqn:Eb; [|done]. cbn in Hrun.
    rewrite (IH _ Hrun). by eapply Hbody.
Qed.

Lemma normalizedSquaredDistancesStep_view (i : Z) (idxs : list Z) (st st' : State) :
  normalizedSquaredDistancesStep D st i idxs = Some st' ->
  nearKeysView st' = nearKeysView st.
Proof.
  revert st. induction idxs as [|j rest IH]; intros st Hrun.
  - by injection Hrun as <-.
  - cbn [normalizedSquaredDistancesStep] in Hrun.
    destruct (getProximityCodePointsAt D st i j) as [cp|]; [|done].
    cbn [mbind option_bind] in Hrun.
    destruct (0 <? cp); [|by injection Hrun as <-].
    destruct (mProximityInfo st) as [pinfo|]; [|done]. cbn [mbind option_bind] in Hrun.
    match type of Hrun with mbind _ ?o = _ => destruct o as [sd|]; [|done] end.
    cbn [mbind option_bind] in Hrun.
    match type of Hrun with mbind _ ?o = _ => destruct o as [v|]; [|done] end.
    cbn [mbind option_bind] in Hrun.
    match type of Hrun with mbind _ ?o = _ => destruct o as [a|]; [|done] end.
    cbn [mbind option_bind] in Hrun. by rewrite (IH _ Hrun).
Qed.

Lemma primaryInputWordAndDistances_view (st st' : State) (pointerId inputSize : Z)
    (xCoordinates yCoordinates : option (list Z)) (isGeometric : bool) :
  primaryInputWordAndDistances D st pointerId inputSize xCoordinates yCoordinates
    isGeometric = Some st' ->
  nearKeysView st' = nearKeysView st.
Proof.
  unfold primaryInputWordAndDistances. intros Hrun.
  destruct (negb isGeometric && (pointerId =? 0)); [|by injection Hrun as <-].
  destruct (for_range 0 inputSize (primaryInputWordStep D) st) as [st1|] eqn:E1; [|done].
  cbn [mbind option_bind] in Hrun.
  assert (H1 : nearKeysView st1 = nearKeysView st).
  { eapply forM_preserves; [|exact E1]. intros i t t' Hstep.
    unfold primaryInputWordStep in Hstep.
    destruct (getPrimaryCodePointAt D t i); [|done]. cbn [mbind option_bind] in Hstep.
    destruct (wr (mPrimaryInputWord t) i z); [|done]. cbn [mbind option_bind] in Hstep.
    by injection Hstep as <-. }
  destruct (mTouchPositionCorrectionEnabled st1); [|by injection Hrun as <-].
  rewrite <- H1. eapply forM_preserves; [|exact Hrun]. intros i t t' Hstep.
  unfold normalizedSquaredDistancesOfPoint in Hstep.
  destruct (getProximityCodePointsAt D t i 0); [|done]. cbn [mbind option_bind] in Hstep.
  destruct (rdp xCoordinates i); [|done]. cbn [mbind option_bind] in Hstep.
  destruct (rdp yCoordinates i); [|done]. cbn [mbind option_bind] in Hstep.
  by eapply normalizedSquaredDistancesStep_view.
Qed.

Ltac bind_inv H :=
  match type of H with
  | mbind _ ?o = Some _ =>
      let E := fresh "E" in
      destruct o eqn:E; [cbn [mbind option_bind] in H | discriminate H]
  end.

Lemma init_nearKeysInvariant (pinfo : ProximityInfo) (st st' : State) (a : InitArgs) :
  returnsSampleCount U ->
  argIsGeometric a = false \/ keepsNearKeys U ->
  nearKeysInvariant (getKeyCount pinfo) st ->
  init D U pinfo st a = Some st' ->
  nearKeysInvariant (getKeyCount pinfo) st'.
Proof.
  intros Hcount Hkeep [Hagree Hsize] Hrun. unfold init, initInputParams in Hrun.
  bind_inv Hrun. rename b into c. clear E.
  bind_inv Hrun. clear E.
  set (update := c && (1 <? vsize (mInputIndice st))) in *.
  bind_inv Hrun. clear E.
  bind_inv Hrun. rename s into sv0, E into Esv0.
  bind_inv Hrun. destruct p as [n sv]. rename E into Esample.
  bind_inv Hrun. destruct p as [[[avg sr] dirs] bl]. clear E.
  bind_inv Hrun. destruct p as [[[dc nk] sk] cp]. rename E into Ecaches.
  apply primaryInputWordAndDistances_view in Hrun. unfold nearKeysView in Hrun.
  cbn in Hrun. injection Hrun as Hnk Hdc Hxs Hn.
  set (kc := getKeyCount pinfo) in *.
  set (lastSaved := if update then vsize (svXs sv0) else 0) in *.
  assert (Hlast : vsize (svXs sv0) = lastSaved /\ 0 <= lastSaved /\
                  (update = true -> lastSaved <= vsize (mSampledInputXs st))).
  { unfold lastSaved. destruct update.
    - split; [done|]. split; [unfold vsize; lia|]. intros _.
      bind_inv Esv0. apply popInputData_Xs in E, Esv0. cbn in E. lia.
    - injection Esv0 as <-. cbn. done. }
  destruct Hlast as (Hsv0 & Hlast0 & Hlast).
  assert (Hcnt : n = vsize (svXs sv) \/ (n = 0 /\ sv = sv0)).
  { destruct (argXCoordinates a); [destruct (argYCoordinates a)|].
    - left. by eapply Hcount.
    - right. by injection Esample as <- <-.
    - right. by injection Esample as <- <-. }
  assert (Hkept : forall i k, 0 <= i < lastSaved -> 0 <= k < kc ->
            exists bits d,
              rd (keepIf update (mNearKeysVector st)) i = Some bits /\
              rd (keepIf update (mDistanceCache_G st)) (i * kc + k) = Some d /\
              Z.testbit bits k = flt d NEAR_KEY_NORMALIZED_SQUARED_THRESHOLD).
  { intros i k Hi Hk. destruct update eqn:Eu.
    - cbn [keepIf]. apply Hagree; [|done]. specialize (Hlast eq_refl). lia.
    - unfold lastSaved in Hi. lia. }
  unfold nearKeysInvariant, nearKeysAgree. rewrite Hnk, Hdc, Hxs, Hn.
  destruct (0 <? n) eqn:En; zb.
  - destruct (n * kc <? 0) eqn:Enk; [done|]. zb.
    bind_inv Ecaches. destruct p as [[dc1 nk1] sk1]. rename E into Eloop.
    assert (Hsame : dc = dc1 /\ nk = nk1).
    { destruct (argIsGeometric a).
      - bind_inv Ecaches. destruct p as [written cp']. rename E into Ealign.
        bind_inv Ecaches. bind_inv Ecaches.
        injection Ecaches as <- <- _ _. split; [done|].
        destruct Hkeep as [Htap|Hkeep]; [done|].
        rewrite (Hkeep _ _ _ _ _ _ _ _ _ _ _ _ _ _ Ealign).
        apply writeNearKeys_same.
      - by injection Ecaches as <- <- _ _. }
    destruct Hsame as [-> ->].
    destruct Hcnt as [Hcnt|[Hcnt _]]; [|lia]. split; [|lia].
    rewrite <- Hcnt. intros i k Hi Hk.
    assert (Hold : lastSaved <= n -> 0 <= i < lastSaved ->
              exists bits d,
                rd (resize (Z.to_nat n) 0 (keepIf update (mNearKeysVector st))) i
                  = Some bits /\
                rd (resize (Z.to_nat (n * kc)) F_0_0 (keepIf update (mDistanceCache_G st)))
                  (i * kc + k) = Some d /\
                Z.testbit bits k = flt d NEAR_KEY_NORMALIZED_SQUARED_THRESHOLD).
    { intros _ Hi'. destruct (Hkept i k Hi' Hk) as (bits & d & Hb & Hd & Ht).
      exists bits, d. split; [apply rd_resize; [lia|done]|].
      split; [apply rd_resize; [nia|done]|done]. }
    destruct (Z.le_gt_cases lastSaved n) as [Hle|Hgt].
    + destruct (nearKeys_rows _ _ _ _ _ _ _ _ _ _ _ Hlast0 Hle Eloop)
        as (Hnew & Hnk1 & Hdc1).
      destruct (Z.lt_ge_cases i lastSaved) as [Hlt|Hge]; [|apply Hnew; lia].
      rewrite Hnk1, Hdc1 by lia. apply Hold; lia.
    + rewrite for_range_empty in Eloop by lia. injection Eloop as <- <- _.
      destruct (Hkept i k) as (bits & d & Hb & Hd & Ht); [lia|done|].
      exists bits, d. split; [apply rd_resize; [lia|done]|].
      split; [apply rd_resize; [nia|done]|done].
  - injection Ecaches as <- <- _ _.
    destruct Hcnt as [Hcnt|[-> ->]].
    + split; [|lia]. intros i k Hi Hk. unfold vsize in *. lia.
    + split; [|unfold vsize; lia]. rewrite Hsv0. intros i k Hi Hk. by apply Hkept.
Qed.

Lemma session_nearKeysInvariant (keyCount : Z) (calls : list (ProximityInfo * InitArgs))
    (st st' : State) :
  returnsSampleCount U ->
  Forall (fun c => getKeyCount c.1 = keyCount) calls ->
  keepsNearKeys U \/ Forall (fun c => argIsGeometric c.2 = false) calls ->
  nearKeysInvariant keyCount st ->
  session D U calls st = Some st' ->
  nearKeysInvariant keyCount st'.
Proof.
  intros Hcount Hkeys Hkeep. revert st.
  induction calls as [|[pinfo a] rest IH]; intros st Hinv Hrun.
  - by injection Hrun as <-.
  - cbn [session] in Hrun. destruct (init D U pinfo st a) as [st1|] eqn:E1; [|done].
    cbn [mbind option_bind] in Hrun.
    apply Forall_cons in Hkeys as [Hkey Hkeys]. cbn in Hkey. subst keyCount.
    apply (IH Hkeys) with (st := st1); [| |done].
    + destruct Hkeep as [Hkeep|Htap]; [by left|]. right.
      by apply Forall_cons in Htap as [_ Htap].
    + eapply init_nearKeysInvariant; [done| |done|done].
      destruct Hkeep as [Hkeep|Htap]; [by right|]. left.
      by apply Forall_cons in Htap as [Htap _].
Qed.

(** C7. Near-key threshold: after the calls of [initInputParams] that a
    session has seen since it was created, each with a geometry provider of
    [keyCount] keys, with a sampler that returns the number of points it
    leaves, and all in tap mode unless the alignment helper leaves the
    near-key sets as it received them, for every sampled point index [i] and
    every key [k] of the keyboard, [k] is a member of the near-key set of [i]
    if and only if the cached normalized squared distance from the point [i]
    to the key [k] is strictly below 4.0. *)
Theorem near_key_threshold (keyCount : Z) (calls : list (ProximityInfo * InitArgs))
    (st : State) :
  returnsSampleCount U ->
  Forall (fun c => getKeyCount c.1 = keyCount) calls ->
  keepsNearKeys U \/ Forall (fun c => argIsGeometric c.2 = false) calls ->
  session D U calls (fresh D) = Some st ->
  forall i k, 0 <= i < mSampledInputSize st -> 0 <= k < keyCount ->
    exists bits d,
      rd (mNearKeysVector st) i = Some bits /\
      rd (mDistanceCache_G st) (i * keyCount + k) = Some d /\
      (Z.testbit bits k = true <-> flt d F_4_0 = true).
Proof.
  intros Hcount Hkeys Hkeep Hrun i k Hi Hk.
  destruct (session_nearKeysInvariant keyCount calls (fresh D) st Hcount Hkeys Hkeep)
    as [Hagree Hsize]; [|done|].
  { split; [|cbn; unfold vsize; cbn; lia].
    intros i' k' Hi'. unfold vsize in Hi'. cbn in Hi'. lia. }
  destruct (Hagree i k) as (bits & d & Hb & Hd & Ht); [lia|done|].
  exists bits, d. split; [done|]. split; [done|].
  unfold NEAR_KEY_NORMALIZED_SQUARED_THRESHOLD in Ht. by rewrite Ht.
Qed.

End Sessions.

Section Calls.

Variable D : Defines.
Variable U : Utils.

(** ** The shape of a call *)

Ltac bind_inv H :=
  match type of H with
  | mbind _ ?o = Some _ =>
      let E := fresh "E" in
      destruct o eqn:E; [cbn [mbind option_bind] in H | discriminate H]
  end.

Lemma primaryInputWordAndDistances_frame (st st' : State) (pointerId inputSize : Z)
    (xCoordinates yCoordinates : option (list Z)) (isGeometric : bool) :
  primaryInputWordAndDistances D st pointerId inputSize xCoordinates yCoordinates
    isGeometric = Some st' ->
  exceptWordAndDistances st' = exceptWordAndDistances st.
Proof.
  unfold primaryInputWordAndDistances. intros Hrun.
  destruct (negb isGeometric && (pointerId =? 0)); [|by injection Hrun as <-].
  destruct (for_range 0 inputSize (primaryInputWordStep D) st) as [st1|] eqn:E1; [|done].
  cbn [mbind option_bind] in Hrun.
  assert (H1 : exceptWordAndDistances st1 = exceptWordAndDistances st).
  { eapply forM_preserves; [|exact E1]. intros i t t' Hstep.
    unfold primaryInputWordStep in Hstep.
    destruct (getPrimaryCodePointAt D t i); [|done]. cbn [mbind option_bind] in Hstep.
    destruct (wr (mPrimaryInputWord t) i z); [|done]. cbn [mbind option_bind] in Hstep.
    by injection Hstep as <-. }
  destruct (mTouchPositionCorrectionEnabled st1); [|by injection Hrun as <-].
  rewrite <- H1. eapply forM_preserves; [|exact Hrun]. intros i t t' Hstep.
  unfold normalizedSquaredDistancesOfPoint in Hstep.
  destruct (getProximityCodePointsAt D t i 0); [|done]. cbn [mbind option_bind] in Hstep.
  destruct (rdp xCoordinates i); [|done]. cbn [mbind option_bind] in Hstep.
  destruct (rdp yCoordinates i); [|done]. cbn [mbind option_bind] in Hstep.
  clear -Hstep. revert t Hstep.
  induction (seqZ 0 (MAX_PROXIMITY_CHARS_SIZE D)) as [|j rest IH]; intros t Hrun.
  - by injection Hrun as <-.
  - cbn [normalizedSquaredDistancesStep] in Hrun.
    destruct (getProximityCodePointsAt D t i j) as [cp|]; [|done].
    cbn [mbind option_bind] in Hrun.
    destruct (0 <? cp); [|by injection Hrun as <-].
    destruct (mProximityInfo t) as [pinfo|]; [|done]. cbn [mbind option_bind] in Hrun.
    match type of Hrun with mbind _ ?o = _ => destruct o as [sd|]; [|done] end.
    cbn [mbind option_bind] in Hrun.
    match type of Hrun with mbind _ ?o = _ => destruct o as [v|]; [|done] end.
    cbn [mbind option_bind] in Hrun.
    match type of Hrun with mbind _ ?o = _ => destruct o as [arr|]; [|done] end.
    cbn [mbind option_bind] in Hrun. by rewrite (IH _ Hrun).
Qed.

(** What a call that returns has done, step by step. *)
Lemma init_shape (pinfo : ProximityInfo) (st st' : State) (a : InitArgs) :
  init D U pinfo st a = Some st' ->
  exists (c update : bool) (lastSaved : Z) (nk1 sk1 : list Z),
    let n := mSampledInputSize st' in
    let kc := getKeyCount pinfo in
    checkAndReturnIsContinuationPossible D st (argInputSize a) (argXCoordinates a)
      (argYCoordinates a) (argTimes a) (argIsGeometric a) = Some c /\
    update = c && (1 <? vsize (mInputIndice st)) /\
    (update = false -> lastSaved = 0) /\ 0 <= lastSaved /\
    mProximityInfo st' = Some pinfo /\
    mMaxPointToKeyLength st' = argMaxPointToKeyLength a /\
    mIsContinuationPossible st' = c /\
    (argXCoordinates a = None \/ argYCoordinates a = None -> n = 0) /\
    mTouchPositionCorrectionEnabled st' =
      (0 <? n) && hasTouchPositionCorrectionData pinfo
      && (match argXCoordinates a, argYCoordinates a with
          | Some _, Some _ => true | _, _ => false end) /\
    if 0 <? n then
      0 <= n * kc /\
      for_range lastSaved n (nearKeysOfPoint D pinfo (sampled st') kc)
        (resize (Z.to_nat (n * kc)) F_0_0 (keepIf update (mDistanceCache_G st)),
         resize (Z.to_nat n) 0 (keepIf update (mNearKeysVector st)),
         resize (Z.to_nat n) 0 (keepIf update (mSearchKeysVector st)))
      = Some (mDistanceCache_G st', nk1, sk1) /\
      if argIsGeometric a then
        (exists written, mNearKeysVector st' = writeNearKeys lastSaved nk1 written) /\
        exists readForwordLength,
          readForwordLengthOf U pinfo = Some readForwordLength /\
          for_range 0 n
            (searchKeysOfPoint (mLengthCache st') (mNearKeysVector st') readForwordLength
               lastSaved n) sk1
          = Some (mSearchKeysVector st')
      else mNearKeysVector st' = nk1 /\ mSearchKeysVector st' = sk1
    else
      mDistanceCache_G st' = keepIf update (mDistanceCache_G st) /\
      mNearKeysVector st' = keepIf update (mNearKeysVector st) /\
      mSearchKeysVector st' = keepIf update (mSearchKeysVector st).
Proof.
  intros Hrun. unfold init, initInputParams in Hrun.
  bind_inv Hrun. rename b into c. rename E into Echeck.
  bind_inv Hrun. clear E.
  set (update := c && (1 <? vsize (mInputIndice st))) in *.
  bind_inv Hrun. clear E.
  bind_inv Hrun. rename s into sv0, E into Esv0.
  bind_inv Hrun. destruct p as [n sv]. rename E into Esample.
  bind_inv Hrun. destruct p as [[[avg sr] dirs] bl]. clear E.
  bind_inv Hrun. destruct p as [[[dc nk] sk] cp]. rename E into Ecaches.
  apply primaryInputWordAndDistances_frame in Hrun.
  assert (Hn : mSampledInputSize st' = n) by exact (f_equal mSampledInputSize Hrun).
  assert (Hsv : sampled st' = sv).
  { transitivity (sampled (exceptWordAndDistances st')); [done|].
    rewrite Hrun. by destruct sv. }
  assert (Hdc : mDistanceCache_G st' = dc) by exact (f_equal mDistanceCache_G Hrun).
  assert (Hnk : mNearKeysVector st' = nk) by exact (f_equal mNearKeysVector Hrun).
  assert (Hsk : mSearchKeysVector st' = sk) by exact (f_equal mSearchKeysVector Hrun).
  assert (Hp : mProximityInfo st' = Some pinfo) by exact (f_equal mProximityInfo Hrun).
  assert (Hmax : mMaxPointToKeyLength st' = argMaxPointToKeyLength a)
    by exact (f_equal mMaxPointToKeyLength Hrun).
  assert (Hc : mIsContinuationPossible st' = c)
    by exact (f_equal mIsContinuationPossible Hrun).
  assert (Ht : mTouchPositionCorrectionEnabled st' = _)
    by exact (f_equal mTouchPositionCorrectionEnabled Hrun).
  assert (Hlen : mLengthCache st' = svLengthCache sv)
    by exact (f_equal mLengthCache Hrun).
  cbn in Ht.
  exists c, update, (if update then vsize (svXs sv0) else 0).
  assert (Hlast : 0 <= (if update then vsize (svXs sv0) else 0))
    by (destruct update; unfold vsize; lia).
  assert (Hnull : argXCoordinates a = None \/ argYCoordinates a = None -> n = 0).
  { intros [E|E]; rewrite E in Esample.
    - by injection Esample as <- _.
    - destruct (argXCoordinates a); by injection Esample as <- _. }
  destruct (0 <? n) eqn:En.
  - destruct (n * getKeyCount pinfo <? 0) eqn:Enk; [done|]. apply Z.ltb_ge in Enk.
    bind_inv Ecaches. destruct p as [[dc1 nk1] sk1]. rename E into Eloop.
    exists nk1, sk1. cbn zeta. rewrite Hn, En, Hsv, Hdc, Hnk, Hsk, Hp, Hmax, Hc, Ht, Hlen.
    assert (Hsame : dc1 = dc).
    { destruct (argIsGeometric a).
      - bind_inv Ecaches. destruct p as [written cp']. bind_inv Ecaches. bind_inv Ecaches.
        by injection Ecaches as <- _ _ _.
      - by injection Ecaches as <- _ _ _. }
    subst dc1.
    repeat (split; [first [done | by destruct update]|]).
    destruct (argIsGeometric a).
    + bind_inv Ecaches. destruct p as [written cp']. bind_inv Ecaches. bind_inv Ecaches.
      injection Ecaches as <- <- _. split; [by exists written|].
      eexists. split; eassumption.
    + by injection Ecaches as <- <- _.
  - exists [], []. cbn zeta. rewrite Hn, En, Hdc, Hnk, Hsk, Hp, Hmax, Hc, Ht.
    injection Ecaches as <- <- <- _.
    repeat (split; [first [done | by destruct update]|]). done.
Qed.

(** ** The sizes of the caches *)

Lemma nearKeysStep_lengths (pinfo : ProximityInfo) (sv : SampledVectors)
    (keyCount i k : Z) (acc acc' : list float * list Z) :
  nearKeysStep D pinfo sv keyCount i k acc = Some acc' ->
  (length acc'.1, length acc'.2) = (length acc.1, length acc.2).
Proof.
  destruct acc as [dc nk]. unfold nearKeysStep. intros H.
  bind_inv H. bind_inv H. bind_inv H. apply wr_length in E1.
  match type of H with context [if ?b then _ else _] => destruct b end.
  - bind_inv H. destruct ((0 <=? k) && (k <? MAX_KEY_COUNT_IN_A_KEYBOARD D)); [|done].
    bind_inv H. apply wr_length in E3. injection H as <-. cbn. congruence.
  - injection H as <-. cbn. congruence.
Qed.

Lemma nearKeysOfPoint_lengths (pinfo : ProximityInfo) (sv : SampledVectors)
    (keyCount i : Z) (acc acc' : list float * list Z * list Z) :
  nearKeysOfPoint D pinfo sv keyCount i acc = Some acc' ->
  (length acc'.1.1, length acc'.1.2, length acc'.2)
  = (length acc.1.1, length acc.1.2, length acc.2).
Proof.
  destruct acc as [[dc nk] sk]. unfold nearKeysOfPoint. intros H.
  bind_inv H. bind_inv H. bind_inv H. destruct p as [dc' nk']. injection H as <-.
  apply wr_length in E, E0.
  apply (forM_preserves (fun acc : list float * list Z => (length acc.1, length acc.2)))
    in E1; [|intros k t t'; apply nearKeysStep_lengths].
  cbn in *. congruence.
Qed.

Lemma searchKeysStep_length (lengthCache nearKeys : list Z) (readForwordLength i : Z)
    (idxs searchKeys searchKeys' : list Z) :
  searchKeysStep lengthCache nearKeys readForwordLength i idxs searchKeys
    = Some searchKeys' ->
  length searchKeys' = length searchKeys.
Proof.
  revert searchKeys. induction idxs as [|j rest IH]; intros searchKeys H.
  - by injection H as <-.
  - cbn [searchKeysStep] in H. bind_inv H. bind_inv H.
    destruct (readForwordLength <=? int32 (z - z0)); [by injection H as <-|].
    bind_inv H. bind_inv H. bind_inv H. apply wr_length in E3.
    rewrite (IH _ H). done.
Qed.

Lemma searchKeysOfPoint_length (lengthCache nearKeys : list Z)
    (readForwordLength lastSaved n i : Z) (searchKeys searchKeys' : list Z) :
  searchKeysOfPoint lengthCache nearKeys readForwordLength lastSaved n i searchKeys
    = Some searchKeys' ->
  length searchKeys' = length searchKeys.
Proof.
  unfold searchKeysOfPoint. intros H. bind_inv H.
  apply searchKeysStep_length in H. rewrite H.
  destruct (lastSaved <=? i); [by apply wr_length in E|by injection E as <-].
Qed.

Lemma cache_sizes_aux (pinfo : ProximityInfo) (st st' : State) (a : InitArgs) :
  init D U pinfo st a = Some st' ->
  mProximityInfo st' = Some pinfo /\
  mMaxPointToKeyLength st' = argMaxPointToKeyLength a /\
  (0 < mSampledInputSize st' ->
   vsize (mNearKeysVector st') = mSampledInputSize st' /\
   vsize (mSearchKeysVector st') = mSampledInputSize st' /\
   vsize (mDistanceCache_G st') = mSampledInputSize st' * getKeyCount pinfo).
Proof.
  intros Hrun.
  destruct (init_shape pinfo st st' a Hrun)
    as (c & update & lastSaved & nk1 & sk1 & _ & _ & _ & _ & Hp & Hmax & _ & _ & _
        & Hcaches).
  split; [done|]. split; [done|]. intros Hn.
  cbn zeta in Hcaches.
  replace (0 <? mSampledInputSize st') with true in Hcaches
    by (symmetry; by apply Z.ltb_lt).
  destruct Hcaches as (Hnk & Hloop & Hsearch).
  apply (forM_preserves
           (fun acc : list float * list Z * list Z =>
              (length acc.1.1, length acc.1.2, length acc.2))) in Hloop;
    [|intros i t t'; apply nearKeysOfPoint_lengths].
  cbn in Hloop. rewrite !length_resize in Hloop. injection Hloop as Hdc Hnear Hsk1.
  assert (Hsk : length (mNearKeysVector st') = length nk1 /\
                length (mSearchKeysVector st') = length sk1).
  { destruct (argIsGeometric a); [|by destruct Hsearch as [-> ->]].
    destruct Hsearch as ((written & Hwritten) & rfl & _ & Hsearch).
    split; [rewrite Hwritten; apply writeNearKeys_length|].
    apply (forM_preserves (fun sk : list Z => length sk)) in Hsearch; [done|].
    intros i t t'. apply searchKeysOfPoint_length. }
  unfold vsize. lia.
Qed.

(** X1. After a call that sampled at least one point, the near-key vector and
    the search-key vector hold one set for each sampled point, and the
    distance cache one distance for each sampled point and each key. *)
Theorem cache_sizes (pinfo : ProximityInfo) (st st' : State) (a : InitArgs) :
  init D U pinfo st a = Some st' ->
  0 < mSampledInputSize st' ->
  vsize (mNearKeysVector st') = mSampledInputSize st' /\
  vsize (mSearchKeysVector st') = mSampledInputSize st' /\
  vsize (mDistanceCache_G st') = mSampledInputSize st' * getKeyCount pinfo.
Proof.
  intros Hrun Hn. by apply (cache_sizes_aux pinfo st st' a Hrun).
Qed.

(** X2. After a call, at every sampled point and for every code point that
    has a key on the keyboard, [getPointToKeyLength] is defined and its value
    is not above the [maxPointToKeyLength] of the call. *)
Theorem pointToKeyLength_after_init (pinfo : ProximityInfo) (st st' : State)
    (a : InitArgs) (inputIndex codePoint : Z) (scale : float) :
  init D U pinfo st a = Some st' ->
  0 <= inputIndex < mSampledInputSize st' ->
  getKeyIndexOf pinfo codePoint <> NOT_AN_INDEX D ->
  0 <= getKeyIndexOf pinfo codePoint < getKeyCount pinfo ->
  exists v, getPointToKeyLength D U st' inputIndex codePoint scale = Some v /\
            flt (argMaxPointToKeyLength a) v = false.
Proof.
  intros Hrun Hi Hkey Hk.
  destruct (cache_sizes_aux pinfo st st' a Hrun) as (Hp & Hmax & Hsize).
  destruct Hsize as (_ & _ & Hsize); [lia|].
  unfold getPointToKeyLength. rewrite Hp. cbn.
  destruct (getKeyIndexOf pinfo codePoint =? NOT_AN_INDEX D) eqn:E; zb; [done|]. cbn.
  destruct (rd_is_Some (mDistanceCache_G st')
              (inputIndex * getKeyCount pinfo + getKeyIndexOf pinfo codePoint))
    as [d Ed]; [rewrite Hsize; nia|].
  rewrite Ed. cbn. eexists. split; [done|]. rewrite Hmax. apply fmin_not_above.
Qed.

(** ** The content of the distance cache *)

Lemma distance_row (pinfo : ProximityInfo) (sv : SampledVectors) (keyCount i : Z)
    (dc0 : list float) (nk0 : list Z) (dc : list float) (nk : list Z) :
  for_range 0 keyCount (nearKeysStep D pinfo sv keyCount i) (dc0, nk0) = Some (dc, nk) ->
  (forall k, 0 <= k < keyCount ->
     exists x y, rd (svXs sv) i = Some x /\ rd (svYs sv) i = Some y /\
       rd dc (i * keyCount + k)
       = Some (getNormalizedSquaredDistanceFromCenterFloatG pinfo k x y)) /\
  (forall idx, ~ (i * keyCount <= idx < i * keyCount + keyCount) -> rd dc idx = rd dc0 idx).
Proof.
  intros Hrun.
  destruct (Z.le_gt_cases 0 keyCount) as [Hk|Hk];
    [|rewrite for_range_empty in Hrun by lia; injection Hrun as <- <-;
      split; [intros; lia|done]].
  set (P := fun (k' : Z) (acc : list float * list Z) =>
    (forall k, 0 <= k < k' ->
       exists x y, rd (svXs sv) i = Some x /\ rd (svYs sv) i = Some y /\
         rd acc.1 (i * keyCount + k)
         = Some (getNormalizedSquaredDistanceFromCenterFloatG pinfo k x y)) /\
    (forall idx, ~ (i * keyCount <= idx < i * keyCount + k') ->
       rd acc.1 idx = rd dc0 idx)).
  assert (HP : P keyCount (dc, nk)).
  { eapply (for_range_invariant P); [exact Hk| | |exact Hrun].
    - split; [intros; lia|done].
    - intros k [dc1 nk1] [dc2 nk2] Hkr [Hdone Hrest] Hbody. cbn in Hdone, Hrest.
      unfold nearKeysStep in Hbody.
      destruct (rd (svXs sv) i) as [x|] eqn:Ex; [|done]. cbn [mbind option_bind] in Hbody.
      destruct (rd (svYs sv) i) as [y|] eqn:Ey; [|done]. cbn [mbind option_bind] in Hbody.
      set (d := getNormalizedSquaredDistanceFromCenterFloatG pinfo k x y) in *.
      destruct (wr dc1 (i * keyCount + k) d) as [dc3|] eqn:Ew; [|done].
      cbn [mbind option_bind] in Hbody.
      assert (Hdc2 : dc2 = dc3).
      { destruct (flt d NEAR_KEY_NORMALIZED_SQUARED_THRESHOLD).
        - bind_inv Hbody.
          destruct ((0 <=? k) && (k <? MAX_KEY_COUNT_IN_A_KEYBOARD D)); [|done].
          bind_inv Hbody. by injection Hbody as <- _.
        - by injection Hbody as <- _. }
      subst dc2. split; cbn.
      + intros k2 Hk2. destruct (Z.eq_dec k2 k) as [->|Hne].
        * exists x, y. split; [done|]. split; [done|]. by eapply rd_wr_eq.
        * rewrite (rd_wr_ne _ _ _ _ _ Ew) by lia. apply Hdone. lia.
      + intros idx Hidx. rewrite (rd_wr_ne _ _ _ _ _ Ew) by lia. apply Hrest. lia. }
  exact HP.
Qed.

Lemma distance_rows (pinfo : ProximityInfo) (sv : SampledVectors) (keyCount lo hi : Z)
    (dc0 : list float) (nk0 sk0 : list Z) (dc : list float) (nk sk : list Z) :
  0 <= lo -> lo <= hi ->
  for_range lo hi (nearKeysOfPoint D pinfo sv keyCount) (dc0, nk0, sk0)
    = Some (dc, nk, sk) ->
  forall i k, lo <= i < hi -> 0 <= k < keyCount ->
    exists x y, rd (svXs sv) i = Some x /\ rd (svYs sv) i = Some y /\
      rd dc (i * keyCount + k)
      = Some (getNormalizedSquaredDistanceFromCenterFloatG pinfo k x y).
Proof.
  intros Hlo Hle Hrun.
  set (Q := fun (i' : Z) (acc : list float * list Z * list Z) =>
    forall i k, lo <= i < i' -> 0 <= k < keyCount ->
      exists x y, rd (svXs sv) i = Some x /\ rd (svYs sv) i = Some y /\
        rd acc.1.1 (i * keyCount + k)
        = Some (getNormalizedSquaredDistanceFromCenterFloatG pinfo k x y)).
  enough (HQ : Q hi (dc, nk, sk)) by apply HQ.
  eapply (for_range_invariant Q); [exact Hle| | |exact Hrun].
  - intros i k Hi. lia.
  - intros i [[dc1 nk1] sk1] [[dc2 nk2] sk2] Hi Hrows Hbody.
    unfold nearKeysOfPoint in Hbody.
    bind_inv Hbody. bind_inv Hbody. bind_inv Hbody. destruct p as [dc4 nk4].
    injection Hbody as <- <- <-.
    destruct (distance_row pinfo sv keyCount i _ _ _ _ E1) as [Hrow Hrest].
    intros i2 k Hi2 Hk. cbn. destruct (Z.eq_dec i2 i) as [->|Hne]; [by apply Hrow|].
    rewrite Hrest by nia. apply Hrows; [lia|done].
Qed.

(** X3. After a call that does not continue the session, the distance cache
    holds, for every sampled point and every key, the normalized squared
    distance that the geometry provider gives from the sampled coordinates of
    the point to the key. *)
Theorem distance_cache_content (pinfo : ProximityInfo) (st st' : State) (a : InitArgs) :
  startsAfresh D st a ->
  init D U pinfo st a = Some st' ->
  forall i k, 0 <= i < mSampledInputSize st' -> 0 <= k < getKeyCount pinfo ->
    exists x y,
      rd (mSampledInputXs st') i = Some x /\ rd (mSampledInputYs st') i = Some y /\
      rd (mDistanceCache_G st') (i * getKeyCount pinfo + k)
      = Some (getNormalizedSquaredDistanceFromCenterFloatG pinfo k x y).
Proof.
  intros (c0 & Hc0 & Hfresh) Hrun i k Hi Hk.
  destruct (init_shape pinfo st st' a Hrun)
    as (c & update & lastSaved & nk1 & sk1 & Hc & Hupdate & Hlast & _ & _ & _ & _ & _ & _
        & Hcaches).
  assert (update = false) as Hu by congruence.
  rewrite (Hlast Hu) in Hcaches. cbn zeta in Hcaches.
  replace (0 <? mSampledInputSize st') with true in Hcaches
    by (symmetry; apply Z.ltb_lt; lia).
  destruct Hcaches as (_ & Hloop & _).
  assert (Hle : 0 <= mSampledInputSize st') by lia.
  exact (distance_rows _ _ _ _ _ _ _ _ _ _ _ (Z.le_refl 0) Hle Hloop i k Hi Hk).
Qed.

(** ** The search keys *)

Lemma searchKeysStep_spec (lengthCache nearKeys : list Z) (readForwordLength i : Z)
    (idxs searchKeys0 searchKeys : list Z) (s0 : Z) :
  rd searchKeys0 i = Some s0 ->
  searchKeysStep lengthCache nearKeys readForwordLength i idxs searchKeys0
    = Some searchKeys ->
  (forall i', i' <> i -> rd searchKeys i' = rd searchKeys0 i') /\
  exists s, rd searchKeys i = Some s /\
    forall k, Z.testbit s k = true <->
      Z.testbit s0 k = true \/
      exists pre j post nbits,
        idxs = pre ++ j :: post /\
        (forall j', j' ∈ pre ++ [j] -> withinReach lengthCache readForwordLength i j') /\
        rd nearKeys j = Some nbits /\ Z.testbit nbits k = true.
Proof.
  revert searchKeys0 s0. induction idxs as [|j rest IH]; intros searchKeys0 s0 Hs0 Hrun.
  - injection Hrun as <-. split; [done|]. exists s0. split; [done|]. intros k.
    split; [by left|]. intros [H|(pre & j & post & nbits & Hsplit & _)]; [done|].
    by destruct pre.
  - cbn [searchKeysStep] in Hrun.
    destruct (rd lengthCache j) as [lj|] eqn:Elj; [|done]. cbn [mbind option_bind] in Hrun.
    destruct (rd lengthCache i) as [li|] eqn:Eli; [|done]. cbn [mbind option_bind] in Hrun.
    destruct (readForwordLength <=? int32 (lj - li)) eqn:Efar; zb.
    + injection Hrun as <-. split; [done|]. exists s0. split; [done|]. intros k.
      split; [by left|]. intros [H|(pre & j0 & post & nbits & Hsplit & Hreach & _)]; [done|].
      exfalso. destruct (Hreach j) as (lj' & li' & Hlj' & Hli' & Hlt).
      { destruct pre as [|p pre]; injection Hsplit as <- _; by left. }
      rewrite Elj in Hlj'. rewrite Eli in Hli'. injection Hlj' as <-. injection Hli' as <-.
      lia.
    + rewrite Hs0 in Hrun. cbn [mbind option_bind] in Hrun.
      destruct (rd nearKeys j) as [nj|] eqn:Enj; [|done]. cbn [mbind option_bind] in Hrun.
      destruct (wr searchKeys0 i (Z.lor s0 nj)) as [searchKeys1|] eqn:Ew; [|done].
      cbn [mbind option_bind] in Hrun.
      destruct (IH searchKeys1 (Z.lor s0 nj) (rd_wr_eq _ _ _ _ Ew) Hrun)
        as (Hother & s & Hs & Hbits).
      split.
      { intros i' Hi'. rewrite Hother by done. by rewrite (rd_wr_ne _ _ _ _ _ Ew). }
      exists s. split; [done|]. intros k. rewrite Hbits, Z.lor_spec, orb_true_iff.
      assert (Hj : withinReach lengthCache readForwordLength i j)
        by (exists lj, li; done).
      split.
      * intros [[H|H]|(pre & j0 & post & nbits & -> & Hreach & Hn & Hk)].
        -- by left.
        -- right. exists [], j, rest, nj. split; [done|]. split; [|done].
           intros j' Hj'. apply list_elem_of_singleton in Hj' as ->. done.
        -- right. exists (j :: pre), j0, post, nbits. split; [done|]. split; [|done].
           intros j' Hj'. cbn in Hj'. apply elem_of_cons in Hj' as [->|Hj']; [done|].
           by apply Hreach.
      * intros [H|(pre & j0 & post & nbits & Hsplit & Hreach & Hn & Hk)]; [by left; left|].
        destruct pre as [|p pre]; injection Hsplit as <- Hrest.
        -- left. right. rewrite Enj in Hn. by injection Hn as <-.
        -- right. exists pre, j0, post, nbits. split; [done|]. split; [|done].
           intros j' Hj'. apply Hreach. by right.
Qed.

(** The splits of an interval at one of its members. *)
Lemma seqZ_split (lo m : Z) (pre : list Z) (j : Z) (post : list Z) :
  seqZ lo m = pre ++ j :: post ->
  lo <= j < lo + m /\ forall j', j' ∈ pre ++ [j] <-> lo <= j' <= j.
Proof.
  intros Hsplit.
  assert (Hat : forall p x, (pre ++ [j]) !! p = Some x -> x = lo + Z.of_nat p).
  { intros p x Hp. assert (Hp' : seqZ lo m !! p = Some x).
    { rewrite Hsplit. change (pre ++ j :: post) with (pre ++ [j] ++ post).
      rewrite app_assoc. by apply lookup_app_l_Some. }
    by apply lookup_seqZ in Hp' as [-> _]. }
  assert (Hj : j = lo + Z.of_nat (length pre) /\ Z.of_nat (length pre) < m).
  { assert (Hp' : seqZ lo m !! length pre = Some j)
      by (rewrite Hsplit; apply list_lookup_middle; done).
    by apply lookup_seqZ in Hp'. }
  destruct Hj as [Hj Hm]. split; [lia|]. intros j'. split.
  - intros Hin. apply list_elem_of_lookup in Hin as [p Hp].
    pose proof (lookup_lt_Some _ _ _ Hp) as Hlt. rewrite length_app in Hlt. cbn in Hlt.
    apply Hat in Hp. lia.
  - intros Hj'. apply list_elem_of_lookup. exists (Z.to_nat (j' - lo)).
    destruct (lookup_lt_is_Some_2 (pre ++ [j]) (Z.to_nat (j' - lo))) as [x Hx].
    { rewrite length_app. cbn. lia. }
    rewrite Hx. f_equal. apply Hat in Hx. lia.
Qed.

Lemma seqZ_split_at (lo m j : Z) :
  lo <= j < lo + m ->
  seqZ lo m = seqZ lo (j - lo) ++ j :: seqZ (j + 1) (lo + m - (j + 1)).
Proof.
  intros Hj. replace m with ((j - lo) + (lo + m - j)) at 1 by lia.
  rewrite seqZ_app by lia. f_equal. replace (lo + (j - lo)) with j by lia.
  rewrite seqZ_cons by lia. f_equal. f_equal; lia.
Qed.

(** The rows of the search keys after a gesture call that clears all data. *)
Lemma searchKeys_rows_afresh (pinfo : ProximityInfo) (st st' : State) (a : InitArgs) :
  startsAfresh D st a ->
  argIsGeometric a = true ->
  init D U pinfo st a = Some st' ->
  forall i, 0 <= i < mSampledInputSize st' ->
    exists readForwordLength bits,
      readForwordLengthOf U pinfo = Some readForwordLength /\
      rd (mSearchKeysVector st') i = Some bits /\
      forall k, Z.testbit bits k = true <->
        exists j nbits,
          i <= j < mSampledInputSize st' /\
          (forall j', i <= j' <= j ->
             withinReach (mLengthCache st') readForwordLength i j') /\
          rd (mNearKeysVector st') j = Some nbits /\ Z.testbit nbits k = true.
Proof.
  intros (c0 & Hc0 & Hfresh) Hgeo Hrun i Hi.
  destruct (init_shape pinfo st st' a Hrun)
    as (c & update & lastSaved & nk1 & sk1 & Hc & Hupdate & Hlast & _ & _ & _ & _ & _ & _
        & Hcaches).
  assert (update = false) as Hu by congruence.
  rewrite (Hlast Hu) in Hcaches. cbn zeta in Hcaches.
  replace (0 <? mSampledInputSize st') with true in Hcaches
    by (symmetry; apply Z.ltb_lt; lia).
  rewrite Hgeo in Hcaches. destruct Hcaches as (_ & _ & _ & rfl & Hrfl & Hloop).
  set (n := mSampledInputSize st') in *.
  set (row := fun (i : Z) (sk : list Z) =>
    exists bits, rd sk i = Some bits /\
      forall k, Z.testbit bits k = true <->
        exists j nbits,
          i <= j < n /\
          (forall j', i <= j' <= j -> withinReach (mLengthCache st') rfl i j') /\
          rd (mNearKeysVector st') j = Some nbits /\ Z.testbit nbits k = true).
  set (Q := fun (i' : Z) (sk : list Z) => forall i, 0 <= i < i' -> row i sk).
  assert (HQ : Q n (mSearchKeysVector st')).
  { eapply (for_range_invariant Q); [|  | |exact Hloop]; [lia| |].
    - intros i0 Hi0. lia.
    - intros i0 sk sk' Hi0 Hrows Hbody. unfold searchKeysOfPoint in Hbody.
      replace (0 <=? i0) with true in Hbody by (symmetry; apply Z.leb_le; lia).
      destruct (wr sk i0 0) as [sk0|] eqn:Ew; [|done]. cbn [mbind option_bind] in Hbody.
      replace (Z.max i0 0) with i0 in Hbody by lia.
      destruct (searchKeysStep_spec _ _ _ _ _ _ _ 0 (rd_wr_eq _ _ _ _ Ew) Hbody)
        as (Hother & s & Hs & Hbits).
      intros i1 Hi1. destruct (Z.eq_dec i1 i0) as [->|Hne].
      + exists s. split; [done|]. intros k. rewrite Hbits, Z.testbit_0_l. split.
        * intros [H|(pre & j & post & nbits & Hsplit & Hreach & Hn & Hk)]; [done|].
          apply seqZ_split in Hsplit as [Hj Hmem]. exists j, nbits.
          split; [lia|]. split; [|done]. intros j' Hj'. by apply Hreach, Hmem.
        * intros (j & nbits & Hj & Hreach & Hn & Hk). right.
          exists (seqZ i0 (j - i0)), j, (seqZ (j + 1) (i0 + (n - i0) - (j + 1))), nbits.
          split; [apply seqZ_split_at; lia|]. split; [|done].
          intros j' Hj'. apply Hreach.
          pose proof (seqZ_split_at i0 (n - i0) j ltac:(lia)) as Hsplit.
          apply seqZ_split in Hsplit as [_ Hmem]. by apply Hmem.
      + destruct (Hrows i1) as (bits & Hb & Hbits'); [lia|]. exists bits.
        rewrite Hother by done. rewrite (rd_wr_ne _ _ _ _ _ Ew) by lia. done. }
  destruct (HQ i Hi) as (bits & Hb & Hbits). by exists rfl, bits.
Qed.

(** X4. After a gesture call that does not continue the session, a key is a
    search key of the sampled point [i] exactly when it is a near key of a
    sampled point [j >= i] such that every point from [i] to [j] lies less
    than [readForwordLength] further along the path than [i]: the scan ends
    at the first point that is too far. *)
Theorem search_keys_gesture (pinfo : ProximityInfo) (st st' : State) (a : InitArgs) :
  startsAfresh D st a ->
  argIsGeometric a = true ->
  init D U pinfo st a = Some st' ->
  forall i, 0 <= i < mSampledInputSize st' ->
    exists readForwordLength bits,
      readForwordLengthOf U pinfo = Some readForwordLength /\
      rd (mSearchKeysVector st') i = Some bits /\
      forall k, Z.testbit bits k = true <->
        exists j nbits,
          i <= j < mSampledInputSize st' /\
          (forall j', i <= j' <= j ->
             withinReach (mLengthCache st') readForwordLength i j') /\
          rd (mNearKeysVector st') j = Some nbits /\ Z.testbit nbits k = true.
Proof. exact (searchKeys_rows_afresh pinfo st st' a). Qed.

Lemma forM_fixed {T} (body : Z -> T -> option T) (idxs : list Z) (s : T) :
  (forall i, i ∈ idxs -> body i s = Some s) -> forM body idxs s = Some s.
Proof.
  induction idxs as [|i rest IH]; intros Hbody; [done|].
  cbn. rewrite Hbody by (by left). cbn. apply IH. intros j Hj. apply Hbody. by right.
Qed.

Lemma searchKeys_reset (pinfo : ProximityInfo) (sv : SampledVectors) (keyCount lo hi : Z)
    (dc0 : list float) (nk0 sk0 : list Z) (dc : list float) (nk sk : list Z) :
  lo <= hi ->
  for_range lo hi (nearKeysOfPoint D pinfo sv keyCount) (dc0, nk0, sk0)
    = Some (dc, nk, sk) ->
  forall i, lo <= i < hi -> rd sk i = Some 0.
Proof.
  intros Hle Hrun.
  set (Q := fun (i' : Z) (acc : list float * list Z * list Z) =>
    forall i, lo <= i < i' -> rd acc.2 i = Some 0).
  enough (HQ : Q hi (dc, nk, sk)) by apply HQ.
  eapply (for_range_invariant Q); [exact Hle| | |exact Hrun].
  - intros i Hi. lia.
  - intros i [[dc1 nk1] sk1] [[dc2 nk2] sk2] Hi Hrows Hbody.
    unfold nearKeysOfPoint in Hbody.
    bind_inv Hbody. bind_inv Hbody. bind_inv Hbody. destruct p as [dc4 nk4].
    injection Hbody as <- <- <-. intros i2 Hi2. cbn.
    destruct (Z.eq_dec i2 i) as [->|Hne]; [by eapply rd_wr_eq|].
    rewrite (rd_wr_ne _ _ _ _ _ E0) by lia. apply Hrows. lia.
Qed.

(** X5. After a tap call that does not continue the session, no sampled point
    has a search key, and on a keyboard whose keys fit the key sets
    [getAllPossibleChars] gives the filter back as it received it. *)
Theorem tap_mode_no_search_keys (pinfo : ProximityInfo) (st st' : State) (a : InitArgs) :
  startsAfresh D st a ->
  argIsGeometric a = false ->
  init D U pinfo st a = Some st' ->
  forall index, 0 <= index < mSampledInputSize st' ->
    rd (mSearchKeysVector st') index = Some 0 /\
    (getKeyCount pinfo <= MAX_KEY_COUNT_IN_A_KEYBOARD D ->
     forall filter filterSize,
       getAllPossibleChars D st' index filter filterSize = Some (filter, filterSize)).
Proof.
  intros (c0 & Hc0 & Hfresh) Hgeo Hrun index Hindex.
  destruct (init_shape pinfo st st' a Hrun)
    as (c & update & lastSaved & nk1 & sk1 & Hc & Hupdate & Hlast & _ & Hp & _ & _ & _ & _
        & Hcaches).
  assert (update = false) as Hu by congruence.
  rewrite (Hlast Hu) in Hcaches. cbn zeta in Hcaches.
  replace (0 <? mSampledInputSize st') with true in Hcaches
    by (symmetry; apply Z.ltb_lt; lia).
  rewrite Hgeo in Hcaches. destruct Hcaches as (_ & Hloop & _ & Hsk).
  assert (Hrow : rd (mSearchKeysVector st') index = Some 0).
  { rewrite Hsk. eapply searchKeys_reset; [|exact Hloop|done]. lia. }
  split; [done|]. intros Hcap filter filterSize. unfold getAllPossibleChars.
  destruct (vsize (mSampledInputXs st') <=? index); [done|].
  rewrite Hp. cbn. unfold for_range. apply forM_fixed.
  intros j Hj. apply elem_of_seqZ in Hj. rewrite Hrow. cbn. unfold test.
  replace ((0 <=? j) && (j <? MAX_KEY_COUNT_IN_A_KEYBOARD D)) with true.
  - cbn. by rewrite Z.testbit_0_l.
  - symmetry. apply andb_true_iff. split; [apply Z.leb_le|apply Z.ltb_lt]; lia.
Qed.

(** ** getAllPossibleChars, in full *)

(** X6. [getAllPossibleChars] keeps the first [filterSize] entries of the
    filter and appends, for a sampled point, exactly the code points of the
    search keys of the point that are not among those entries: every appended
    code point is such a code point, and the code point of every search key
    is in the filter on return. *)
Theorem possible_chars_exact (st : State) (pinfo : ProximityInfo) (index bits : Z)
    (filter : list Z) (filterSize : Z) (filter' : list Z) (newFilterSize : Z) :
  mProximityInfo st = Some pinfo ->
  rd (mSearchKeysVector st) index = Some bits ->
  getAllPossibleChars D st index filter filterSize = Some (filter', newFilterSize) ->
  filterSize <= newFilterSize /\
  take (Z.to_nat filterSize) filter' = take (Z.to_nat filterSize) filter /\
  (forall x, x ∈ drop (Z.to_nat filterSize) (take (Z.to_nat newFilterSize) filter') ->
     (x ∉ take (Z.to_nat filterSize) filter) /\
     exists j, 0 <= j < getKeyCount pinfo /\ Z.testbit bits j = true /\
               x = getCodePointOf pinfo j) /\
  (index < vsize (mSampledInputXs st) ->
   forall j, 0 <= j < getKeyCount pinfo -> Z.testbit bits j = true ->
     getCodePointOf pinfo j ∈ take (Z.to_nat newFilterSize) filter').
Proof.
  intros Hp Hbits Hrun. unfold getAllPossibleChars in Hrun.
  destruct (vsize (mSampledInputXs st) <=? index) eqn:Eout; zb.
  { injection Hrun as <- <-. split; [lia|]. split; [done|]. split; [|lia].
    intros x Hx. rewrite drop_ge in Hx by (rewrite length_take; lia).
    by apply elem_of_nil in Hx. }
  rewrite Hp in Hrun. cbn in Hrun.
  destruct (Z.le_gt_cases 0 (getKeyCount pinfo)) as [Hk|Hk].
  2:{ rewrite for_range_empty in Hrun by lia. injection Hrun as <- <-.
      split; [lia|]. split; [done|]. split; [|intros; lia].
      intros x Hx. rewrite drop_ge in Hx by (rewrite length_take; lia).
      by apply elem_of_nil in Hx. }
  set (P := fun (j : Z) (acc : list Z * Z) =>
    filterSize <= acc.2 /\
    take (Z.to_nat filterSize) acc.1 = take (Z.to_nat filterSize) filter /\
    (forall x, x ∈ drop (Z.to_nat filterSize) (take (Z.to_nat acc.2) acc.1) ->
       (x ∉ take (Z.to_nat filterSize) filter) /\
       exists j', 0 <= j' < j /\ Z.testbit bits j' = true /\ x = getCodePointOf pinfo j') /\
    (forall j', 0 <= j' < j -> Z.testbit bits j' = true ->
       getCodePointOf pinfo j' ∈ take (Z.to_nat acc.2) acc.1)).
  assert (HP : P (getKeyCount pinfo) (filter', newFilterSize)).
  { eapply (for_range_invariant P); [exact Hk| | |exact Hrun].
    - split; [cbn; lia|]. split; [done|]. split; [|intros; lia].
      intros x Hx. cbn in Hx. rewrite drop_ge in Hx by (rewrite length_take; lia).
      by apply elem_of_nil in Hx.
    - intros j [f n] [f1 n1] Hj (Hle & Hpre & Hadded & Hall) Hbody.
      cbn in Hle, Hpre, Hadded, Hall.
      rewrite Hbits in Hbody. cbn in Hbody.
      destruct (test D bits j) as [b|] eqn:Et; [|done]. cbn in Hbody.
      assert (Hb : b = Z.testbit bits j).
      { unfold test in Et.
        destruct ((0 <=? j) && (j <? MAX_KEY_COUNT_IN_A_KEYBOARD D)); congruence. }
      assert (Hsub : forall x,
                x ∈ take (Z.to_nat filterSize) f -> x ∈ take (Z.to_nat n) f).
      { intros x Hx. rewrite <- (take_drop (Z.to_nat filterSize) (take (Z.to_nat n) f)).
        apply elem_of_app. left. rewrite take_take, Nat.min_l by lia. done. }
      assert (Hkeep : b = false \/
                notInFilter f (getCodePointOf pinfo j) (seqZ 0 filterSize) = Some false ->
                (f1, n1) = (f, n) -> P (j + 1) (f1, n1)).
      { intros Hcase [= -> ->]. split; [done|]. split; [done|]. split.
        - intros x Hx. destruct (Hadded x Hx) as (Hnot & j' & Hj' & Hbit & Hcode).
          split; [done|]. exists j'. split; [lia|done].
        - intros j' Hj' Hbit. destruct (Z.eq_dec j' j) as [->|Hne]; [|apply Hall; [lia|done]].
          destruct Hcase as [Hfalse|Hfound]; [congruence|].
          cbn. apply Hsub. clear -Hfound.
          assert (Hgen : forall idxs,
                    notInFilter f (getCodePointOf pinfo j) idxs = Some false ->
                    exists k, k ∈ idxs /\ rd f k = Some (getCodePointOf pinfo j)).
          { induction idxs as [|k rest IH]; [done|]. cbn. intros H.
            destruct (rd f k) as [v|] eqn:Ev; [|done]. cbn in H.
            destruct (v =? getCodePointOf pinfo j) eqn:Eq; zb.
            - exists k. split; [by left|congruence].
            - destruct (IH H) as (k' & Hk' & Hrd). exists k'. split; [by right|done]. }
          destruct (Hgen _ Hfound) as (k & Hk & Hrd). apply elem_of_seqZ in Hk.
          apply list_elem_of_lookup. exists (Z.to_nat k).
          unfold rd in Hrd. destruct (0 <=? k); [|done].
          rewrite lookup_take_lt by lia. done. }
      destruct b; [|injection Hbody as <- <-; apply Hkeep; [by left|done]].
      destruct (notInFilter f (getCodePointOf pinfo j) (seqZ 0 filterSize))
        as [insert|] eqn:En; [|done]. cbn in Hbody.
      destruct insert; [|injection Hbody as <- <-; apply Hkeep; [by right|done]].
      destruct (wr f n (getCodePointOf pinfo j)) as [f2|] eqn:Ew; [|done].
      cbn in Hbody. injection Hbody as <- <-.
      apply wr_Some in Ew as [Hn ->]. unfold vsize in Hn.
      assert (Htake : take (Z.to_nat (n + 1)) (<[Z.to_nat n := getCodePointOf pinfo j]> f)
                      = take (Z.to_nat n) f ++ [getCodePointOf pinfo j]).
      { replace (Z.to_nat (n + 1)) with (Datatypes.S (Z.to_nat n)) by lia.
        rewrite (take_S_r _ _ (getCodePointOf pinfo j))
          by (apply list_lookup_insert_eq; lia).
        by rewrite take_insert_ge by lia. }
      unfold P. cbn. rewrite Htake. split; [lia|]. split; [|split].
      + rewrite take_insert_ge by lia. done.
      + intros x Hx. rewrite drop_app_le in Hx by (rewrite length_take; lia).
        apply elem_of_app in Hx as [Hx|Hx].
        * destruct (Hadded x Hx) as (Hnot & j' & Hj' & Hbit & Hcode).
          split; [done|]. exists j'. split; [lia|done].
        * apply list_elem_of_singleton in Hx as ->. split.
          -- rewrite <- Hpre. by apply notInFilter_take.
          -- exists j. split; [lia|]. split; [congruence|done].
      + intros j' Hj' Hbit. apply elem_of_app.
        destruct (Z.eq_dec j' j) as [->|Hne]; [right; by left|].
        left. apply Hall; [lia|done]. }
  destruct HP as (Hle & Hpre & Hadded & Hall). cbn in *.
  split; [done|]. split; [done|]. split; [|intros _; exact Hall].
  intros x Hx. destruct (Hadded x Hx) as (Hnot & j' & Hj' & Hbit & Hcode).
  split; [done|]. by exists j'.
Qed.

(** ** getMatchedProximityId, in general *)

Lemma searchCloseKeys_inl (st : State) (index c baseLowerC j : Z) (idxs : list Z) (p : Z) :
  searchCloseKeys D st index c baseLowerC j idxs = Some (inl p) ->
  p ∈ idxs /\
  exists cp, getProximityCodePointsAt D st index p = Some cp /\
             ADDITIONAL_PROXIMITY_CHAR_DELIMITER_CODE D < cp /\
             (cp = baseLowerC \/ cp = c).
Proof.
  revert j. induction idxs as [|j' rest IH]; intros j Hrun; [done|].
  cbn [searchCloseKeys] in Hrun.
  destruct (getProximityCodePointsAt D st index j') as [cp|] eqn:Ecp; [|done].
  cbn [mbind option_bind] in Hrun.
  destruct (ADDITIONAL_PROXIMITY_CHAR_DELIMITER_CODE D <? cp) eqn:Ed; [|done].
  destruct ((cp =? baseLowerC) || (cp =? c)) eqn:Em.
  - injection Hrun as <-. split; [by left|]. exists cp. zb. split; [done|].
    split; [done|]. destruct Em; zb; auto.
  - destruct (IH _ Hrun) as [Hin Hcp]. split; [by right|done].
Qed.

Lemma searchCloseKeys_inr (st : State) (index c baseLowerC : Z) (m : nat) (j q : Z) :
  searchCloseKeys D st index c baseLowerC j (seqZ j (Z.of_nat m)) = Some (inr q) ->
  j <= q.
Proof.
  revert j. induction m as [|m IH]; intros j Hrun.
  - cbn in Hrun. injection Hrun as <-. lia.
  - rewrite seqZ_cons in Hrun by lia. cbn [searchCloseKeys] in Hrun.
    destruct (getProximityCodePointsAt D st index j) as [cp|]; [|done].
    cbn [mbind option_bind] in Hrun.
    destruct (ADDITIONAL_PROXIMITY_CHAR_DELIMITER_CODE D <? cp);
      [|injection Hrun as <-; lia].
    destruct ((cp =? baseLowerC) || (cp =? c)); [done|].
    replace (Z.succ j) with (j + 1) in Hrun by lia.
    replace (Z.pred (Z.of_nat (S m))) with (Z.of_nat m) in Hrun by lia.
    apply IH in Hrun. lia.
Qed.

(** X7. Whatever the proximity list of the point holds, the answer of
    [getMatchedProximityId] is sound.  It is [EQUIVALENT_CHAR] exactly when
    the first-listed character is the target or its normalized form.  A
    proximity answer needs proximity checking.  [proximityIndex] is written
    only with a position of the list, from 1 on and below
    [MAX_PROXIMITY_CHARS_SIZE], that holds a code point above the delimiter
    code which is the target or its normalized form, and for an
    [ADDITIONAL_PROXIMITY_CHAR] that position lies behind a delimiter. *)
Theorem classification_sound (st : State) (index c : Z) (checkProximityChars : bool)
    (proximityIndex : option Z) (type : ProximityType) (proximityIndex' : option Z) :
  let delim := ADDITIONAL_PROXIMITY_CHAR_DELIMITER_CODE D in
  let found p :=
    1 <= p < MAX_PROXIMITY_CHARS_SIZE D /\
    proximityIndex' = (fun _ => p) <$> proximityIndex /\
    exists cp, getProximityCodePointsAt D st index p = Some cp /\ delim < cp /\
               matched U cp c in
  getMatchedProximityId D U st index c checkProximityChars proximityIndex
    = Some (type, proximityIndex') ->
  exists first,
    getProximityCodePointsAt D st index 0 = Some first /\
    (type = EQUIVALENT_CHAR <-> matched U first c) /\
    (type = EQUIVALENT_CHAR \/ type = UNRELATED_CHAR -> proximityIndex' = proximityIndex) /\
    (type = NEAR_PROXIMITY_CHAR ->
       checkProximityChars = true /\
       ((proximityIndex' = proximityIndex /\
         toBaseLowerCase U first = toBaseLowerCase U c) \/
        exists p, found p)) /\
    (type = ADDITIONAL_PROXIMITY_CHAR ->
       checkProximityChars = true /\
       exists d p, 1 <= d < p /\ getProximityCodePointsAt D st index d = Some delim /\
                   found p).
Proof.
  intros delim found Hrun. unfold getMatchedProximityId in Hrun.
  destruct (getProximityCodePointsAt D st index 0) as [first|] eqn:E0; [|done].
  cbn [mbind option_bind] in Hrun. exists first. split; [done|].
  destruct ((first =? toBaseLowerCase U c) || (first =? c)) eqn:Em.
  { injection Hrun as <- <-. apply matched_eqb in Em.
    split; [done|]. split; [done|]. split; intros Habs; discriminate Habs. }
  assert (Hnm : ~ matched U first c).
  { intros H. apply matched_eqb in H. congruence. }
  assert (Hne : type = EQUIVALENT_CHAR -> False).
  { intros ->. revert Hrun. destruct (negb checkProximityChars); [done|].
    destruct (toBaseLowerCase U first =? toBaseLowerCase U c); [done|].
    intros Hrun. bind_inv Hrun. destruct s as [p|q]; [done|].
    destruct (q <? MAX_PROXIMITY_CHARS_SIZE D); [|done]. bind_inv Hrun.
    destruct (z =? ADDITIONAL_PROXIMITY_CHAR_DELIMITER_CODE D); [|done].
    bind_inv Hrun. by destruct s. }
  split; [split; [intros H; by destruct (Hne H)|done]|].
  destruct checkProximityChars; cbn [negb] in Hrun;
    [|injection Hrun as <- <-; split; [done|]; split; intros Habs; discriminate Habs].
  destruct (toBaseLowerCase U first =? toBaseLowerCase U c) eqn:Eb; zb.
  { injection Hrun as <- <-. split; [done|]. split; [|intros Habs; discriminate Habs].
    intros _. split; [done|]. by left. }
  bind_inv Hrun. rename E into E1.
  set (N := MAX_PROXIMITY_CHARS_SIZE D) in *.
  destruct s as [p|q].
  { injection Hrun as <- <-. apply searchCloseKeys_inl in E1 as (Hin & cp & Hcp & Hd & Hm).
    apply elem_of_seqZ in Hin.
    split; [intros [Habs|Habs]; discriminate Habs|]. split; [|intros Habs; discriminate Habs].
    intros _. split; [done|]. right. exists p. split; [lia|]. split; [done|].
    exists cp. unfold matched. done. }
  assert (Hq : 1 <= q).
  { destruct (Z.le_gt_cases 0 (N - 1)) as [Hn|Hn].
    - replace (N - 1) with (Z.of_nat (Z.to_nat (N - 1))) in E1 by lia.
      by apply searchCloseKeys_inr in E1.
    - rewrite seqZ_nil in E1 by lia. cbn in E1. injection E1 as <-. lia. }
  destruct (q <? N) eqn:EqN;
    [|injection Hrun as <- <-; split; [done|]; split; intros Habs; discriminate Habs].
  bind_inv Hrun. rename E into Eq.
  destruct (z =? ADDITIONAL_PROXIMITY_CHAR_DELIMITER_CODE D) eqn:Ez; zb;
    [|injection Hrun as <- <-; split; [done|]; split; intros Habs; discriminate Habs].
  bind_inv Hrun.
  destruct s as [p|q2];
    [|injection Hrun as <- <-; split; [done|]; split; intros Habs; discriminate Habs].
  injection Hrun as <- <-. apply searchCloseKeys_inl in E as (Hin & cp & Hcp & Hd & Hm).
  apply elem_of_seqZ in Hin.
  split; [intros [Habs|Habs]; discriminate Habs|]. split; [intros Habs; discriminate Habs|].
  intros _. split; [done|]. exists q, p. split; [lia|]. split; [by subst z|].
  split; [lia|]. split; [done|]. exists cp. unfold matched. done.
Qed.

(** ** getMostProbableString, its length *)

Lemma mostProbableStringLoop_bound (st : State) (idxs codePointBuf : list Z) (index : Z)
    (sumLogProbability : float) (codePointBuf' : list Z) (sum' : float) :
  index = vsize codePointBuf ->
  mostProbableStringLoop D st idxs codePointBuf index sumLogProbability
    = Some (codePointBuf', sum') ->
  vsize codePointBuf' <= Z.max (vsize codePointBuf) (MAX_WORD_LENGTH D - 1) /\
  vsize codePointBuf' <= vsize codePointBuf + vsize idxs.
Proof.
  revert codePointBuf index sumLogProbability.
  induction idxs as [|i rest IH]; intros codePointBuf index sumLogProbability Hindex Hrun.
  - injection Hrun as <- _. unfold vsize. cbn. lia.
  - cbn [mostProbableStringLoop] in Hrun.
    destruct (index <? MAX_WORD_LENGTH D - 1) eqn:Efull; zb;
      [|injection Hrun as <- _; unfold vsize; cbn; lia].
    bind_inv Hrun.
    destruct (mostProbableKey D c (static_cast_float (MAX_POINT_TO_KEY_LENGTH D))
                (NOT_AN_INDEX D)) as [m ch].
    destruct (negb (ch =? NOT_AN_INDEX D)).
    + bind_inv Hrun. subst index. unfold vsize in *.
      apply IH in Hrun; [|rewrite length_app; cbn; lia].
      rewrite length_app in Hrun. cbn in *. lia.
    + apply IH in Hrun; [|done]. unfold vsize in *. cbn. lia.
Qed.

(** X8. The word that [getMostProbableString] writes ends with the
    terminating 0 and has, before it, at most [MAX_WORD_LENGTH - 1] code
    points and at most one code point for each sampled point. *)
Theorem most_probable_string_length (st : State) (codePointBuf : list Z) (sum : float) :
  getMostProbableString D st = Some (codePointBuf, sum) ->
  exists word,
    codePointBuf = word ++ [0] /\
    vsize word <= Z.max 0 (MAX_WORD_LENGTH D - 1) /\
    vsize word <= Z.max 0 (mSampledInputSize st).
Proof.
  unfold getMostProbableString. intros Hrun. bind_inv Hrun. destruct p as [word s].
  injection Hrun as <- _. exists word. split; [done|].
  apply mostProbableStringLoop_bound in E; [|done].
  unfold vsize in *. rewrite length_seqZ in E. cbn in E. lia.
Qed.

(** ** checkAndReturnIsContinuationPossible in gesture mode *)

Lemma continuationLoop_G_spec (st : State) (inputSize : Z) (lx ly lt : list Z)
    (idxs : list Z) :
  (forall i, i ∈ idxs ->
     0 <= i /\ i < vsize (mSampledInputXs st) /\ i < vsize (mSampledInputYs st) /\
     i < vsize (mTimes st) /\
     exists index, rd (mInputIndice st) i = Some index /\
       (index <= inputSize ->
        0 <= index /\ index < vsize lx /\ index < vsize ly /\ index < vsize lt)) ->
  exists b,
    continuationLoop_G st inputSize (Some lx) (Some ly) (Some lt) idxs = Some b /\
    (b = true <-> forall i, i ∈ idxs -> replaysAt st inputSize lx ly lt i).
Proof.
  induction idxs as [|i rest IH]; intros Hin.
  - exists true. split; [done|]. split; [|done]. intros _ i Hi. by apply elem_of_nil in Hi.
  - destruct IH as (b & Hb & Hiff).
    { intros j Hj. apply Hin. by right. }
    destruct (Hin i) as (H0 & H1 & H2 & H3 & index & Hindex & Hrange); [by left|].
    assert (Hfail : ~ replaysAt st inputSize lx ly lt i ->
              exists b', Some false = Some b' /\
                (b' = true <-> forall j, j ∈ i :: rest -> replaysAt st inputSize lx ly lt j)).
    { intros Hno. exists false. split; [done|]. split; [done|]. intros Hall.
      destruct Hno. apply Hall. by left. }
    cbn [continuationLoop_G rdp mbind option_bind]. rewrite Hindex. cbn.
    destruct (inputSize <? index) eqn:Esize; zb.
    { apply Hfail. intros (index' & Hi' & Hle & _). rewrite Hindex in Hi'.
      injection Hi' as <-. lia. }
    destruct (Hrange Esize) as (Hi0 & Hix & Hiy & Hit).
    destruct (rd_is_Some lx index) as [x Ex]; [lia|].
    destruct (rd_is_Some ly index) as [y Ey]; [lia|].
    destruct (rd_is_Some lt index) as [t Et]; [lia|].
    destruct (rd_is_Some (mSampledInputXs st) i) as [sx Esx]; [lia|].
    destruct (rd_is_Some (mSampledInputYs st) i) as [sy Esy]; [lia|].
    destruct (rd_is_Some (mTimes st) i) as [stt Est]; [lia|].
    rewrite Ex, Esx. cbn.
    destruct (x =? sx) eqn:Exs; cbn; zb.
    2:{ apply Hfail. intros (index' & Hi' & _ & Hx & _). rewrite Hindex in Hi'.
        injection Hi' as <-. congruence. }
    rewrite Ey, Esy. cbn. destruct (y =? sy) eqn:Eys; cbn; zb.
    2:{ apply Hfail. intros (index' & Hi' & _ & _ & Hy & _). rewrite Hindex in Hi'.
        injection Hi' as <-. congruence. }
    rewrite Et, Est. cbn. destruct (t =? stt) eqn:Ets; cbn; zb.
    2:{ apply Hfail. intros (index' & Hi' & _ & _ & _ & Ht). rewrite Hindex in Hi'.
        injection Hi' as <-. congruence. }
    subst. exists b. split; [done|]. rewrite Hiff. split.
    + intros Hall j Hj. apply elem_of_cons in Hj as [->|Hj]; [|by apply Hall].
      exists index. rewrite Ex, Ey, Et, Esx, Esy, Est. done.
    + intros Hall j Hj. apply Hall. by right.
Qed.

(** X9. Gesture-mode continuation validity: on a state that holds its sampled
    points and streams that can be read at the stored original indices up to
    [inputSize], [checkAndReturnIsContinuationPossible] returns [true]
    exactly when every sampled point replays: its stored original index is at
    most [inputSize] (equal to [inputSize] included) and the new stream holds
    its x, its y and its time at that index. *)
Theorem gesture_mode_continuation (st : State) (inputSize : Z) (lx ly lt : list Z) :
  mSampledInputSize st <= vsize (mSampledInputXs st) ->
  mSampledInputSize st <= vsize (mSampledInputYs st) ->
  mSampledInputSize st <= vsize (mTimes st) ->
  (forall i, 0 <= i < mSampledInputSize st ->
     exists index, rd (mInputIndice st) i = Some index /\
       (index <= inputSize ->
        0 <= index /\ index < vsize lx /\ index < vsize ly /\ index < vsize lt)) ->
  exists b,
    checkAndReturnIsContinuationPossible D st inputSize (Some lx) (Some ly) (Some lt) true
      = Some b /\
    (b = true <->
     forall i, 0 <= i < mSampledInputSize st -> replaysAt st inputSize lx ly lt i).
Proof.
  intros Hx Hy Ht Hidx. unfold checkAndReturnIsContinuationPossible.
  destruct (continuationLoop_G_spec st inputSize lx ly lt (seqZ 0 (mSampledInputSize st)))
    as (b & Hb & Hiff).
  { intros i Hi. apply elem_of_seqZ in Hi. repeat (split; [lia|]). apply Hidx. lia. }
  exists b. split; [done|]. rewrite Hiff. split.
  - intros Hall i Hi. apply Hall, elem_of_seqZ. lia.
  - intros Hall i Hi. apply Hall. apply elem_of_seqZ in Hi. lia.
Qed.

Lemma continuationLoop_G_app (st : State) (inputSize : Z) (lx ly lt : list Z)
    (pre post : list Z) :
  (forall i, i ∈ pre ->
     exists index x y t,
       rd (mInputIndice st) i = Some index /\ index <= inputSize /\
       rd lx index = Some x /\ rd (mSampledInputXs st) i = Some x /\
       rd ly index = Some y /\ rd (mSampledInputYs st) i = Some y /\
       rd lt index = Some t /\ rd (mTimes st) i = Some t) ->
  continuationLoop_G st inputSize (Some lx) (Some ly) (Some lt) (pre ++ post)
  = continuationLoop_G st inputSize (Some lx) (Some ly) (Some lt) post.
Proof.
  induction pre as [|i pre IH]; intros Hpre; [done|].
  destruct (Hpre i) as (index & x & y & t & Hi & Hle & Hx & Hsx & Hy & Hsy & Ht & Hst);
    [by left|].
  cbn [app continuationLoop_G rdp mbind option_bind]. rewrite Hi. cbn.
  replace (inputSize <? index) with false by (symmetry; apply Z.ltb_ge; lia).
  rewrite Hx, Hsx. cbn. rewrite Z.eqb_refl. cbn.
  rewrite Hy, Hsy. cbn. rewrite Z.eqb_refl. cbn.
  rewrite Ht, Hst. cbn. rewrite Z.eqb_refl. cbn.
  apply IH. intros j Hj. apply Hpre. by right.
Qed.

(** X10. The bound of the gesture-mode check is one too far for a stream of
    exactly [inputSize] points: when the sampled points before the point [k]
    replay and the stored original index of [k] is [inputSize],
    the check reads [xCoordinates[inputSize]], outside the stream. *)
Theorem gesture_continuation_reads_past_end (st : State) (inputSize : Z)
    (lx ly lt : list Z) (k : Z) :
  vsize lx = inputSize ->
  0 <= k < mSampledInputSize st ->
  rd (mInputIndice st) k = Some inputSize ->
  (forall i, 0 <= i < k ->
     exists index x y t,
       rd (mInputIndice st) i = Some index /\ index <= inputSize /\
       rd lx index = Some x /\ rd (mSampledInputXs st) i = Some x /\
       rd ly index = Some y /\ rd (mSampledInputYs st) i = Some y /\
       rd lt index = Some t /\ rd (mTimes st) i = Some t) ->
  checkAndReturnIsContinuationPossible D st inputSize (Some lx) (Some ly) (Some lt) true
  = None.
Proof.
  intros Hlen Hk Hindex Hpre. unfold checkAndReturnIsContinuationPossible.
  rewrite (seqZ_split_at 0 (mSampledInputSize st) k) by lia.
  rewrite continuationLoop_G_app by (intros i Hi; apply elem_of_seqZ in Hi; apply Hpre; lia).
  cbn [continuationLoop_G rdp mbind option_bind]. rewrite Hindex. cbn.
  replace (inputSize <? inputSize) with false by (symmetry; apply Z.ltb_ge; lia).
  replace (rd lx inputSize) with (@None Z); [done|].
  symmetry. destruct (rd lx inputSize) as [x|] eqn:E; [|done].
  apply rd_Some_range in E. lia.
Qed.

(** ** The last part of initInputParams: the fixed arrays *)

Lemma set_mNormalizedSquaredDistances_same (st : State) :
  set_mNormalizedSquaredDistances st (mNormalizedSquaredDistances st) = st.
Proof. by destruct st. Qed.

Lemma set_mPrimaryInputWord_same (st : State) :
  set_mPrimaryInputWord st (mPrimaryInputWord st) = st.
Proof. by destruct st. Qed.

Lemma rd_memset (a : list Z) (v : Z) (p x : Z) :
  rd (memset a v) p = Some x -> x = memset_int v.
Proof.
  unfold rd, memset. destruct (0 <=? p); [|done]. intros H.
  by apply lookup_replicate in H as [-> _].
Qed.

Lemma rd_memset_in (a : list Z) (v : Z) (p : Z) :
  0 <= p < vsize a -> rd (memset a v) p = Some (memset_int v).
Proof.
  intros Hp. unfold rd, memset, vsize in *.
  destruct (0 <=? p) eqn:E; zb; [|lia]. apply lookup_replicate. split; [done|lia].
Qed.

(** The loop over the proximity characters of one point. *)
Lemma normalizedSquaredDistancesStep_spec (i : Z) (k : nat) (j0 : Z) (st st' : State) :
  let M := MAX_PROXIMITY_CHARS_SIZE D in
  normalizedSquaredDistancesStep D st i (seqZ j0 (Z.of_nat k)) = Some st' ->
  exists a,
    st' = set_mNormalizedSquaredDistances st a /\
    length a = length (mNormalizedSquaredDistances st) /\
    (forall p, ~ (i * M + j0 <= p < i * M + j0 + Z.of_nat k) ->
       rd a p = rd (mNormalizedSquaredDistances st) p) /\
    (forall j, j0 <= j < j0 + Z.of_nat k ->
       (forall j', j0 <= j' <= j ->
          exists c, getProximityCodePointsAt D st i j' = Some c /\ 0 < c) ->
       exists c v, getProximityCodePointsAt D st i j = Some c /\
                   scaledDistanceOf D st i j c = Some v /\
                   rd a (i * M + j) = Some v) /\
    (forall j j', j0 <= j' <= j ->
       (exists c, getProximityCodePointsAt D st i j' = Some c /\ c <= 0) ->
       rd a (i * M + j) = rd (mNormalizedSquaredDistances st) (i * M + j)).
Proof.
  intros M. revert j0 st. induction k as [|k IH]; intros j0 st Hrun.
  - cbn in Hrun. injection Hrun as <-. exists (mNormalizedSquaredDistances st).
    rewrite set_mNormalizedSquaredDistances_same.
    split; [done|]. split; [done|]. split; [done|]. split; [intros j Hj; lia|done].
  - rewrite seqZ_cons in Hrun by lia. cbn [normalizedSquaredDistancesStep] in Hrun.
    replace (Z.succ j0) with (j0 + 1) in Hrun by lia.
    replace (Z.pred (Z.of_nat (S k))) with (Z.of_nat k) in Hrun by lia.
    bind_inv Hrun. rename z into cp, E into Ecp.
    destruct (0 <? cp) eqn:Epos; zb.
    2:{ injection Hrun as <-. exists (mNormalizedSquaredDistances st).
        rewrite set_mNormalizedSquaredDistances_same.
        split; [done|]. split; [done|]. split; [done|]. split; [|done].
        intros j Hj Hall. destruct (Hall j0) as (c & Hc & Hc0); [lia|].
        rewrite Ecp in Hc. injection Hc as <-. lia. }
    bind_inv Hrun. rename p into pinfo, E into Ep.
    bind_inv Hrun. rename f into squaredDistance, E into Esd.
    bind_inv Hrun. rename z into v, E into Ev.
    bind_inv Hrun. rename l into a1, E into Ewr.
    assert (Hv : scaledDistanceOf D st i j0 cp = Some v).
    { unfold scaledDistanceOf. rewrite Ep. cbn [mbind option_bind].
      rewrite Esd. cbn [mbind option_bind]. exact Ev. }
    apply IH in Hrun as (a & -> & Hlen & Hout & Hin & Hend).
    cbn [mNormalizedSquaredDistances set_mNormalizedSquaredDistances] in Hlen, Hout, Hend.
    exists a. split; [done|]. split; [by rewrite Hlen; apply wr_length in Ewr|].
    split; [|split].
    + intros p Hp. rewrite Hout by lia. apply (rd_wr_ne _ _ _ _ _ Ewr). fold M. lia.
    + intros j Hj Hall. destruct (decide (j = j0)) as [->|Hne].
      * exists cp, v. split; [done|]. split; [done|].
        rewrite Hout by lia. by apply (rd_wr_eq _ _ _ _ Ewr).
      * destruct (Hin j) as (c & w & Hc & Hw & Hrd); [lia| |].
        { intros j' Hj'. apply Hall. lia. }
        exists c, w. done.
    + intros j j' Hj' (c & Hc & Hc0). destruct (decide (j' = j0)) as [->|Hne].
      * rewrite Ecp in Hc. injection Hc as <-. lia.
      * rewrite (Hend j j') by (try lia; by exists c).
        apply (rd_wr_ne _ _ _ _ _ Ewr). fold M. lia.
Qed.

(** The loop that fills [mPrimaryInputWord]. *)
Lemma primaryInputWordLoop_spec (inputSize : Z) (st st' : State) :
  for_range 0 inputSize (primaryInputWordStep D) st = Some st' ->
  exists w,
    st' = set_mPrimaryInputWord st w /\
    length w = length (mPrimaryInputWord st) /\
    inputSize <= vsize (mPrimaryInputWord st) /\
    (forall i, 0 <= i < inputSize ->
       exists c, getPrimaryCodePointAt D st i = Some c /\ rd w i = Some c) /\
    (forall i, inputSize <= i -> rd w i = rd (mPrimaryInputWord st) i).
Proof.
  intros Hrun. destruct (decide (inputSize <= 0)) as [Hle|Hpos].
  { rewrite for_range_empty in Hrun by lia. injection Hrun as <-.
    exists (mPrimaryInputWord st). rewrite set_mPrimaryInputWord_same.
    split; [done|]. split; [done|]. split; [unfold vsize; lia|].
    split; [intros i Hi; lia|done]. }
  apply (for_range_invariant
           (fun n t => exists w,
              t = set_mPrimaryInputWord st w /\
              length w = length (mPrimaryInputWord st) /\
              n <= vsize (mPrimaryInputWord st) /\
              (forall i, 0 <= i < n ->
                 exists c, getPrimaryCodePointAt D st i = Some c /\ rd w i = Some c) /\
              (forall i, n <= i -> rd w i = rd (mPrimaryInputWord st) i))) in Hrun;
    [done|lia| |].
  - exists (mPrimaryInputWord st). rewrite set_mPrimaryInputWord_same.
    split; [done|]. split; [done|]. split; [unfold vsize; lia|].
    split; [intros i Hi; lia|done].
  - intros n t t' Hn (w & -> & Hlen & Hbound & Hin & Hout) Hstep.
    unfold primaryInputWordStep in Hstep.
    bind_inv Hstep. rename z into c, E into Ec.
    bind_inv Hstep. rename l into w', E into Ewr.
    injection Hstep as <-.
    cbn [mPrimaryInputWord set_mPrimaryInputWord] in Ewr.
    exists w'. split; [done|]. split; [by rewrite <- Hlen; apply wr_length in Ewr|].
    pose proof (wr_Some _ _ _ _ Ewr) as [Hrange _]. unfold vsize in *.
    split; [lia|]. split.
    + intros i Hi. destruct (decide (i = n)) as [->|Hne].
      * exists c. split; [exact Ec|]. by apply (rd_wr_eq _ _ _ _ Ewr).
      * destruct (Hin i) as (c' & Hc' & Hrd); [lia|]. exists c'. split; [done|].
        by rewrite (rd_wr_ne _ _ _ _ _ Ewr).
    + intros i Hi. rewrite (rd_wr_ne _ _ _ _ _ Ewr) by lia. apply Hout. lia.
Qed.

(** What precedes the last part of a call that returns: the state [st1]
    after the two [memset]s. *)
Lemma init_tail (pinfo : ProximityInfo) (st st' : State) (a : InitArgs) :
  init D U pinfo st a = Some st' ->
  exists st1,
    primaryInputWordAndDistances D st1 (argPointerId a) (argInputSize a)
      (argXCoordinates a) (argYCoordinates a) (argIsGeometric a) = Some st' /\
    mNormalizedSquaredDistances st1
      = memset (mNormalizedSquaredDistances st) (NOT_A_DISTANCE D) /\
    mPrimaryInputWord st1 = memset (mPrimaryInputWord st) 0.
Proof.
  intros Hrun. unfold init, initInputParams in Hrun.
  do 4 bind_inv Hrun.
  bind_inv Hrun. destruct p as [n sv].
  bind_inv Hrun. destruct p as [[[avg sr] dirs] bl].
  bind_inv Hrun. destruct p as [[[dc nk] sk] cp].
  eexists. split; [exact Hrun|]. done.
Qed.

Lemma seqZ_to_nat (lo m : Z) : seqZ lo m = seqZ lo (Z.of_nat (Z.to_nat m)).
Proof. unfold seqZ. by rewrite Nat2Z.id. Qed.

(** The loop over the sampled points that fills [mNormalizedSquaredDistances]. *)
Lemma normalizedSquaredDistancesLoop_spec (xs ys : option (list Z)) (n : Z)
    (st st' : State) :
  let M := MAX_PROXIMITY_CHARS_SIZE D in
  for_range 0 n (normalizedSquaredDistancesOfPoint D xs ys) st = Some st' ->
  exists a,
    st' = set_mNormalizedSquaredDistances st a /\
    length a = length (mNormalizedSquaredDistances st) /\
    forall i j, 0 <= i < n -> 0 <= j < M ->
      (proximityCharsReach D st i j ->
       exists c v, getProximityCodePointsAt D st i j = Some c /\
                   scaledDistanceOf D st i j c = Some v /\
                   rd a (i * M + j) = Some v) /\
      (forall j', 0 <= j' <= j -> proximityCharsEndAt D st i j' ->
       rd a (i * M + j) = rd (mNormalizedSquaredDistances st) (i * M + j)).
Proof.
  intros M Hrun. destruct (decide (n <= 0)) as [Hle|Hpos].
  { rewrite for_range_empty in Hrun by lia. injection Hrun as <-.
    exists (mNormalizedSquaredDistances st). rewrite set_mNormalizedSquaredDistances_same.
    split; [done|]. split; [done|]. intros i j Hi. lia. }
  apply (for_range_invariant
           (fun m t => exists a,
              t = set_mNormalizedSquaredDistances st a /\
              length a = length (mNormalizedSquaredDistances st) /\
              (0 < M -> forall p, m * M <= p ->
                 rd a p = rd (mNormalizedSquaredDistances st) p) /\
              forall i j, 0 <= i < m -> 0 <= j < M ->
                (proximityCharsReach D st i j ->
                 exists c v, getProximityCodePointsAt D st i j = Some c /\
                             scaledDistanceOf D st i j c = Some v /\
                             rd a (i * M + j) = Some v) /\
                (forall j', 0 <= j' <= j -> proximityCharsEndAt D st i j' ->
                 rd a (i * M + j) = rd (mNormalizedSquaredDistances st) (i * M + j))))
    in Hrun; [|lia| |].
  - destruct Hrun as (a & -> & Hlen & _ & Hall). by exists a.
  - exists (mNormalizedSquaredDistances st). rewrite set_mNormalizedSquaredDistances_same.
    split; [done|]. split; [done|]. split; [done|]. intros i j Hi. lia.
  - intros m t t' Hm (a & -> & Hlen & Hrest & Hdone) Hstep.
    unfold normalizedSquaredDistancesOfPoint in Hstep.
    do 3 bind_inv Hstep. clear E E0 E1.
    rewrite seqZ_to_nat in Hstep.
    apply normalizedSquaredDistancesStep_spec in Hstep
      as (a' & -> & Hlen' & Hout & Hin & Hend).
    cbn [mNormalizedSquaredDistances set_mNormalizedSquaredDistances] in Hlen', Hout, Hend.
    fold M in Hout, Hin, Hend.
    exists a'. split; [done|]. split; [congruence|]. split.
    + intros HM p Hp. rewrite Hout by lia. apply Hrest; [done|]. lia.
    + intros i j Hi Hj. destruct (decide (i = m)) as [->|Hne].
      * split.
        -- intros Hreach. destruct (Hin j) as (c & v & Hc & Hv & Hrd); [lia| |].
           { intros j' Hj'. apply Hreach. lia. }
           exists c, v. done.
        -- intros j' Hj' Hstop. rewrite (Hend j j') by (try lia; exact Hstop).
           apply Hrest; lia.
      * assert (Hlt : i * M + j < m * M) by nia.
        destruct (Hdone i j) as [Hreach Hstop]; [lia|lia|]. split.
        -- intros Hr. destruct (Hreach Hr) as (c & v & Hc & Hv & Hrd).
           exists c, v. split; [done|]. split; [done|]. rewrite Hout by lia. done.
        -- intros j' Hj' Hs. rewrite Hout by lia. by apply (Hstop j').
Qed.

(** The two loops of the last part together. *)
Lemma primaryInputWordAndDistances_spec (st1 st' : State) (pointerId inputSize : Z)
    (xs ys : option (list Z)) (isGeometric : bool) :
  primaryInputWordAndDistances D st1 pointerId inputSize xs ys isGeometric = Some st' ->
  exists w a,
    st' = set_mNormalizedSquaredDistances (set_mPrimaryInputWord st1 w) a /\
    length w = length (mPrimaryInputWord st1) /\
    length a = length (mNormalizedSquaredDistances st1) /\
    (if negb isGeometric && (pointerId =? 0) then
       for_range 0 inputSize (primaryInputWordStep D) st1
         = Some (set_mPrimaryInputWord st1 w) /\
       if mTouchPositionCorrectionEnabled st1 then
         for_range 0 (mSampledInputSize st1) (normalizedSquaredDistancesOfPoint D xs ys)
           (set_mPrimaryInputWord st1 w) = Some st'
       else a = mNormalizedSquaredDistances st1
     else w = mPrimaryInputWord st1 /\ a = mNormalizedSquaredDistances st1).
Proof.
  unfold primaryInputWordAndDistances. intros Hrun.
  destruct (negb isGeometric && (pointerId =? 0)).
  - bind_inv Hrun. rename E into Eword.
    destruct (primaryInputWordLoop_spec _ _ _ Eword) as (w & -> & Hlen & _).
    cbn [mTouchPositionCorrectionEnabled set_mPrimaryInputWord mSampledInputSize] in Hrun.
    destruct (mTouchPositionCorrectionEnabled st1).
    + destruct (normalizedSquaredDistancesLoop_spec _ _ _ _ _ Hrun) as (a & -> & Hlena & _).
      exists w, a. done.
    + injection Hrun as <-. exists w, (mNormalizedSquaredDistances st1).
      by rewrite <- (set_mNormalizedSquaredDistances_same (set_mPrimaryInputWord st1 w)) at 1.
  - injection Hrun as <-. exists (mPrimaryInputWord st1), (mNormalizedSquaredDistances st1).
    by rewrite set_mPrimaryInputWord_same, set_mNormalizedSquaredDistances_same.
Qed.

(** X11. The primary input word after a call: [mPrimaryInputWord] keeps its
    size; after a tap-mode call for the pointer 0 its first [inputSize]
    entries are the primary code points of the slots, the entries behind them
    are 0, and [inputSize] is within the array (the loop has no other
    bound); after any other call every entry is 0. *)
Theorem primary_input_word (pinfo : ProximityInfo) (st st' : State) (a : InitArgs) :
  init D U pinfo st a = Some st' ->
  vsize (mPrimaryInputWord st') = vsize (mPrimaryInputWord st) /\
  (argIsGeometric a = false -> argPointerId a = 0 ->
   argInputSize a <= vsize (mPrimaryInputWord st) /\
   (forall i, 0 <= i < argInputSize a ->
      exists c, getPrimaryCodePointAt D st' i = Some c /\
                rd (mPrimaryInputWord st') i = Some c) /\
   (forall i, argInputSize a <= i -> 0 <= i < vsize (mPrimaryInputWord st) ->
      rd (mPrimaryInputWord st') i = Some 0)) /\
  (argIsGeometric a = true \/ argPointerId a <> 0 ->
   forall i, 0 <= i < vsize (mPrimaryInputWord st) ->
     rd (mPrimaryInputWord st') i = Some 0).
Proof.
  intros Hrun. apply init_tail in Hrun as (st1 & Htail & _ & Hword).
  apply primaryInputWordAndDistances_spec in Htail as (w & d & -> & Hlenw & _ & Hloops).
  cbn [mPrimaryInputWord set_mNormalizedSquaredDistances set_mPrimaryInputWord].
  assert (Hlen1 : length (mPrimaryInputWord st1) = length (mPrimaryInputWord st)).
  { rewrite Hword. apply length_replicate. }
  split; [unfold vsize; congruence|]. split.
  - intros Hg Hp. rewrite Hg, Hp in Hloops. cbn in Hloops. destruct Hloops as [Hloop _].
    apply primaryInputWordLoop_spec in Hloop as (w' & Hw' & _ & Hbound & Hin & Hout).
    assert (w' = w) as -> by exact (f_equal mPrimaryInputWord (eq_sym Hw')).
    unfold vsize in *. split; [lia|]. split; [exact Hin|].
    intros i Hi Hrange. rewrite Hout by done. rewrite Hword.
    apply rd_memset_in. unfold vsize. lia.
  - intros Hother i Hi.
    replace (negb (argIsGeometric a) && (argPointerId a =? 0)) with false in Hloops.
    + destruct Hloops as [-> _]. rewrite Hword. by apply rd_memset_in.
    + symmetry. destruct Hother as [->|Hne]; [done|].
      apply andb_false_iff. right. by apply Z.eqb_neq.
Qed.

(** X12. The distances of the proximity characters after a tap-mode call for
    the pointer 0 that enabled the touch position correction: for a sampled
    point [i] and a proximity character [j] that the loop reaches,
    [mNormalizedSquaredDistances[i * MAX_PROXIMITY_CHARS_SIZE + j]] is the
    scaled distance of the character, or its WITHOUT_DISTANCE_INFO code;
    behind the first character that is not positive the entry is still what
    [memset] left. *)
Theorem proximity_char_distances (pinfo : ProximityInfo) (st st' : State) (a : InitArgs) :
  init D U pinfo st a = Some st' ->
  argIsGeometric a = false -> argPointerId a = 0 ->
  mTouchPositionCorrectionEnabled st' = true ->
  forall i j,
    0 <= i < mSampledInputSize st' -> 0 <= j < MAX_PROXIMITY_CHARS_SIZE D ->
    (proximityCharsReach D st' i j ->
     exists c v, getProximityCodePointsAt D st' i j = Some c /\
                 scaledDistanceOf D st' i j c = Some v /\
                 rd (mNormalizedSquaredDistances st')
                    (i * MAX_PROXIMITY_CHARS_SIZE D + j) = Some v) /\
    (forall j' v, 0 <= j' <= j -> proximityCharsEndAt D st' i j' ->
       rd (mNormalizedSquaredDistances st') (i * MAX_PROXIMITY_CHARS_SIZE D + j) = Some v ->
       v = memset_int (NOT_A_DISTANCE D)).
Proof.
  intros Hrun Hgeo Hptr Hon i j Hi Hj.
  apply init_tail in Hrun as (st1 & Htail & Hdist & _).
  apply primaryInputWordAndDistances_spec in Htail as (w & d & Hst' & _ & _ & Hloops).
  rewrite Hgeo, Hptr in Hloops. cbn in Hloops. destruct Hloops as [_ Hloop].
  assert (Hon1 : mTouchPositionCorrectionEnabled st1 = true).
  { rewrite <- Hon, Hst'. done. }
  assert (Hn : mSampledInputSize st' = mSampledInputSize st1) by (by rewrite Hst').
  rewrite Hon1 in Hloop.
  apply normalizedSquaredDistancesLoop_spec in Hloop as (d' & Hd' & _ & Hall).
  assert (Harr : mNormalizedSquaredDistances st' = d') by (by rewrite Hd').
  destruct (Hall i j) as [Hreach Hstop]; [lia|done|].
  rewrite Harr. rewrite Hd'. split.
  - exact Hreach.
  - intros j' v Hj' Hend Hrd. rewrite (Hstop j' Hj' Hend) in Hrd.
    cbn [mNormalizedSquaredDistances set_mPrimaryInputWord] in Hrd.
    rewrite Hdist in Hrd. by apply rd_memset in Hrd.
Qed.

(** X13. The distances array outside the touch position correction:
    [mNormalizedSquaredDistances] keeps its size, and after a gesture-mode
    call, a call for another pointer than 0, or a call that leaves the
    correction disabled, every entry is what [memset] made of
    [NOT_A_DISTANCE]. *)
Theorem distances_without_correction (pinfo : ProximityInfo) (st st' : State)
    (a : InitArgs) :
  init D U pinfo st a = Some st' ->
  vsize (mNormalizedSquaredDistances st') = vsize (mNormalizedSquaredDistances st) /\
  (argIsGeometric a = true \/ argPointerId a <> 0 \/
   mTouchPositionCorrectionEnabled st' = false ->
   mNormalizedSquaredDistances st'
   = memset (mNormalizedSquaredDistances st) (NOT_A_DISTANCE D)).
Proof.
  intros Hrun. apply init_tail in Hrun as (st1 & Htail & Hdist & _).
  apply primaryInputWordAndDistances_spec in Htail as (w & d & -> & _ & Hlen & Hloops).
  cbn [mNormalizedSquaredDistances mTouchPositionCorrectionEnabled
       set_mNormalizedSquaredDistances set_mPrimaryInputWord].
  split.
  - unfold vsize. rewrite Hlen, Hdist. unfold memset. by rewrite length_replicate.
  - intros Hcase. rewrite <- Hdist.
    destruct (negb (argIsGeometric a) && (argPointerId a =? 0)) eqn:Etap.
    + zb. destruct Hcase as [Hg|[Hp|Hoff]]; [by rewrite Hg in *|lia|].
      destruct Hloops as [_ Hloop]. by rewrite Hoff in Hloop.
    + by destruct Hloops as [_ ->].
Qed.

(** ** isKeyInSerchKeysAfterIndex after a gesture call *)

(** X14. The search-key query after a gesture call that does not continue
    the session: for a sampled point [i] and a key [k] within the capacity of
    the key sets, [isKeyInSerchKeysAfterIndex] returns [true] exactly when
    [k] is, in the near-key sets that the call leaves, a near key of some
    sampled point [j >= i] reached from [i] through points that all lie less
    than [readForwordLength] further along the path; for a key outside the
    capacity of the sets the query has no result. *)
Theorem search_key_query (pinfo : ProximityInfo) (st st' : State) (a : InitArgs) :
  startsAfresh D st a ->
  argIsGeometric a = true ->
  init D U pinfo st a = Some st' ->
  forall i k,
    0 <= i < mSampledInputSize st' ->
    (0 <= k < MAX_KEY_COUNT_IN_A_KEYBOARD D ->
     exists readForwordLength b,
       readForwordLengthOf U pinfo = Some readForwordLength /\
       isKeyInSerchKeysAfterIndex D st' i k = Some b /\
       (b = true <->
        exists j nbits,
          i <= j < mSampledInputSize st' /\
          (forall j', i <= j' <= j ->
             withinReach (mLengthCache st') readForwordLength i j') /\
          rd (mNearKeysVector st') j = Some nbits /\ Z.testbit nbits k = true)) /\
    (~ (0 <= k < MAX_KEY_COUNT_IN_A_KEYBOARD D) ->
     isKeyInSerchKeysAfterIndex D st' i k = None).
Proof.
  intros Hfresh Hgeo Hrun i k Hi.
  destruct (searchKeys_rows_afresh pinfo st st' a Hfresh Hgeo Hrun i Hi)
    as (rfl & bits & Hrfl & Hbits & Hiff).
  unfold isKeyInSerchKeysAfterIndex. rewrite Hbits. cbn [mbind option_bind].
  unfold test. split.
  - intros Hk. exists rfl, (Z.testbit bits k). split; [done|]. split; [|apply Hiff].
    replace ((0 <=? k) && (k <? MAX_KEY_COUNT_IN_A_KEYBOARD D)) with true; [done|].
    symmetry. apply andb_true_iff. split; [apply Z.leb_le|apply Z.ltb_lt]; lia.
  - intros Hk.
    destruct ((0 <=? k) && (k <? MAX_KEY_COUNT_IN_A_KEYBOARD D)) eqn:E; [|done].
    zb. lia.
Qed.

(** ** A call that continues the session *)

Lemma removelast_length_pred {A} (l : list A) :
  length (removelast l) = pred (length l).
Proof. rewrite removelast_firstn_len, length_take. lia. Qed.

Lemma pop_back_vsize {A} (v v' : list A) :
  pop_back v = Some v' -> vsize v' = vsize v - 1.
Proof.
  unfold pop_back, vsize. destruct v as [|x v]; [done|].
  intros H. apply (inj Some) in H. subst v'.
  rewrite removelast_length_pred. cbn [length]. lia.
Qed.

Lemma popInputData_vsize (sv sv' : SampledVectors) :
  popInputData sv = Some sv' -> vsize (svXs sv') = vsize (svXs sv) - 1.
Proof.
  unfold popInputData. intros H.
  bind_inv H. apply pop_back_vsize in E. do 4 bind_inv H. by injection H as <-.
Qed.

(** What a call that continues the session has done to the caches. *)
Lemma init_shape_continued (pinfo : ProximityInfo) (st st' : State) (a : InitArgs) :
  init D U pinfo st a = Some st' ->
  mIsContinuationPossible st' = true ->
  1 < vsize (mInputIndice st) ->
  0 < mSampledInputSize st' ->
  exists nk1 sk1 : list Z,
    let n := mSampledInputSize st' in
    let kc := getKeyCount pinfo in
    let lastSaved := vsize (mSampledInputXs st) - 2 in
    0 <= lastSaved /\ 0 <= n * kc /\
    for_range lastSaved n (nearKeysOfPoint D pinfo (sampled st') kc)
      (resize (Z.to_nat (n * kc)) F_0_0 (mDistanceCache_G st),
       resize (Z.to_nat n) 0 (mNearKeysVector st),
       resize (Z.to_nat n) 0 (mSearchKeysVector st))
    = Some (mDistanceCache_G st', nk1, sk1) /\
    if argIsGeometric a then
      (exists written, mNearKeysVector st' = writeNearKeys lastSaved nk1 written) /\
      exists readForwordLength,
        readForwordLengthOf U pinfo = Some readForwordLength /\
        for_range 0 n
          (searchKeysOfPoint (mLengthCache st') (mNearKeysVector st') readForwordLength
             lastSaved n) sk1
        = Some (mSearchKeysVector st')
    else mNearKeysVector st' = nk1 /\ mSearchKeysVector st' = sk1.
Proof.
  intros Hrun Hcont Hmany Hpos. unfold init, initInputParams in Hrun.
  bind_inv Hrun. rename b into c. clear E.
  bind_inv Hrun. clear E.
  set (update := c && (1 <? vsize (mInputIndice st))) in *.
  bind_inv Hrun. clear E.
  bind_inv Hrun. rename s into sv0, E into Esv0.
  bind_inv Hrun. destruct p as [n sv]. clear E.
  bind_inv Hrun. destruct p as [[[avg sr] dirs] bl]. clear E.
  bind_inv Hrun. destruct p as [[[dc nk] sk] cp]. rename E into Ecaches.
  apply primaryInputWordAndDistances_frame in Hrun.
  assert (Hn : mSampledInputSize st' = n) by exact (f_equal mSampledInputSize Hrun).
  assert (Hsv : sampled st' = sv).
  { transitivity (sampled (exceptWordAndDistances st')); [done|].
    rewrite Hrun. by destruct sv. }
  assert (Hdc : mDistanceCache_G st' = dc) by exact (f_equal mDistanceCache_G Hrun).
  assert (Hnk : mNearKeysVector st' = nk) by exact (f_equal mNearKeysVector Hrun).
  assert (Hsk : mSearchKeysVector st' = sk) by exact (f_equal mSearchKeysVector Hrun).
  assert (Hc : mIsContinuationPossible st' = c)
    by exact (f_equal mIsContinuationPossible Hrun).
  assert (Hlen : mLengthCache st' = svLengthCache sv)
    by exact (f_equal mLengthCache Hrun).
  assert (Hu : update = true).
  { unfold update. rewrite <- Hc, Hcont. cbn. apply Z.ltb_lt. lia. }
  rewrite Hu in Esv0, Ecaches. cbn [keepIf] in Ecaches.
  bind_inv Esv0. rename s into sv1, E into Esv1.
  apply popInputData_vsize in Esv0, Esv1. cbn [sampled svXs] in Esv1.
  assert (Hlast : vsize (svXs sv0) = vsize (mSampledInputXs st) - 2) by lia.
  rewrite Hlast in Ecaches.
  rewrite Hn in Hpos. replace (0 <? n) with true in Ecaches by (symmetry; apply Z.ltb_lt; lia).
  destruct (n * getKeyCount pinfo <? 0) eqn:Enk; [done|]. apply Z.ltb_ge in Enk.
  bind_inv Ecaches. destruct p as [[dc1 nk1] sk1]. rename E into Eloop.
  exists nk1, sk1. cbn zeta. rewrite Hn, Hsv, Hdc, Hnk, Hsk, Hlen.
  assert (Hsame : dc1 = dc).
  { destruct (argIsGeometric a).
    - bind_inv Ecaches. destruct p as [written cp']. bind_inv Ecaches. bind_inv Ecaches.
      by injection Ecaches as <- _ _ _.
    - by injection Ecaches as <- _ _ _. }
  subst dc1.
  split; [unfold vsize in *; lia|]. split; [done|]. split; [done|].
  destruct (argIsGeometric a).
  - bind_inv Ecaches. destruct p as [written cp']. bind_inv Ecaches. bind_inv Ecaches.
    injection Ecaches as <- <- _. split; [by exists written|].
    eexists. split; eassumption.
  - by injection Ecaches as <- <- _.
Qed.

Lemma searchKeys_kept (pinfo : ProximityInfo) (sv : SampledVectors) (keyCount lo hi : Z)
    (dc0 : list float) (nk0 sk0 : list Z) (dc : list float) (nk sk : list Z) :
  for_range lo hi (nearKeysOfPoint D pinfo sv keyCount) (dc0, nk0, sk0)
    = Some (dc, nk, sk) ->
  forall i, i < lo -> rd sk i = rd sk0 i.
Proof.
  intros Hrun i Hi.
  destruct (decide (hi <= lo)) as [Hle|Hlt].
  { rewrite for_range_empty in Hrun by done. by injection Hrun as _ _ <-. }
  set (Q := fun (i' : Z) (acc : list float * list Z * list Z) => rd acc.2 i = rd sk0 i).
  enough (HQ : Q hi (dc, nk, sk)) by apply HQ.
  eapply (for_range_invariant Q); [|  | |exact Hrun]; [lia|done|].
  intros i0 [[dc1 nk1] sk1] [[dc2 nk2] sk2] Hi0 Hrow Hbody.
  unfold nearKeysOfPoint in Hbody.
  bind_inv Hbody. bind_inv Hbody. bind_inv Hbody. destruct p as [dc4 nk4].
  injection Hbody as <- <- <-. unfold Q in *. cbn in *.
  rewrite (rd_wr_ne _ _ _ _ _ E0) by lia. done.
Qed.

Lemma searchKeysStep_other (lengthCache nearKeys : list Z) (readForwordLength i : Z)
    (idxs searchKeys0 searchKeys : list Z) :
  searchKeysStep lengthCache nearKeys readForwordLength i idxs searchKeys0
    = Some searchKeys ->
  forall i', i' <> i -> rd searchKeys i' = rd searchKeys0 i'.
Proof.
  revert searchKeys0. induction idxs as [|j rest IH]; intros searchKeys0 Hrun i' Hne.
  - by injection Hrun as <-.
  - cbn [searchKeysStep] in Hrun. bind_inv Hrun. bind_inv Hrun.
    destruct (readForwordLength <=? int32 (z - z0)); [by injection Hrun as <-|].
    bind_inv Hrun. bind_inv Hrun. bind_inv Hrun.
    rewrite (IH _ Hrun i' Hne). apply (rd_wr_ne _ _ _ _ _ E3). lia.
Qed.

(** X15. "Just update difference": a call that continues the session and
    samples at least one point recomputes nothing for the points it keeps,
    those before the two popped ones.  Their near keys and their cached
    distances are what they were; their search keys are what they were in tap
    mode, and in gesture mode they keep every key they had, the keys of the
    popped points included. *)
Theorem continuation_keeps_rows (pinfo : ProximityInfo) (st st' : State) (a : InitArgs) :
  init D U pinfo st a = Some st' ->
  mIsContinuationPossible st' = true ->
  1 < vsize (mInputIndice st) ->
  forall i,
    0 <= i < vsize (mSampledInputXs st) - 2 -> i < mSampledInputSize st' ->
    (forall bits, rd (mNearKeysVector st) i = Some bits ->
       rd (mNearKeysVector st') i = Some bits) /\
    (forall k d, 0 <= k < getKeyCount pinfo ->
       rd (mDistanceCache_G st) (i * getKeyCount pinfo + k) = Some d ->
       rd (mDistanceCache_G st') (i * getKeyCount pinfo + k) = Some d) /\
    (forall bits, rd (mSearchKeysVector st) i = Some bits ->
       exists bits',
         rd (mSearchKeysVector st') i = Some bits' /\
         (forall k, Z.testbit bits k = true -> Z.testbit bits' k = true) /\
         (argIsGeometric a = false -> bits' = bits)).
Proof.
  intros Hrun Hcont Hmany i Hi Hin.
  destruct (init_shape_continued pinfo st st' a Hrun Hcont Hmany) as
    (nk1 & sk1 & Hlast & Hnk & Hloop & Hsearch); [lia|].
  cbn zeta in *.
  set (n := mSampledInputSize st') in *. set (kc := getKeyCount pinfo) in *.
  set (lastSaved := vsize (mSampledInputXs st) - 2) in *.
  assert (Hsk1 : rd sk1 i = rd (resize (Z.to_nat n) 0 (mSearchKeysVector st)) i).
  { eapply searchKeys_kept; [exact Hloop|]. unfold lastSaved. lia. }
  assert (Hkept : rd (mNearKeysVector st') i = rd nk1 i).
  { destruct (argIsGeometric a).
    - destruct Hsearch as ((written & ->) & _).
      apply rd_writeNearKeys_below. unfold lastSaved. lia.
    - by destruct Hsearch as [-> _]. }
  assert (Hrows :
    rd (mNearKeysVector st') i = rd (resize (Z.to_nat n) 0 (mNearKeysVector st)) i /\
    forall k, 0 <= k < kc ->
      rd (mDistanceCache_G st') (i * kc + k)
      = rd (resize (Z.to_nat (n * kc)) F_0_0 (mDistanceCache_G st)) (i * kc + k)).
  { rewrite Hkept. destruct (decide (lastSaved <= n)) as [Hle|Hgt].
    - destruct (nearKeys_rows D _ _ _ _ _ _ _ _ _ _ _ Hlast Hle Hloop) as (_ & Hn1 & Hd1).
      split; [apply Hn1; lia|]. intros k Hk. apply Hd1; lia.
    - rewrite for_range_empty in Hloop by lia. injection Hloop as <- <- _. done. }
  destruct Hrows as [Hnear Hdist]. split; [|split].
  - intros bits Hbits. rewrite Hnear. apply rd_resize; [lia|done].
  - intros k d Hk Hd. rewrite Hdist by done. apply rd_resize; [nia|done].
  - intros bits Hbits.
    assert (Hrow1 : rd sk1 i = Some bits) by (rewrite Hsk1; apply rd_resize; [lia|done]).
    destruct (argIsGeometric a).
    + destruct Hsearch as (_ & rfl & _ & Hscan).
      set (Q := fun (i' : Z) (sk : list Z) =>
        exists bits', rd sk i = Some bits' /\
          forall k, Z.testbit bits k = true -> Z.testbit bits' k = true).
      assert (HQ : Q n (mSearchKeysVector st')).
      { eapply (for_range_invariant Q); [|  | |exact Hscan]; [lia|by exists bits|].
        intros i0 sk sk' Hi0 (bits0 & Hb0 & Hsub) Hbody.
        unfold searchKeysOfPoint in Hbody. bind_inv Hbody. rename l into sk0, E into Ereset.
        destruct (decide (i0 = i)) as [->|Hne].
        - replace (lastSaved <=? i) with false in Ereset by (symmetry; apply Z.leb_gt; lia).
          injection Ereset as <-.
          destruct (searchKeysStep_spec _ _ _ _ _ _ _ bits0 Hb0 Hbody)
            as (_ & s & Hs & Hiff).
          exists s. split; [done|]. intros k Hk. apply Hiff. left. by apply Hsub.
        - exists bits0. split; [|done].
          rewrite (searchKeysStep_other _ _ _ _ _ _ _ Hbody) by done.
          destruct (lastSaved <=? i0); [|by injection Ereset as <-].
          rewrite (rd_wr_ne _ _ _ _ _ Ereset) by done. done. }
      destruct HQ as (bits' & Hb' & Hsub). exists bits'. done.
    + destruct Hsearch as [_ ->]. by exists bits.
Qed.

(** ** Members that a call copies *)

(** The members of the session that one call takes from the geometry provider
    and from its arguments. *)
Lemma init_members (pinfo : ProximityInfo) (st st' : State) (a : InitArgs) :
  init D U pinfo st a = Some st' ->
  (mProximityInfo st' = Some pinfo /\
   mHasTouchPositionCorrectionData st' = hasTouchPositionCorrectionData pinfo /\
   mMostCommonKeyWidthSquare st' = getMostCommonKeyWidthSquare pinfo /\
   mKeyCount st' = getKeyCount pinfo) /\
  (mCellHeight st' = getCellHeight pinfo /\ mCellWidth st' = getCellWidth pinfo /\
   mGridHeight st' = getGridWidth pinfo /\ mGridWidth st' = getGridHeight pinfo) /\
  (mSampledInputSize st' <= 0 \/ argIsGeometric a = false ->
   mAverageSpeed st' = mAverageSpeed st).
Proof.
  intros Hrun. unfold init, initInputParams in Hrun.
  do 4 bind_inv Hrun.
  bind_inv Hrun. destruct p as [n sv].
  bind_inv Hrun. destruct p as [[[avg sr] dirs] bl]. rename E4 into Espeed.
  bind_inv Hrun. destruct p as [[[dc nk] sk] cp].
  apply primaryInputWordAndDistances_frame in Hrun.
  split; [|split].
  - repeat split.
    + exact (f_equal mProximityInfo Hrun).
    + exact (f_equal mHasTouchPositionCorrectionData Hrun).
    + exact (f_equal mMostCommonKeyWidthSquare Hrun).
    + exact (f_equal mKeyCount Hrun).
  - repeat split.
    + exact (f_equal mCellHeight Hrun).
    + exact (f_equal mCellWidth Hrun).
    + exact (f_equal mGridHeight Hrun).
    + exact (f_equal mGridWidth Hrun).
  - assert (Hn : mSampledInputSize st' = n) by exact (f_equal mSampledInputSize Hrun).
    assert (Hs : mAverageSpeed st' = avg) by exact (f_equal mAverageSpeed Hrun).
    intros Hcase. rewrite Hs.
    replace ((0 <? n) && argIsGeometric a) with false in Espeed.
    + by injection Espeed as <- _ _ _.
    + symmetry. apply andb_false_iff. destruct Hcase as [Hle|Hg]; [left|by right].
      apply Z.ltb_ge. lia.
Qed.

(** X16. A call without coordinates, when it returns, has sampled nothing:
    [mSampledInputSize] is 0, the touch position correction is disabled, the
    average speed is the one of the call before, and the queries over the
    sampled points answer as for an empty session: the most probable string
    is empty with the sum 0.0, and every duration is 0. *)
Theorem call_without_coordinates (pinfo : ProximityInfo) (st st' : State) (a : InitArgs) :
  argXCoordinates a = None \/ argYCoordinates a = None ->
  init D U pinfo st a = Some st' ->
  mSampledInputSize st' = 0 /\
  mTouchPositionCorrectionEnabled st' = false /\
  mAverageSpeed st' = mAverageSpeed st /\
  getMostProbableString D st' = Some ([0], F_0_0) /\
  (forall index, getDuration st' index = Some 0).
Proof.
  intros Hnull Hrun.
  destruct (init_shape pinfo st st' a Hrun)
    as (c & update & lastSaved & nk1 & sk1 & _ & _ & _ & _ & _ & _ & _ & Hsize & Hcorr & _).
  cbn zeta in Hsize, Hcorr. specialize (Hsize Hnull).
  destruct (init_members pinfo st st' a Hrun) as (_ & _ & Hspeed).
  split; [done|]. split; [by rewrite Hcorr, Hsize|].
  split; [apply Hspeed; lia|]. split.
  - unfold getMostProbableString. by rewrite Hsize.
  - intros index. unfold getDuration. rewrite Hsize.
    destruct ((0 <=? index) && (index <? 0 - 1)) eqn:E; [zb; lia|done].
Qed.

(** X17. The geometry of a session after its calls: whatever the calls
    before the last one and the providers they came with, the session holds
    the provider of the last call and that provider's correction flag, key
    width, key count and cell size; the grid size is held with width and
    height exchanged: [mGridHeight] is the provider's grid width and
    [mGridWidth] its grid height. *)
Theorem geometry_members (calls : list (ProximityInfo * InitArgs))
    (pinfo : ProximityInfo) (a : InitArgs) (st st' : State) :
  session D U (calls ++ [(pinfo, a)]) st = Some st' ->
  (mProximityInfo st' = Some pinfo /\
   mHasTouchPositionCorrectionData st' = hasTouchPositionCorrectionData pinfo /\
   mMostCommonKeyWidthSquare st' = getMostCommonKeyWidthSquare pinfo /\
   mKeyCount st' = getKeyCount pinfo) /\
  (mCellHeight st' = getCellHeight pinfo /\ mCellWidth st' = getCellWidth pinfo /\
   mGridHeight st' = getGridWidth pinfo /\ mGridWidth st' = getGridHeight pinfo).
Proof.
  revert st. induction calls as [|[pinfo0 a0] rest IH]; intros st Hrun.
  - cbn [app session] in Hrun. bind_inv Hrun. rename s into st1, E into Einit.
    injection Hrun as <-.
    destruct (init_members pinfo st st1 a Einit) as (Hp & Hg & _). done.
  - cbn [app session] in Hrun. bind_inv Hrun. by apply (IH s).
Qed.

(** ** The round trip *)

(** The average speed that a gesture call writes when it has cleared all
    data and sampled a point. *)
Lemma init_speed (pinfo : ProximityInfo) (st st' : State) (a : InitArgs) :
  init D U pinfo st a = Some st' ->
  startsAfresh D st a ->
  argIsGeometric a = true ->
  0 < mSampledInputSize st' ->
  exists speedRates directions,
    refreshSpeedRates U (argInputSize a) (argXCoordinates a) (argYCoordinates a)
      (argTimes a) 0 (mSampledInputSize st') (sampled st') [] []
    = Some (mAverageSpeed st', speedRates, directions).
Proof.
  intros Hrun (c0 & Hc0 & Hfresh) Hgeo Hpos. unfold init, initInputParams in Hrun.
  bind_inv Hrun. assert (b = c0) as -> by congruence. clear E. rewrite Hfresh in Hrun.
  bind_inv Hrun. clear E.
  bind_inv Hrun. destruct p as [n sv]. clear E.
  bind_inv Hrun. destruct p as [[[avg sr] dirs] bl]. rename E into Espeed.
  bind_inv Hrun. destruct p as [[[dc nk] sk] cp]. clear E.
  cbn [keepIf] in Espeed.
  apply primaryInputWordAndDistances_frame in Hrun.
  assert (Hn : mSampledInputSize st' = n) by exact (f_equal mSampledInputSize Hrun).
  assert (Hs : mAverageSpeed st' = avg) by exact (f_equal mAverageSpeed Hrun).
  assert (Hsv : sampled st' = sv).
  { transitivity (sampled (exceptWordAndDistances st')); [done|].
    rewrite Hrun. by destruct sv. }
  rewrite Hn, Hs, Hsv. rewrite Hn in Hpos.
  replace ((0 <? n) && argIsGeometric a) with true in Espeed.
  - bind_inv Espeed. destruct p as [[avg' sr'] dirs']. bind_inv Espeed.
    injection Espeed as <- _ _ _. by exists sr', dirs'.
  - symmetry. rewrite Hgeo. apply andb_true_iff. split; [by apply Z.ltb_lt|done].
Qed.

(** C6. Invalidation round-trip: let [stA] be the state a call with a stream A
    left the session in.  Whenever the continuation with the stream B is
    judged impossible, [initInputParams] clears every buffer of the session,
    and the call with B on [stA] ends as the same call on a fresh session
    does: in the same undefined behaviour, or in states with the same
    buffers and the same members but for two.  The verdict
    [mIsContinuationPossible] is [false] after the round trip and [true] on
    the fresh session; [mAverageSpeed] is the same when B is a gesture that
    samples a point, and is otherwise what it was before the call, in each
    of the two sessions. *)
Theorem invalidation_round_trip (proximityInfo : ProximityInfo) (stA : State)
    (b : InitArgs) :
  arraysAsDeclared D stA ->
  checkAndReturnIsContinuationPossible D stA (argInputSize b) (argXCoordinates b)
    (argYCoordinates b) (argTimes b) (argIsGeometric b) = Some false ->
  bothOrNeither
    (fun s1 s2 =>
       sameButVerdictAndSpeed s1 s2 /\
       mIsContinuationPossible s1 = false /\
       (argIsGeometric b = true \/ 0 <= argInputSize b ->
        mIsContinuationPossible s2 = true) /\
       (if argIsGeometric b && (0 <? mSampledInputSize s2)
        then mAverageSpeed s1 = mAverageSpeed s2
        else mAverageSpeed s1 = mAverageSpeed stA /\
             mAverageSpeed s2 = mAverageSpeed (fresh D)))
    (init D U proximityInfo stA b) (init D U proximityInfo (fresh D) b).
Proof.
  intros Harrays Hcheck.
  pose proof (round_trip_buffers D U proximityInfo stA b Harrays Hcheck) as Hsame.
  destruct (init D U proximityInfo stA b) as [s1|] eqn:E1,
           (init D U proximityInfo (fresh D) b) as [s2|] eqn:E2; try done.
  cbn [bothOrNeither] in *. split; [done|].
  assert (Hn : mSampledInputSize s1 = mSampledInputSize s2)
    by exact (f_equal mSampledInputSize Hsame).
  assert (Hsv : sampled s1 = sampled s2) by exact (f_equal sampled Hsame).
  destruct (init_shape proximityInfo stA s1 b E1)
    as (c1 & u1 & l1 & nk1 & sk1 & Hc1 & _ & _ & _ & _ & _ & Hflag1 & _).
  destruct (init_shape proximityInfo (fresh D) s2 b E2)
    as (c2 & u2 & l2 & nk2 & sk2 & Hc2 & _ & _ & _ & _ & _ & Hflag2 & _).
  assert (Hfresh1 : startsAfresh D stA b) by (by exists false).
  assert (Hfresh2 : startsAfresh D (fresh D) b).
  { exists c2. split; [done|]. by destruct c2. }
  split; [congruence|]. split.
  - intros Hcase. rewrite Hflag2. unfold checkAndReturnIsContinuationPossible in Hc2.
    change (mSampledInputSize (fresh D)) with 0 in Hc2.
    destruct (argIsGeometric b); [by injection Hc2 as <-|].
    destruct Hcase as [Hgeo|Hsize]; [done|].
    replace (argInputSize b <? 0) with false in Hc2 by (symmetry; apply Z.ltb_ge; lia).
    rewrite seqZ_nil in Hc2 by lia. by injection Hc2 as <-.
  - destruct (argIsGeometric b && (0 <? mSampledInputSize s2)) eqn:Ekin.
    + zb. destruct (init_speed proximityInfo stA s1 b E1 Hfresh1) as (sr1 & d1 & Hs1);
        [done|lia|].
      destruct (init_speed proximityInfo (fresh D) s2 b E2 Hfresh2) as (sr2 & d2 & Hs2);
        [done|lia|].
      rewrite Hn, Hsv, Hs2 in Hs1. by injection Hs1 as <- _ _.
    + destruct (init_members proximityInfo stA s1 b E1) as (_ & _ & Hkeep1).
      destruct (init_members proximityInfo (fresh D) s2 b E2) as (_ & _ & Hkeep2).
      assert (Hcase : mSampledInputSize s2 <= 0 \/ argIsGeometric b = false).
      { apply andb_false_iff in Ekin as [Hg|Hz]; [by right|left].
        by apply Z.ltb_ge in Hz. }
      split; [|by apply Hkeep2].
      apply Hkeep1. destruct Hcase as [Hz|Hg]; [left; lia|by right].
Qed.

End Calls.


(** * The properties on the small keyboard *)

Module Worked.

Import Example.

(** Closes a goal on concrete values by evaluation. *)
Ltac computed :=
  vm_compute;
  repeat match goal with |- _ /\ _ => split end;
  first [reflexivity | discriminate | (intro; discriminate)].

(** ** The fixture *)

Lemma utils_returnsSampleCount : returnsSampleCount utils.
Proof.
  intros w pinfo maxLen prox xs ys times pids inputSize isGeo pid start sv n sv' H.
  cbn in H. unfold everyPoint in H.
  destruct (for_range start inputSize (pushTouchPoint xs ys times) sv); [|done].
  cbn in H. by injection H as <- <-.
Qed.

Lemma utils_keepsNearKeys : keepsNearKeys utils.
Proof.
  intros maxLen w keyCount start n xs ys speedRates lengthCache distanceCache nearKeys
    cps written cps' H.
  cbn in H. destruct (alignPoints keyCount start n distanceCache nearKeys cps); [|done].
  cbn in H. by injection H as <- _.
Qed.

Lemma session_afterCalls (calls : list (ProximityInfo * InitArgs)) (n : Z) :
  mSampledInputSize <$> session defines utils calls (fresh defines) = Some n ->
  session defines utils calls (fresh defines) = Some (afterCalls calls).
Proof.
  unfold afterCalls. by destruct (session defines utils calls (fresh defines)).
Qed.

Lemma session_after (calls : list InitArgs) (n : Z) :
  mSampledInputSize <$> session defines utils (onKeyboard asd calls) (fresh defines)
    = Some n ->
  session defines utils (onKeyboard asd calls) (fresh defines) = Some (after calls).
Proof.
  unfold after.
  by destruct (session defines utils (onKeyboard asd calls) (fresh defines)).
Qed.

(** The stream of [strokeA'] continues the one of [strokeA]: the second call
    keeps the first sampled point and samples the others again. *)
Example continued_session :
  ((fun st => (mIsContinuationPossible st, mSampledInputXs st, mNearKeysVector st,
               mSearchKeysVector st))
     <$> session defines utils (onKeyboard asd [strokeA; strokeA']) (fresh defines))
  = Some (true, [30; 40; 50; 30; 10], [7; 7; 6; 7; 3], [7; 7; 7; 7; 3]).
Proof. vm_compute. reflexivity. Qed.

(** ** C2 *)



(** ** C3 *)

Lemma tapOnA_list : proximityListIs defines tapOnA 0 [97; 115; 100; 2; 113].
Proof.
  split.
  - intros j x Hj.
    do 5 (destruct j as [|j]; [injection Hj as <-; vm_compute; reflexivity|]).
    discriminate Hj.
  - intros j Hj. cbn in Hj. exists 0. split; [|cbn; lia].
    assert (Hcases : j = 5 \/ j = 6 \/ j = 7 \/ j = 8 \/ j = 9 \/ j = 10 \/ j = 11
                     \/ j = 12 \/ j = 13 \/ j = 14 \/ j = 15) by lia.
    repeat destruct Hcases as [->|Hcases]; try subst j; vm_compute; reflexivity.
Qed.

Lemma classifier_priority_witness :
  getMatchedProximityId defines utils tapOnA 0 97 true (Some 0)
    = Some (EQUIVALENT_CHAR, Some 0) /\
  getMatchedProximityId defines utils tapOnA 0 115 true (Some 0)
    = Some (NEAR_PROXIMITY_CHAR, Some 1) /\
  getMatchedProximityId defines utils tapOnA 0 113 true (Some 0)
    = Some (ADDITIONAL_PROXIMITY_CHAR, Some 4) /\
  getMatchedProximityId defines utils tapOnA 0 122 true (Some 0)
    = Some (UNRELATED_CHAR, Some 0).
Proof.
  destruct (classifier_priority defines utils tapOnA 0 97 115 100 113 (Some 0))
    as (Heq & Hnear & Hadd & Hun).
  - exact tapOnA_list.
  - vm_compute. discriminate.
  - vm_compute. reflexivity.
  - vm_compute. reflexivity.
  - vm_compute. reflexivity.
  - split; [|split; [|split]].
    + apply Heq. right. reflexivity.
    + apply Hnear. vm_compute. intros [[H|H]|H]; discriminate H.
    + apply Hadd; vm_compute; [intros [[H|H]|H]|intros [H|H]|intros [H|H]];
        discriminate H.
    + apply Hun; vm_compute; [intros [[H|H]|H]|intros [H|H]|intros [H|H]|intros [H|H]];
        discriminate H.
Defined.

(** The target 'A' (65) is absent from the proximity list of the tap on 'a',
    and it is an [EQUIVALENT_CHAR], not an [UNRELATED_CHAR]: the first-listed
    character is its normalized form. *)
Lemma classifier_counterexample :
  proximityListIs defines tapOnA 0 [97; 115; 100; 2; 113] /\
  (65 ∉ [97; 115; 100; 2; 113]) /\
  getMatchedProximityId defines utils tapOnA 0 65 true (Some 0)
    = Some (EQUIVALENT_CHAR, Some 0).
Proof.
  split; [exact tapOnA_list|]. split; [|vm_compute; reflexivity].
  intros H. repeat (apply elem_of_cons in H as [H|H]; [discriminate H|]).
  by apply elem_of_nil in H.
Qed.

(** ** C4 *)

Lemma length_clamp_witness :
  (exists v, getPointToKeyLength defines utils tapOnA 0 100 F_1_0 = Some v /\
             flt (mMaxPointToKeyLength tapOnA) v = false) /\
  getPointToKeyLength defines utils tapOnA 0 45 F_1_0 = Some F_0_0.
Proof.
  destruct (length_clamp defines utils tapOnA asd 0 100 F_1_0 eq_refl) as [Hkey _].
  destruct (length_clamp defines utils tapOnA asd 0 45 F_1_0 eq_refl) as [_ Hnone].
  split.
  - apply Hkey; computed.
  - apply Hnone. computed.
Defined.

(** The code point 'z' (122) has no key on the keyboard and is not skippable:
    for the sampled point 0, which is in range, the value is
    [MAX_POINT_TO_KEY_LENGTH], above the maximum 10.0 that the caller
    supplied. *)
Lemma length_clamp_counterexample :
  0 <= 0 < mSampledInputSize tapOnA /\
  mMaxPointToKeyLength tapOnA = static_cast_float 10 /\
  exists v, getPointToKeyLength defines utils tapOnA 0 122 F_1_0 = Some v /\
            flt (mMaxPointToKeyLength tapOnA) v = true.
Proof.
  split; [computed|]. split; [reflexivity|].
  exists (static_cast_float 10000000). computed.
Qed.

(** ** C5 *)

Lemma tap_mode_continuation_witness :
  exists b,
    checkAndReturnIsContinuationPossible defines (after [tapsDas]) 4
      (Some [50; 10; 30; 30]) (Some [10; 10; 10; 10]) None false = Some b /\
    (b = true <->
     mSampledInputSize (after [tapsDas]) <= 4 /\
     forall i, 0 <= i < Z.min (mSampledInputSize (after [tapsDas]))
                              (MAX_WORD_LENGTH defines) ->
       rd [50; 10; 30; 30] i = rd (mSampledInputXs (after [tapsDas])) i /\
       rd [10; 10; 10; 10] i = rd (mSampledInputYs (after [tapsDas])) i).
Proof.
  apply (tap_mode_continuation defines (after [tapsDas]) 4 [50; 10; 30; 30]
           [10; 10; 10; 10] None); computed.
Defined.

(** ** C6 *)

Lemma invalidation_round_trip_witness :
  bothOrNeither
    (fun s1 s2 =>
       sameButVerdictAndSpeed s1 s2 /\
       mIsContinuationPossible s1 = false /\
       (argIsGeometric strokeB = true \/ 0 <= argInputSize strokeB ->
        mIsContinuationPossible s2 = true) /\
       (if argIsGeometric strokeB && (0 <? mSampledInputSize s2)
        then mAverageSpeed s1 = mAverageSpeed s2
        else mAverageSpeed s1 = mAverageSpeed (after [strokeA]) /\
             mAverageSpeed s2 = mAverageSpeed (fresh defines)))
    (init defines utils asd (after [strokeA]) strokeB)
    (init defines utils asd (fresh defines) strokeB).
Proof.
  apply (invalidation_round_trip defines utils asd (after [strokeA]) strokeB).
  - unfold arraysAsDeclared. computed.
  - computed.
Defined.

(** Both calls of the round trip return, with the two points of [strokeB]. *)
Example round_trip_returns :
  mSampledInputXs <$> init defines utils asd (after [strokeA]) strokeB = Some [10; 30] /\
  mSampledInputXs <$> init defines utils asd (fresh defines) strokeB = Some [10; 30].
Proof. computed. Qed.

(** The two sessions differ in the verdict that the call stored. *)
Example round_trip_verdicts :
  mIsContinuationPossible <$> init defines utils asd (after [strokeA]) strokeB
    = Some false /\
  mIsContinuationPossible <$> init defines utils asd (fresh defines) strokeB
    = Some true.
Proof. computed. Qed.

(** The gesture [strokeA] followed by the unrelated taps [tapsDas]: the
    continuation is judged impossible, both calls return, and the states
    differ in the verdict and in the average speed, which the tap call leaves
    as the gesture wrote it. *)
Lemma round_trip_counterexample :
  arraysAsDeclared defines (after [strokeA]) /\
  checkAndReturnIsContinuationPossible defines (after [strokeA]) (argInputSize tapsDas)
    (argXCoordinates tapsDas) (argYCoordinates tapsDas) (argTimes tapsDas)
    (argIsGeometric tapsDas) = Some false /\
  (mIsContinuationPossible <$> init defines utils asd (after [strokeA]) tapsDas
     = Some false /\
   mIsContinuationPossible <$> init defines utils asd (fresh defines) tapsDas
     = Some true) /\
  (mAverageSpeed <$> init defines utils asd (after [strokeA]) tapsDas = Some F_1_0 /\
   mAverageSpeed <$> init defines utils asd (fresh defines) tapsDas = Some F_0_0) /\
  ~ bothOrNeither observablyIdentical
      (init defines utils asd (after [strokeA]) tapsDas)
      (init defines utils asd (fresh defines) tapsDas).
Proof.
  assert (Hflags :
    mIsContinuationPossible <$> init defines utils asd (after [strokeA]) tapsDas
      = Some false /\
    mIsContinuationPossible <$> init defines utils asd (fresh defines) tapsDas
      = Some true) by computed.
  split; [unfold arraysAsDeclared; computed|]. split; [computed|].
  split; [exact Hflags|]. split; [computed|].
  destruct Hflags as [H1 H2]. revert H1 H2.
  destruct (init defines utils asd (after [strokeA]) tapsDas) as [s1|],
           (init defines utils asd (fresh defines) tapsDas) as [s2|];
    cbn; try discriminate.
  intros H1 H2 Hsame. unfold observablyIdentical in Hsame. subst s2. congruence.
Qed.

(** ** C7 *)

Lemma near_key_threshold_witness :
  exists bits d,
    rd (mNearKeysVector (afterCalls [(asd, tapsAasd); (twoShifts, tapsAasds)])) 1
      = Some bits /\
    rd (mDistanceCache_G (afterCalls [(asd, tapsAasd); (twoShifts, tapsAasds)]))
       (1 * 3 + 2) = Some d /\
    (Z.testbit bits 2 = true <-> flt d F_4_0 = true).
Proof.
  apply (near_key_threshold defines utils 3 [(asd, tapsAasd); (twoShifts, tapsAasds)]
           (afterCalls [(asd, tapsAasd); (twoShifts, tapsAasds)])
           utils_returnsSampleCount).
  - repeat constructor.
  - right. repeat constructor.
  - exact (session_afterCalls [(asd, tapsAasd); (twoShifts, tapsAasds)] 5
             ltac:(vm_compute; reflexivity)).
  - computed.
  - lia.
Defined.

(** The taps [tapsAasd] on the keyboard of three keys, continued by
    [tapsAasds] on the keyboard of two keys: the second call keeps the near
    keys of the first two points and lays the distance cache out for two keys
    a point.  For the kept point 1 and the key 0 the near-key set holds the
    key, and the cached distance is 4.0, which is not below 4.0. *)
Lemma near_key_threshold_counterexample :
  session defines utils [(asd, tapsAasd); (asOnly, tapsAasds)] (fresh defines)
    = Some (afterCalls [(asd, tapsAasd); (asOnly, tapsAasds)]) /\
  mIsContinuationPossible (afterCalls [(asd, tapsAasd); (asOnly, tapsAasds)]) = true /\
  0 <= 1 < mSampledInputSize (afterCalls [(asd, tapsAasd); (asOnly, tapsAasds)]) /\
  0 <= 0 < getKeyCount asOnly /\
  rd (mNearKeysVector (afterCalls [(asd, tapsAasd); (asOnly, tapsAasds)])) 1 = Some 3 /\
  rd (mDistanceCache_G (afterCalls [(asd, tapsAasd); (asOnly, tapsAasds)]))
     (1 * getKeyCount asOnly + 0) = Some F_4_0 /\
  Z.testbit 3 0 = true /\
  flt F_4_0 F_4_0 = false.
Proof.
  split.
  - exact (session_afterCalls [(asd, tapsAasd); (asOnly, tapsAasds)] 5
             ltac:(vm_compute; reflexivity)).
  - computed.
Qed.

(** What the alignment helper leaves in the near-key sets is what the session
    keeps and what the search keys are made of: with [pruning] the gesture
    [strokeA] ends without near keys and without search keys, and with
    [utils] it ends with those of the threshold. *)
Example helper_writes_near_keys :
  (fun st => (mNearKeysVector st, mSearchKeysVector st))
    <$> init defines pruning asd (fresh defines) strokeA = Some ([0; 0; 0], [0; 0; 0]) /\
  (fun st => (mNearKeysVector st, mSearchKeysVector st))
    <$> init defines utils asd (fresh defines) strokeA = Some ([7; 7; 6], [7; 7; 6]).
Proof. computed. Qed.

(** ** C8 *)

Lemma out_of_range_neutrality_witness :
  getDuration onS 1 = Some 0 /\
  getDuration onS (-1) = Some 0 /\
  getLineToKeyDistance utils onS 0 1 2 false = Some F_0_0.
Proof.
  destruct (out_of_range_neutrality utils onS) as [Hduration Hline].
  change (mSampledInputSize onS) with 1 in Hduration, Hline.
  split; [apply Hduration; lia|]. split; [apply Hduration; lia|].
  apply Hline. right. lia.
Defined.

(** ** C9 *)

Lemma asd_distinctCodePoints (bits : Z) : distinctCodePoints asd bits.
Proof.
  intros j1 j2 H1 H2 _ _ Hcode. change (getKeyCount asd) with 3 in H1, H2.
  assert (C1 : j1 = 0 \/ j1 = 1 \/ j1 = 2) by lia.
  assert (C2 : j2 = 0 \/ j2 = 1 \/ j2 = 2) by lia.
  destruct C1 as [-> | [-> | ->]]; destruct C2 as [-> | [-> | ->]];
    vm_compute in Hcode;
    first [reflexivity | discriminate Hcode].
Qed.

Lemma deduplicated_enumeration_witness :
  NoDup (take (Z.to_nat 3) [115; 97; 100; 0]).
Proof.
  apply (deduplicated_enumeration defines onS asd 0 7 [115; 0; 0; 0] 1
           [115; 97; 100; 0] 3).
  - reflexivity.
  - computed.
  - apply asd_distinctCodePoints.
  - change (NoDup [115]). apply NoDup_singleton.
  - computed.
Defined.

(** On the keyboard with two shift keys the point between them has both as
    search keys: an empty filter comes back with the code point -1 twice. *)
Lemma deduplication_counterexample :
  0 <= 0 < vsize (mSampledInputXs betweenShifts) /\
  NoDup (take (Z.to_nat 0) [0; 0; 0]) /\
  getAllPossibleChars defines betweenShifts 0 [0; 0; 0] 0 = Some ([-1; 97; -1], 3) /\
  ~ NoDup (take (Z.to_nat 3) [-1; 97; -1]).
Proof.
  split; [computed|]. split; [apply NoDup_nil_2|]. split; [computed|].
  change (~ NoDup [-1; 97; -1]). intros H. apply NoDup_cons in H as [Hnotin _].
  apply Hnotin. right. left.
Qed.

(** ** C10 *)

Lemma last_point_duration_witness :
  getDuration (after [strokeA]) 2 = Some 0 /\
  0 <= 1 < mSampledInputSize (after [strokeA]) - 1 /\
  exists t0 t1, rd (mTimes (after [strokeA])) 1 = Some t0 /\
                rd (mTimes (after [strokeA])) (1 + 1) = Some t1 /\
                25 = int32 (t1 - t0).
Proof.
  destruct (last_point_duration (after [strokeA]) 2) as [Hlast _].
  destruct (last_point_duration (after [strokeA]) 1) as [_ Hother].
  split; [apply Hlast; computed|]. apply (Hother 25); computed.
Defined.

(** ** The calls of the fixture, one by one *)

Lemma session_afterOn (pinfo : ProximityInfo) (calls : list InitArgs) (n : Z) :
  mSampledInputSize <$> session defines utils (onKeyboard pinfo calls) (fresh defines)
    = Some n ->
  session defines utils (onKeyboard pinfo calls) (fresh defines)
    = Some (afterOn pinfo calls).
Proof.
  unfold afterOn.
  by destruct (session defines utils (onKeyboard pinfo calls) (fresh defines)).
Qed.

Lemma session_app (calls calls' : list (ProximityInfo * InitArgs)) (st : State) :
  session defines utils (calls ++ calls') st
  = (st' ← session defines utils calls st; session defines utils calls' st').
Proof.
  revert st. induction calls as [|[pinfo a] rest IH]; intros st; [done|].
  cbn [app session]. destruct (init defines utils pinfo st a) as [st1|]; [|done].
  cbn [mbind option_bind]. apply IH.
Qed.

Lemma init_afterOn (pinfo : ProximityInfo) (calls : list InitArgs) (a : InitArgs) (n : Z) :
  mSampledInputSize
    <$> session defines utils (onKeyboard pinfo (calls ++ [a])) (fresh defines)
    = Some n ->
  init defines utils pinfo (afterOn pinfo calls) a = Some (afterOn pinfo (calls ++ [a])).
Proof.
  unfold afterOn, onKeyboard. rewrite fmap_app, session_app.
  destruct (session defines utils ((fun a => (pinfo, a)) <$> calls) (fresh defines))
    as [st1|]; [|done].
  cbn [fmap list_fmap].
  cbn [mbind option_bind session default from_option id].
  destruct (init defines utils pinfo st1 a) as [st2|]; [done|].
  intros H. discriminate H.
Qed.

(** ** X1 *)

Lemma cache_sizes_witness :
  vsize (mNearKeysVector (afterOn asd [strokeA])) = mSampledInputSize (afterOn asd [strokeA]) /\
  vsize (mSearchKeysVector (afterOn asd [strokeA]))
    = mSampledInputSize (afterOn asd [strokeA]) /\
  vsize (mDistanceCache_G (afterOn asd [strokeA]))
    = mSampledInputSize (afterOn asd [strokeA]) * getKeyCount asd.
Proof.
  apply (cache_sizes defines utils asd (fresh defines) (afterOn asd [strokeA]) strokeA).
  - exact (init_afterOn asd [] strokeA 3 ltac:(vm_compute; reflexivity)).
  - computed.
Defined.

(** ** X2 *)

Lemma pointToKeyLength_after_init_witness :
  exists v,
    getPointToKeyLength defines utils (afterOn asd [strokeA]) 1 100 F_1_0 = Some v /\
    flt (argMaxPointToKeyLength strokeA) v = false.
Proof.
  apply (pointToKeyLength_after_init defines utils asd (fresh defines)
           (afterOn asd [strokeA]) strokeA 1 100 F_1_0).
  - exact (init_afterOn asd [] strokeA 3 ltac:(vm_compute; reflexivity)).
  - computed.
  - computed.
  - computed.
Defined.

(** ** X3 *)

Lemma distance_cache_content_witness :
  exists x y,
    rd (mSampledInputXs (afterOn asd [strokeA])) 1 = Some x /\
    rd (mSampledInputYs (afterOn asd [strokeA])) 1 = Some y /\
    rd (mDistanceCache_G (afterOn asd [strokeA])) (1 * getKeyCount asd + 2)
    = Some (getNormalizedSquaredDistanceFromCenterFloatG asd 2 x y).
Proof.
  apply (distance_cache_content defines utils asd (fresh defines)
           (afterOn asd [strokeA]) strokeA).
  - exists true. split; vm_compute; reflexivity.
  - exact (init_afterOn asd [] strokeA 3 ltac:(vm_compute; reflexivity)).
  - computed.
  - computed.
Defined.

(** ** X4 *)

Lemma search_keys_gesture_witness :
  exists readForwordLength bits,
    readForwordLengthOf utils asd = Some readForwordLength /\
    rd (mSearchKeysVector (afterOn asd [strokeA])) 0 = Some bits /\
    forall k, Z.testbit bits k = true <->
      exists j nbits,
        0 <= j < mSampledInputSize (afterOn asd [strokeA]) /\
        (forall j', 0 <= j' <= j ->
           withinReach (mLengthCache (afterOn asd [strokeA])) readForwordLength 0 j') /\
        rd (mNearKeysVector (afterOn asd [strokeA])) j = Some nbits /\
        Z.testbit nbits k = true.
Proof.
  apply (search_keys_gesture defines utils asd (fresh defines)
           (afterOn asd [strokeA]) strokeA).
  - exists true. split; vm_compute; reflexivity.
  - reflexivity.
  - exact (init_afterOn asd [] strokeA 3 ltac:(vm_compute; reflexivity)).
  - computed.
Defined.

(** ** X5 *)

Lemma tap_mode_no_search_keys_witness :
  rd (mSearchKeysVector (afterOn asd [tapsDas])) 1 = Some 0 /\
  getAllPossibleChars defines (afterOn asd [tapsDas]) 1 [0; 0] 0 = Some ([0; 0], 0).
Proof.
  destruct (tap_mode_no_search_keys defines utils asd (fresh defines)
              (afterOn asd [tapsDas]) tapsDas) with (index := 1) as [Hnone Hfilter].
  - exists true. split; vm_compute; reflexivity.
  - reflexivity.
  - exact (init_afterOn asd [] tapsDas 3 ltac:(vm_compute; reflexivity)).
  - computed.
  - split; [exact Hnone|]. apply Hfilter. computed.
Defined.

(** ** X6 *)

Lemma possible_chars_exact_witness :
  1 <= 3 /\
  take (Z.to_nat 1) [115; 97; 100; 0] = take (Z.to_nat 1) [115; 0; 0; 0] /\
  getCodePointOf asd 2 ∈ take (Z.to_nat 3) [115; 97; 100; 0].
Proof.
  destruct (possible_chars_exact defines onS asd 0 7 [115; 0; 0; 0] 1
              [115; 97; 100; 0] 3) as (Hsize & Hkept & _ & Hall).
  - reflexivity.
  - computed.
  - computed.
  - split; [exact Hsize|]. split; [exact Hkept|]. apply Hall; computed.
Defined.

(** ** X7 *)

Lemma classification_sound_witness :
  exists first,
    getProximityCodePointsAt defines tapOnA 0 0 = Some first /\
    ~ matched utils first 113 /\
    exists d p cp,
      1 <= d < p /\ p < MAX_PROXIMITY_CHARS_SIZE defines /\
      getProximityCodePointsAt defines tapOnA 0 d
        = Some (ADDITIONAL_PROXIMITY_CHAR_DELIMITER_CODE defines) /\
      getProximityCodePointsAt defines tapOnA 0 p = Some cp /\ matched utils cp 113.
Proof.
  pose proof (classification_sound defines utils tapOnA 0 113 true (Some 0)
                ADDITIONAL_PROXIMITY_CHAR (Some 4)) as Hsound.
  cbv zeta in Hsound.
  destruct Hsound as (first & Hfirst & Heq & _ & _ & Hadd).
  - vm_compute. reflexivity.
  - destruct (Hadd eq_refl) as (_ & d & p & Hd & Hdelim & Hp & _ & cp & Hcp & _ & Hm).
    exists first. split; [exact Hfirst|]. split.
    + intros Hm'. apply Heq in Hm'. discriminate Hm'.
    + exists d, p, cp. split; [exact Hd|]. split; [apply Hp|]. by split.
Defined.

(** ** X8 *)

Lemma most_probable_string_length_witness :
  exists word,
    [115; 115; 100; 0] = word ++ [0] /\
    vsize word <= Z.max 0 (MAX_WORD_LENGTH defines - 1) /\
    vsize word <= Z.max 0 (mSampledInputSize (afterOn asd [strokeA])).
Proof.
  apply (most_probable_string_length defines (afterOn asd [strokeA]) [115; 115; 100; 0]
           (S754_finite false 9646900 (-23))).
  vm_compute. reflexivity.
Defined.


(** ** X9 *)

Lemma gesture_mode_continuation_witness :
  exists b,
    checkAndReturnIsContinuationPossible defines (afterOn asd [strokeA]) 5
      (Some [30; 40; 50; 30; 10]) (Some [10; 10; 10; 12; 10]) (Some [0; 15; 40; 60; 80])
      true = Some b /\
    (b = true <->
     forall i, 0 <= i < mSampledInputSize (afterOn asd [strokeA]) ->
       replaysAt (afterOn asd [strokeA]) 5 [30; 40; 50; 30; 10] [10; 10; 10; 12; 10]
         [0; 15; 40; 60; 80] i).
Proof.
  apply (gesture_mode_continuation defines (afterOn asd [strokeA]) 5
           [30; 40; 50; 30; 10] [10; 10; 10; 12; 10] [0; 15; 40; 60; 80]).
  - computed.
  - computed.
  - computed.
  - intros i Hi.
    assert (Hsize : mSampledInputSize (afterOn asd [strokeA]) = 3)
      by (vm_compute; reflexivity).
    rewrite Hsize in Hi.
    assert (Hcases : i = 0 \/ i = 1 \/ i = 2) by lia.
    destruct Hcases as [-> | [-> | ->]];
      [exists 0|exists 1|exists 2]; (split; [vm_compute; reflexivity|]);
      intros _; computed.
Defined.

(** ** X10 *)

Lemma gesture_continuation_reads_past_end_witness :
  checkAndReturnIsContinuationPossible defines (afterOn asd [strokeA]) 2
    (Some [30; 40]) (Some [10; 10]) (Some [0; 15]) true = None.
Proof.
  apply (gesture_continuation_reads_past_end defines (afterOn asd [strokeA]) 2
           [30; 40] [10; 10] [0; 15] 2).
  - reflexivity.
  - computed.
  - computed.
  - intros i Hi. assert (Hcases : i = 0 \/ i = 1) by lia.
    destruct Hcases as [-> | ->];
      [exists 0, 30, 10, 0|exists 1, 40, 10, 15]; computed.
Defined.

(** ** X11 *)

Lemma primary_input_word_witness :
  vsize (mPrimaryInputWord (afterOn asd [tapsDas]))
    = vsize (mPrimaryInputWord (fresh defines)) /\
  (exists c, getPrimaryCodePointAt defines (afterOn asd [tapsDas]) 1 = Some c /\
             rd (mPrimaryInputWord (afterOn asd [tapsDas])) 1 = Some c) /\
  rd (mPrimaryInputWord (afterOn asd [tapsDas])) 5 = Some 0.
Proof.
  destruct (primary_input_word defines utils asd (fresh defines)
              (afterOn asd [tapsDas]) tapsDas) as (Hsize & Htap & _).
  - exact (init_afterOn asd [] tapsDas 3 ltac:(vm_compute; reflexivity)).
  - destruct (Htap eq_refl eq_refl) as (_ & Hin & Hout).
    split; [exact Hsize|]. split; [apply Hin; computed|apply Hout; computed].
Defined.

(** ** X12 *)

Lemma proximity_char_distances_witness :
  (exists c v,
     getProximityCodePointsAt defines (afterOn asdCorrected [tapsOff]) 0 0 = Some c /\
     scaledDistanceOf defines (afterOn asdCorrected [tapsOff]) 0 0 c = Some v /\
     rd (mNormalizedSquaredDistances (afterOn asdCorrected [tapsOff]))
        (0 * MAX_PROXIMITY_CHARS_SIZE defines + 0) = Some v) /\
  (forall v,
     rd (mNormalizedSquaredDistances (afterOn asdCorrected [tapsOff]))
        (0 * MAX_PROXIMITY_CHARS_SIZE defines + 1) = Some v ->
     v = memset_int (NOT_A_DISTANCE defines)).
Proof.
  pose proof (proximity_char_distances defines utils asdCorrected (fresh defines)
                (afterOn asdCorrected [tapsOff]) tapsOff
                (init_afterOn asdCorrected [] tapsOff 3 ltac:(vm_compute; reflexivity))
                eq_refl eq_refl ltac:(vm_compute; reflexivity)) as Hall.
  split.
  - destruct (Hall 0 0) as [Hreach _]; [computed|computed|].
    apply Hreach. intros j' Hj'. assert (j' = 0) as -> by lia. exists 100. computed.
  - intros v. destruct (Hall 0 1) as [_ Hend]; [computed|computed|].
    apply (Hend 1 v); [lia|]. exists 0. computed.
Defined.

(** ** X13 *)

Lemma distances_without_correction_witness :
  vsize (mNormalizedSquaredDistances (afterOn asd [strokeA]))
    = vsize (mNormalizedSquaredDistances (fresh defines)) /\
  mNormalizedSquaredDistances (afterOn asd [strokeA])
    = memset (mNormalizedSquaredDistances (fresh defines)) (NOT_A_DISTANCE defines).
Proof.
  destruct (distances_without_correction defines utils asd (fresh defines)
              (afterOn asd [strokeA]) strokeA) as [Hsize Hsentinel].
  - exact (init_afterOn asd [] strokeA 3 ltac:(vm_compute; reflexivity)).
  - split; [exact Hsize|]. apply Hsentinel. left. reflexivity.
Defined.

(** ** X14 *)

Lemma search_key_query_witness :
  (exists readForwordLength b,
     readForwordLengthOf utils asd = Some readForwordLength /\
     isKeyInSerchKeysAfterIndex defines (afterOn asd [strokeA]) 2 0 = Some b /\
     (b = true <->
      exists j nbits,
        2 <= j < mSampledInputSize (afterOn asd [strokeA]) /\
        (forall j', 2 <= j' <= j ->
           withinReach (mLengthCache (afterOn asd [strokeA])) readForwordLength 2 j') /\
        rd (mNearKeysVector (afterOn asd [strokeA])) j = Some nbits /\
        Z.testbit nbits 0 = true)) /\
  isKeyInSerchKeysAfterIndex defines (afterOn asd [strokeA]) 2 64 = None.
Proof.
  assert (Hfresh : startsAfresh defines (fresh defines) strokeA)
    by (exists true; split; vm_compute; reflexivity).
  pose proof (search_key_query defines utils asd (fresh defines)
                (afterOn asd [strokeA]) strokeA Hfresh eq_refl
                (init_afterOn asd [] strokeA 3 ltac:(vm_compute; reflexivity))) as Hquery.
  split.
  - destruct (Hquery 2 0) as [Hin _]; [computed|]. apply Hin. computed.
  - destruct (Hquery 2 64) as [_ Hout]; [computed|]. apply Hout.
    change (MAX_KEY_COUNT_IN_A_KEYBOARD defines) with 64. lia.
Defined.

(** ** X15 *)

Lemma continuation_keeps_rows_witness :
  rd (mNearKeysVector (afterOn asd [strokeA; strokeA'])) 0 = Some 7 /\
  rd (mDistanceCache_G (afterOn asd [strokeA; strokeA'])) (0 * getKeyCount asd + 1)
    = Some F_0_0 /\
  exists bits',
    rd (mSearchKeysVector (afterOn asd [strokeA; strokeA'])) 0 = Some bits' /\
    (forall k, Z.testbit 7 k = true -> Z.testbit bits' k = true) /\
    (argIsGeometric strokeA' = false -> bits' = 7).
Proof.
  destruct (continuation_keeps_rows defines utils asd (afterOn asd [strokeA])
              (afterOn asd [strokeA; strokeA']) strokeA') with (i := 0)
    as (Hnear & Hdistance & Hsearch).
  - exact (init_afterOn asd [strokeA] strokeA' 5 ltac:(vm_compute; reflexivity)).
  - vm_compute. reflexivity.
  - computed.
  - computed.
  - computed.
  - split; [apply Hnear; computed|]. split; [apply Hdistance; computed|].
    apply Hsearch. computed.
Defined.

(** ** X16 *)

Lemma call_without_coordinates_witness :
  mSampledInputSize (afterOn asd [noCoordinates]) = 0 /\
  mTouchPositionCorrectionEnabled (afterOn asd [noCoordinates]) = false /\
  mAverageSpeed (afterOn asd [noCoordinates]) = mAverageSpeed (fresh defines) /\
  getMostProbableString defines (afterOn asd [noCoordinates]) = Some ([0], F_0_0) /\
  (forall index, getDuration (afterOn asd [noCoordinates]) index = Some 0).
Proof.
  apply (call_without_coordinates defines utils asd (fresh defines)
           (afterOn asd [noCoordinates]) noCoordinates).
  - left. reflexivity.
  - exact (init_afterOn asd [] noCoordinates 0 ltac:(vm_compute; reflexivity)).
Defined.

(** ** X17 *)

Lemma geometry_members_witness :
  (mProximityInfo (afterCalls [(asd, tapsAasd); (asOnly, tapsAasds)]) = Some asOnly /\
   mHasTouchPositionCorrectionData (afterCalls [(asd, tapsAasd); (asOnly, tapsAasds)])
     = hasTouchPositionCorrectionData asOnly /\
   mMostCommonKeyWidthSquare (afterCalls [(asd, tapsAasd); (asOnly, tapsAasds)])
     = getMostCommonKeyWidthSquare asOnly /\
   mKeyCount (afterCalls [(asd, tapsAasd); (asOnly, tapsAasds)]) = getKeyCount asOnly) /\
  (mCellHeight (afterCalls [(asd, tapsAasd); (asOnly, tapsAasds)]) = getCellHeight asOnly /\
   mCellWidth (afterCalls [(asd, tapsAasd); (asOnly, tapsAasds)]) = getCellWidth asOnly /\
   mGridHeight (afterCalls [(asd, tapsAasd); (asOnly, tapsAasds)]) = getGridWidth asOnly /\
   mGridWidth (afterCalls [(asd, tapsAasd); (asOnly, tapsAasds)]) = getGridHeight asOnly).
Proof.
  apply (geometry_members defines utils [(asd, tapsAasd)] asOnly tapsAasds (fresh defines)
           (afterCalls [(asd, tapsAasd); (asOnly, tapsAasds)])).
  exact (session_afterCalls [(asd, tapsAasd); (asOnly, tapsAasds)] 5
           ltac:(vm_compute; reflexivity)).
Defined.

End Worked.
